(** * aury.ai.model.tools: schema normalisation, tool mapping, MCP name codec

    A shallow embedding of [src/aury/ai/model/tools.py] and the properties
    of it that the specification states.

    Python values are modelled by the JSON fragment of [Any] (the data a
    tool schema or a tool-call record is made of).  A [dict] is an
    association list in insertion order; Python never stores a key twice,
    which is the predicate [wf_value] below.  A [str] is a [string]: the
    code inspects characters only through the regular expression
    [^mcp::(.+?)::(.+)$], which tells apart the newline, the colon and the
    letters of the prefix and nothing else.  An exception is a result
    [Err e].

    The functions are pure but for one thing, the dict that
    [_normalize_schema] builds by assignments to a copy of its argument.
    They are modelled on values, where a dict is its entries; the
    normalizer is modelled also on a store of mutable objects, to state
    that the assignments reach the copy only, and the two models are shown
    to compute the same ([normalize_on_store]).

    The recursion of the normalizer is on the nesting of its argument.
    [normalize_fuel limit] is the normalizer when the interpreter allows
    [limit] nested calls of it, and [FuelExhausted] is the
    [RecursionError] it raises beyond them; [_normalize_schema] is the
    normalizer on the arguments that stay below the limit. *)

From Stdlib Require Import ZArith Lia Bool Ascii String.
From stdpp Require Import base list.

Local Open Scope string_scope.
Local Open Scope list_scope.

(** String concatenation, written apart from the [++] of lists. *)
Infix "+:+" := String.append (at level 60, right associativity).

(** ** Exceptions and the error monad *)

Inductive exn : Type :=
| TypeError (msg : string)
| KeyError (key : string)
| ValidationError                  (* a model class refuses an argument *)
| DanglingReference
| FuelExhausted.                   (* [RecursionError] *)

Inductive res (A : Type) : Type :=
| Ok (a : A)
| Err (e : exn).
Arguments Ok {A} a.
Arguments Err {A} e.

Definition rbind {A B : Type} (m : res A) (f : A -> res B) : res B :=
  match m with
  | Ok a => f a
  | Err e => Err e
  end.

Declare Scope res_scope.
Delimit Scope res_scope with res.
Notation "x <- m ;; k" := (rbind m (fun x => k))
  (at level 100, m at next level, right associativity) : res_scope.
Local Open Scope res_scope.

(** ** Python strings *)

Definition newline : ascii := "010"%char.
Definition colon : ascii := ":"%char.

(** [sub in s] *)
Fixpoint str_contains (sub s : string) : bool :=
  String.prefix sub s ||
  match s with
  | EmptyString => false
  | String _ s' => str_contains sub s'
  end.

(** [c in s] for a single character *)
Fixpoint has_char (c : ascii) (s : string) : bool :=
  match s with
  | EmptyString => false
  | String c' s' => Ascii.eqb c' c || has_char c s'
  end.

(** [s.endswith(c)] for a single character *)
Fixpoint ends_with_char (c : ascii) (s : string) : bool :=
  match s with
  | EmptyString => false
  | String c' EmptyString => Ascii.eqb c c'
  | String _ s' => ends_with_char c s'
  end.

(** ** Python values *)

Local Set Warnings "-register-all".

Inductive value : Type :=
| VNone
| VBool (b : bool)
| VInt (n : Z)
| VFloat (bits : Z)                      (* the binary64 pattern of a float *)
| VStr (s : string)
| VList (items : list value)
| VDict (entries : list (string * value)).

(** [bool(v)] *)
Definition truthy (v : value) : bool :=
  match v with
  | VNone => false
  | VBool b => b
  | VInt n => negb (n =? 0)%Z
  | VFloat bits => negb (Z.land bits (2 ^ 63 - 1) =? 0)%Z
  | VStr s => negb (String.eqb s "")
  | VList items => match items with [] => false | _ => true end
  | VDict entries => match entries with [] => false | _ => true end
  end.

(** [isinstance(v, dict)] *)
Definition is_dict (v : value) : bool :=
  match v with VDict _ => true | _ => false end.

(** Lists and dicts have no hash. *)
Definition hashable (v : value) : bool :=
  match v with VList _ | VDict _ => false | _ => true end.

(** [v == s] for a string [s] *)
Definition eq_str (v : value) (s : string) : bool :=
  match v with VStr s' => String.eqb s' s | _ => false end.

(** ** Dictionaries

    The operations of [dict] that the module uses, on association lists in
    insertion order.  They are generic in the type of the values, which is
    [value] here and a heap value in the store model further down. *)
Section Dict.
Context {V : Type}.

(** [d.get(k)] *)
Fixpoint dict_get (k : string) (d : list (string * V)) : option V :=
  match d with
  | [] => None
  | (k', v) :: d' => if String.eqb k k' then Some v else dict_get k d'
  end.

(** [k in d] *)
Definition dict_in (k : string) (d : list (string * V)) : bool :=
  match dict_get k d with Some _ => true | None => false end.

(** [d[k]] *)
Definition dict_item (k : string) (d : list (string * V)) : res V :=
  match dict_get k d with
  | Some v => Ok v
  | None => Err (KeyError k)
  end.

(** [d[k] = v]: a key that is present keeps its place, a new key goes to
    the end. *)
Fixpoint dict_set (k : string) (v : V) (d : list (string * V))
    : list (string * V) :=
  match d with
  | [] => [(k, v)]
  | (k', v') :: d' =>
      if String.eqb k k' then (k', v) :: d' else (k', v') :: dict_set k v d'
  end.

(** [d.update(other)] *)
Definition dict_update (d other : list (string * V)) : list (string * V) :=
  fold_left (fun acc kv => dict_set kv.1 kv.2 acc) other d.

(** [{k: f(v) for k, v in d.items()}], the first exception of [f] ending
    the comprehension. *)
Fixpoint dict_comp {W : Type} (f : V -> res W) (d : list (string * V))
    : res (list (string * W)) :=
  match d with
  | [] => Ok []
  | (k, v) :: d' =>
      v' <- f v ;;
      d'' <- dict_comp f d' ;;
      Ok ((k, v') :: d'')
  end.

Definition keys (d : list (string * V)) : list string := map fst d.
End Dict.

(** No key is stored twice, at any level: the values Python can build. *)
Fixpoint wf_value (v : value) : Prop :=
  match v with
  | VList items =>
      (fix all (l : list value) : Prop :=
         match l with [] => True | x :: l' => wf_value x /\ all l' end) items
  | VDict entries =>
      NoDup (keys entries) /\
      (fix all (l : list (string * value)) : Prop :=
         match l with [] => True | kv :: l' => wf_value kv.2 /\ all l' end) entries
  | _ => True
  end.

(** The nesting depth of a value: the recursion depth a traversal needs. *)
Fixpoint depth (v : value) : nat :=
  match v with
  | VList items =>
      S ((fix go (l : list value) : nat :=
            match l with [] => 0 | x :: l' => Nat.max (depth x) (go l') end) items)
  | VDict entries =>
      S ((fix go (l : list (string * value)) : nat :=
            match l with [] => 0 | kv :: l' => Nat.max (depth kv.2) (go l') end) entries)
  | _ => 0
  end.

(** ** Schema normalizer *)

Definition valid_types : list string :=
  ["string"; "number"; "integer"; "boolean"; "object"; "array"; "null"].

(** [v in valid_types], the membership test of a [set]: it hashes [v]. *)
Definition in_valid_types (v : value) : res bool :=
  if hashable v then
    Ok (match v with
        | VStr s => existsb (String.eqb s) valid_types
        | _ => false
        end)
  else Err (TypeError "unhashable type").

(** [d.get(k) == s] *)
Definition get_is (k : string) (d : list (string * value)) (s : string) : bool :=
  match dict_get k d with
  | Some v => eq_str v s
  | None => false                        (* [None == s] *)
  end.

(** Lines 57-70: make sure a valid [type] is there. *)
Definition ensure_type (result : list (string * value))
    : res (list (string * value)) :=
  if negb (dict_in "type" result) then
    if dict_in "properties" result || dict_in "additionalProperties" result then
      Ok (dict_set "type" (VStr "object") result)
    else if dict_in "items" result then
      Ok (dict_set "type" (VStr "array") result)
    else if dict_in "enum" result then
      Ok result
    else
      Ok (dict_set "type" (VStr "string") result)
  else
    ty <- dict_item "type" result ;;
    valid <- in_valid_types ty ;;
    if negb valid then Ok (dict_set "type" (VStr "string") result)
    else Ok result.

(** Lines 73-82: an object has [properties] and [required]. *)
Definition complete_object (rec : value -> res value)
    (result : list (string * value)) : res (list (string * value)) :=
  if get_is "type" result "object" then
    let result :=
      if negb (dict_in "properties" result)
      then dict_set "properties" (VDict []) result else result in
    let result :=
      if negb (dict_in "required" result)
      then dict_set "required" (VList []) result else result in
    match dict_get "properties" result with
    | Some (VDict props) =>
        props' <- dict_comp rec props ;;
        Ok (dict_set "properties" (VDict props') result)
    | _ => Ok result
    end
  else Ok result.

(** Lines 85-86: the items of an array. *)
Definition normalize_items (rec : value -> res value)
    (result : list (string * value)) : res (list (string * value)) :=
  if get_is "type" result "array" && dict_in "items" result then
    items <- dict_item "items" result ;;
    items' <- rec items ;;
    Ok (dict_set "items" items' result)
  else Ok result.

(** Lines 89-90: [additionalProperties] when it is a schema. *)
Definition normalize_additional (rec : value -> res value)
    (result : list (string * value)) : res (list (string * value)) :=
  match dict_get "additionalProperties" result with
  | Some (VDict ap) =>
      ap' <- rec (VDict ap) ;;
      Ok (dict_set "additionalProperties" ap' result)
  | _ => Ok result
  end.

(** The body of [_normalize_schema], its recursive calls going to [rec]. *)
Definition normalize_body (rec : value -> res value) (schema : value)
    : res value :=
  match schema with
  | VDict entries =>
      let result := entries in                          (* [dict(schema)] *)
      result <- ensure_type result ;;
      result <- complete_object rec result ;;
      result <- normalize_items rec result ;;
      result <- normalize_additional rec result ;;
      Ok (VDict result)
  | _ => Ok schema
  end.

(** [fuel] bounds the depth of the recursion. *)
Fixpoint normalize_fuel (fuel : nat) (schema : value) : res value :=
  match fuel with
  | 0 => Err FuelExhausted
  | S fuel' => normalize_body (normalize_fuel fuel') schema
  end.

(** [_normalize_schema], with the depth of recursion its argument needs: a
    value of depth [n] takes [n] nested calls.  [normalize_unfold] below
    shows that this is the function of the source, which calls itself:
    [_normalize_schema s = normalize_body _normalize_schema s]. *)
Definition _normalize_schema (schema : value) : res value :=
  normalize_fuel (S (depth schema)) schema.

(** ** The regular expressions of [re] that the module uses

    [_mcp_pat] is built from anchors, literal characters and capturing
    groups around a one-or-more repetition of a single-character class,
    greedy or lazy.  [exec] is the backtracking matcher of [re.match] on
    that fragment: it tries the alternatives in the order [re] does
    (a lazy repetition tries to stop before it takes one more character, a
    greedy one after), so the groups it returns are those of the first
    match [re] finds. *)
Module Re.

Inductive atom : Type :=
| Dot                 (* [.]: any character but the newline (no DOTALL) *)
| Chr (c : ascii).

Inductive node : Type :=
| Bol                                  (* [^] *)
| Eol                                  (* [$] *)
| Lit (c : ascii)
| GroupPlus (greedy : bool) (a : atom) (* [(a+)] and [(a+?)] *).

Definition regex := list node.

Definition atom_matches (a : atom) (c : ascii) : bool :=
  match a with
  | Dot => negb (Ascii.eqb c newline)
  | Chr c' => Ascii.eqb c c'
  end.

(** [$] without MULTILINE: at the end of the string, or just before a
    newline that ends the string. *)
Definition at_eol (s : string) : bool :=
  match s with
  | EmptyString => true
  | String c EmptyString => Ascii.eqb c newline
  | _ => false
  end.

Definition snoc (s : string) (c : ascii) : string := s +:+ String c EmptyString.

(** One-or-more [a], the text taken so far in [acc], then the rest of
    the pattern [k]. *)
Fixpoint plus_loop {R : Type} (greedy : bool) (a : atom)
    (k : string -> nat -> string -> option R)
    (acc : string) (pos : nat) (s : string) : option R :=
  match s with
  | EmptyString => None
  | String c s' =>
      if atom_matches a c then
        if greedy then
          match plus_loop greedy a k (snoc acc c) (S pos) s' with
          | Some r => Some r
          | None => k (snoc acc c) (S pos) s'
          end
        else
          match k (snoc acc c) (S pos) s' with
          | Some r => Some r
          | None => plus_loop greedy a k (snoc acc c) (S pos) s'
          end
      else None
  end.

(** [exec re pos s groups]: match [re] against [s], the part of the
    subject that starts at offset [pos]; the result is the list of the
    texts of the groups, in the order the groups open. *)
Fixpoint exec (re : regex) (pos : nat) (s : string) (groups : list string)
    : option (list string) :=
  match re with
  | [] => Some groups
  | Bol :: re' => if Nat.eqb pos 0 then exec re' pos s groups else None
  | Eol :: re' => if at_eol s then exec re' pos s groups else None
  | Lit c :: re' =>
      match s with
      | String c' s' =>
          if Ascii.eqb c c' then exec re' (S pos) s' groups else None
      | EmptyString => None
      end
  | GroupPlus greedy a :: re' =>
      plus_loop greedy a
        (fun cap pos' s' => exec re' pos' s' (groups ++ [cap]))
        EmptyString pos s
  end.

(** [pattern.match(s)] *)
Definition match_ (re : regex) (s : string) : option (list string) :=
  exec re 0 s [].

Fixpoint lits (s : string) : regex :=
  match s with
  | EmptyString => []
  | String c s' => Lit c :: lits s'
  end.

End Re.

(** ** Call name codec *)

(** [re.compile(r"^mcp::(.+?)::(.+)$")] *)
Definition _mcp_pat : Re.regex :=
  [Re.Bol] ++ Re.lits "mcp::" ++ [Re.GroupPlus false Re.Dot] ++
  Re.lits "::" ++ [Re.GroupPlus true Re.Dot] ++ [Re.Eol].

(** What is left of the pattern once the server segment is taken. *)
Definition after_server : Re.regex :=
  Re.lits "::" ++ [Re.GroupPlus true Re.Dot] ++ [Re.Eol].

Definition decode_maybe_mcp (name : string) : option string * string :=
  match Re.match_ _mcp_pat name with
  | Some [g1; g2] => (Some g1, g2)
  | _ => (None, name)
  end.

(** The f-string [f"mcp::{server_id}::{name}"] of [to_openai_tools]. *)
Definition encode_mcp (server_id name : string) : string :=
  "mcp::" +:+ server_id +:+ "::" +:+ name.

(** ** Tool specifications *)

Module ToolKind.
Inductive t : Type := function | mcp | builtin.
End ToolKind.

Module FunctionToolSpec.
Record t : Type := {
  name : string;
  description : option string;
  parameters : list (string * value);
  strict : bool;
}.
End FunctionToolSpec.

Module MCPToolSpec.
Record t : Type := {
  server_id : string;
  name : string;
  description : option string;
  input_schema : list (string * value);
  result_schema : option (list (string * value));
}.
End MCPToolSpec.

Module BuiltinToolSpec.
Record t : Type := {
  type : string;
  config : list (string * value);
}.
End BuiltinToolSpec.

Module ToolSpec.
Record t : Type := {
  kind : ToolKind.t;
  function : option FunctionToolSpec.t;
  mcp : option MCPToolSpec.t;
  builtin : option BuiltinToolSpec.t;
}.
End ToolSpec.

(** ** Format mapper *)

(** [description or ""] *)
Definition or_empty (description : option string) : string :=
  match description with
  | Some d => d
  | None => ""
  end.

(** The declaration [{"type": "function", "function": {...}}]. *)
Definition function_decl (name description : string) (parameters : value)
    : value :=
  VDict [("type", VStr "function");
         ("function", VDict [("name", VStr name);
                             ("description", VStr description);
                             ("parameters", parameters)])].

(** The body of the loop of [to_openai_tools].  A payload, when it is
    there, is a model instance and so is true; each row is one arm of the
    [if]/[elif] chain and the last one the fall through. *)
Definition loop_body (supports_mcp_native : bool) (out : list value)
    (t : ToolSpec.t) : res (list value) :=
  match ToolSpec.kind t, ToolSpec.function t, ToolSpec.mcp t, ToolSpec.builtin t with
  | ToolKind.function, Some f, _, _ =>
      parameters <- _normalize_schema (VDict (FunctionToolSpec.parameters f)) ;;
      Ok (out ++ [function_decl (FunctionToolSpec.name f)
                    (or_empty (FunctionToolSpec.description f)) parameters])
  | ToolKind.mcp, _, Some m, _ =>
      if supports_mcp_native then
        parameters <- _normalize_schema (VDict (MCPToolSpec.input_schema m)) ;;
        Ok (out ++ [VDict [("type", VStr "mcp");
                           ("server", VStr (MCPToolSpec.server_id m));
                           ("name", VStr (MCPToolSpec.name m));
                           ("parameters", parameters)]])
      else
        let enc := encode_mcp (MCPToolSpec.server_id m) (MCPToolSpec.name m) in
        let desc := or_empty (MCPToolSpec.description m) +:+
                    " [MCP server=" +:+ MCPToolSpec.server_id m +:+ "]" in
        parameters <- _normalize_schema (VDict (MCPToolSpec.input_schema m)) ;;
        Ok (out ++ [function_decl enc desc parameters])
  | ToolKind.builtin, _, _, Some b =>
      let item := [("type", VStr (BuiltinToolSpec.type b))] in
      let item := dict_update item (BuiltinToolSpec.config b) in
      Ok (out ++ [VDict item])
  | _, _, _, _ => Ok out
  end.

(** [for x in l: st = body(st, x)] *)
Fixpoint for_each {A S : Type} (body : S -> A -> res S) (st : S) (l : list A)
    : res S :=
  match l with
  | [] => Ok st
  | x :: l' => st' <- body st x ;; for_each body st' l'
  end.

Definition to_openai_tools (tools : list ToolSpec.t)
    (supports_mcp_native : bool) : res (list value) :=
  for_each (loop_body supports_mcp_native) [] tools.

(** ** Inbound tool calls *)

(** Modelled from the spec: [ToolCall], the record of [.types], a module
    that is not among the sources.  Its fields are those of section 3 of
    the specification.  [ToolCall.t] is the call of the constructor, with
    the keyword arguments it is given; what the class accepts of them is
    [validate_tool_call] below. *)
Module ToolCall.
Record t : Type := {
  id : value;
  name : value;
  arguments_json : value;
  mcp_server_id : option string;
}.
End ToolCall.

(** [d.get(k, default)] *)
Definition get_default (k : string) (default : value)
    (d : list (string * value)) : value :=
  match dict_get k d with
  | Some v => v
  | None => default
  end.

(** [bool(server)] for [server : str | None] *)
Definition server_truthy (server : option string) : bool :=
  match server with
  | Some s => negb (String.eqb s "")
  | None => false
  end.

Definition normalize_tool_call (raw : list (string * value)) : res ToolCall.t :=
  match get_default "name" (VStr "") raw with
  | VStr name =>
      let '(server, tool) := decode_maybe_mcp name in
      Ok {| ToolCall.id :=
              (let i := get_default "id" VNone raw in
               if truthy i then i else VStr "");
            ToolCall.name :=
              (if server_truthy server then VStr tool
               else get_default "name" (VStr "") raw);
            ToolCall.arguments_json := get_default "arguments" (VStr "{}") raw;
            ToolCall.mcp_server_id := server |}
  | _ => Err (TypeError "expected string or bytes-like object")
  end.

(** [isinstance(v, str)] *)
Definition is_str (v : value) : bool :=
  match v with VStr _ => true | _ => false end.

(** Modelled from the spec: what the class [ToolCall] of [.types] accepts.
    Section 3 of the specification gives [id], [name] and
    [arguments_json] as strings, and [mcp_server_id] alone as a string or
    null: a keyword argument of another type is refused, with the
    [ValidationError] of a model class. *)
Definition validate_tool_call (tc : ToolCall.t) : res ToolCall.t :=
  if is_str (ToolCall.id tc) && is_str (ToolCall.name tc) &&
     is_str (ToolCall.arguments_json tc)
  then Ok tc
  else Err ValidationError.

(** [normalize_tool_call] with the class: the call that lines 127-135
    build, then what [ToolCall] makes of it. *)
Definition normalize_tool_call_validated (raw : list (string * value))
    : res ToolCall.t :=
  tc <- normalize_tool_call raw ;; validate_tool_call tc.

(** ** Auxiliary notions for the proofs about the normalizer *)

(** The dict [complete_object] works on once [properties] and [required]
    are there. *)
Definition with_defaults (d : list (string * value)) : list (string * value) :=
  let d := if negb (dict_in "properties" d)
           then dict_set "properties" (VDict []) d else d in
  if negb (dict_in "required" d)
  then dict_set "required" (VList []) d else d.

(** What [ensure_type] establishes: a valid [type], or none at all next to
    an [enum] and none of the keys a type is inferred from. *)
Definition typed (d : list (string * value)) : Prop :=
  (exists t, dict_get "type" d = Some (VStr t) /\
             existsb (String.eqb t) valid_types = true) \/
  (dict_get "type" d = None /\ dict_get "properties" d = None /\
   dict_get "additionalProperties" d = None /\ dict_get "items" d = None /\
   dict_in "enum" d = true).

(** The entries of a dict Python can build. *)
Definition wf_entries (d : list (string * value)) : Prop :=
  NoDup (keys d) /\ Forall (fun kv => wf_value kv.2) d.

(** A dict on which no step of the normalizer has anything left to do. *)
Definition stable (rec : value -> res value) (d : list (string * value)) : Prop :=
  typed d /\
  (get_is "type" d "object" = true ->
   dict_in "properties" d = true /\ dict_in "required" d = true /\
   forall p, dict_get "properties" d = Some (VDict p) -> dict_comp rec p = Ok p) /\
  (get_is "type" d "array" = true ->
   forall v, dict_get "items" d = Some v -> rec v = Ok v) /\
  (forall a, dict_get "additionalProperties" d = Some (VDict a) ->
             rec (VDict a) = Ok (VDict a)).

(** ** Auxiliary notions for the statements about the mapper *)

(** Every dict nested in [v] through dict values has a [type] that can be
    hashed, when it has one.  Lists are not looked into: the normalizer
    does not enter them. *)
Fixpoint types_hashable (v : value) : Prop :=
  match v with
  | VDict entries =>
      (forall ty, dict_get "type" entries = Some ty -> hashable ty = true) /\
      (fix all (l : list (string * value)) : Prop :=
         match l with
         | [] => True
         | kv :: l' => types_hashable kv.2 /\ all l'
         end) entries
  | _ => True
  end.

(** The schemas a tool carries, as the mapper reads them. *)
Definition tool_types_hashable (t : ToolSpec.t) : Prop :=
  match ToolSpec.kind t, ToolSpec.function t, ToolSpec.mcp t with
  | ToolKind.function, Some f, _ =>
      types_hashable (VDict (FunctionToolSpec.parameters f))
  | ToolKind.mcp, _, Some m =>
      types_hashable (VDict (MCPToolSpec.input_schema m))
  | _, _, _ => True
  end.

(** The payload the mapper reads: the one of the declared kind. *)
Definition same_selected (t1 t2 : ToolSpec.t) : Prop :=
  ToolSpec.kind t1 = ToolSpec.kind t2 /\
  match ToolSpec.kind t1 with
  | ToolKind.function => ToolSpec.function t1 = ToolSpec.function t2
  | ToolKind.mcp => ToolSpec.mcp t1 = ToolSpec.mcp t2
  | ToolKind.builtin => ToolSpec.builtin t1 = ToolSpec.builtin t2
  end.

(** No payload for the declared kind. *)
Definition payload_missing (t : ToolSpec.t) : Prop :=
  match ToolSpec.kind t with
  | ToolKind.function => ToolSpec.function t = None
  | ToolKind.mcp => ToolSpec.mcp t = None
  | ToolKind.builtin => ToolSpec.builtin t = None
  end.

(** A tool call record whose [name] is a string, or that has none. *)
Definition name_is_str (raw : list (string * value)) : Prop :=
  exists n, get_default "name" (VStr "") raw = VStr n.

(** ** Auxiliary notions for the further properties *)

(** The keys the normalizer may assign to. *)
Definition normalizer_keys : list string :=
  ["type"; "properties"; "required"; "items"; "additionalProperties"].

(** The key [k], when [b]. *)
Definition opt_key (b : bool) (k : string) : list string :=
  if b then [k] else [].

(** The payload of the declared kind is there. *)
Definition has_payload (t : ToolSpec.t) : bool :=
  match ToolSpec.kind t, ToolSpec.function t, ToolSpec.mcp t, ToolSpec.builtin t with
  | ToolKind.function, Some _, _, _ => true
  | ToolKind.mcp, _, Some _, _ => true
  | ToolKind.builtin, _, _, Some _ => true
  | _, _, _, _ => false
  end.

(** A tool of kind [mcp] with its payload: the tools the flag
    [supports_mcp_native] is read for. *)
Definition is_mcp_tool (t : ToolSpec.t) : bool :=
  match ToolSpec.kind t, ToolSpec.mcp t with
  | ToolKind.mcp, Some _ => true
  | _, _ => false
  end.

(** A tool of kind [builtin]. *)
Definition is_builtin_kind (t : ToolSpec.t) : bool :=
  match ToolSpec.kind t with
  | ToolKind.builtin => true
  | _ => false
  end.

(** [d["function"]["name"]] of a function declaration, when it is there. *)
Definition decl_function_name (d : value) : option value :=
  match d with
  | VDict entries =>
      match dict_get "function" entries with
      | Some (VDict f) => dict_get "name" f
      | _ => None
      end
  | _ => None
  end.

(** The schema a declaration carries: [d["parameters"]] of a native mcp
    declaration, [d["function"]["parameters"]] of a function declaration. *)
Definition decl_parameters (d : value) : option value :=
  match d with
  | VDict entries =>
      match dict_get "type" entries with
      | Some (VStr "mcp") => dict_get "parameters" entries
      | _ =>
          match dict_get "function" entries with
          | Some (VDict f) => dict_get "parameters" f
          | _ => None
          end
      end
  | _ => None
  end.

(** The [type] a schema has once lines 57-70 have run, when its own
    [type] can be hashed: a valid one is kept, any other becomes
    ["string"], a missing one is inferred, but for a schema with an
    [enum]. *)
Definition resolved_type (e : list (string * value)) : option string :=
  match dict_get "type" e with
  | Some (VStr t) =>
      if existsb (String.eqb t) valid_types then Some t else Some "string"
  | Some _ => Some "string"
  | None =>
      if dict_in "properties" e || dict_in "additionalProperties" e
      then Some "object"
      else if dict_in "items" e then Some "array"
      else if dict_in "enum" e then None
      else Some "string"
  end.

Definition type_is (t : option string) (s : string) : bool :=
  match t with
  | Some t' => String.eqb t' s
  | None => false
  end.

(** The schemas the normalizer calls itself on, in a dict of type [t]:
    the values of [properties] in an object (lines 80-82), the [items] of
    an array (lines 85-86), [additionalProperties] when it is a dict
    (lines 89-90). *)
Definition property_schemas (t : option string) (d : list (string * value))
    : list value :=
  if type_is t "object" then
    match dict_get "properties" d with
    | Some (VDict props) => map snd props
    | _ => []
    end
  else [].

Definition item_schemas (t : option string) (d : list (string * value))
    : list value :=
  if type_is t "array" then
    match dict_get "items" d with
    | Some items => [items]
    | None => []
    end
  else [].

Definition additional_schemas (d : list (string * value)) : list value :=
  match dict_get "additionalProperties" d with
  | Some (VDict ap) => [VDict ap]
  | _ => []
  end.

(** The values the normalizer visits from the schema [e], in the order of
    its calls. *)
Definition visited (e : list (string * value)) : list value :=
  property_schemas (resolved_type e) e ++ item_schemas (resolved_type e) e ++
  additional_schemas e.

(** The [type] of [e] can be hashed, when there is one. *)
Definition type_hashable (e : list (string * value)) : Prop :=
  forall ty, dict_get "type" e = Some ty -> hashable ty = true.

(** Every dict the normalizer visits from [s], [s] itself if it is one,
    has a [type] that can be hashed.  A dict under another key, or in a
    list, is not visited. *)
Inductive visits_hashable : value -> Prop :=
| visits_other (s : value) : is_dict s = false -> visits_hashable s
| visits_dict (e : list (string * value)) :
    type_hashable e ->
    (forall v, In v (visited e) -> visits_hashable v) ->
    visits_hashable (VDict e).

(** The outcome of a step of the normalizer, from those of the calls
    [rec] it makes: it returns when they all do, and raises what one of
    them raises. *)
Definition outcome {A : Type} (rec : value -> res value) (m : res A)
    (calls : list value) : Prop :=
  match m with
  | Ok _ => forall v, In v calls -> exists v', rec v = Ok v'
  | Err err => exists v, In v calls /\ rec v = Err err
  end.

(** The schema the mapper hands to the normalizer for a tool: the
    [parameters] of a function, the [input_schema] of an mcp tool. *)
Definition tool_schema (t : ToolSpec.t) : option (list (string * value)) :=
  match ToolSpec.kind t, ToolSpec.function t, ToolSpec.mcp t with
  | ToolKind.function, Some f, _ => Some (FunctionToolSpec.parameters f)
  | ToolKind.mcp, _, Some m => Some (MCPToolSpec.input_schema m)
  | _, _, _ => None
  end.

(** The records of section 6 of the specification, [{id?: string, name:
    string, arguments?: string}], as far as [id] and [arguments] go: an
    [id] that is a string, or false, or missing, and [arguments] that are
    a string, or missing. *)
Definition id_accepted (raw : list (string * value)) : Prop :=
  match dict_get "id" raw with
  | Some v => truthy v = false \/ is_str v = true
  | None => True
  end.

Definition arguments_accepted (raw : list (string * value)) : Prop :=
  match dict_get "arguments" raw with
  | Some v => is_str v = true
  | None => True
  end.

(** ** Sample data *)

Definition function_tool (f : FunctionToolSpec.t) : ToolSpec.t :=
  {| ToolSpec.kind := ToolKind.function; ToolSpec.function := Some f;
     ToolSpec.mcp := None; ToolSpec.builtin := None |}.

Definition mcp_tool (m : MCPToolSpec.t) : ToolSpec.t :=
  {| ToolSpec.kind := ToolKind.mcp; ToolSpec.function := None;
     ToolSpec.mcp := Some m; ToolSpec.builtin := None |}.

Definition builtin_tool (b : BuiltinToolSpec.t) : ToolSpec.t :=
  {| ToolSpec.kind := ToolKind.builtin; ToolSpec.function := None;
     ToolSpec.mcp := None; ToolSpec.builtin := Some b |}.

(** Scenario A of the specification. *)
Definition search_spec : FunctionToolSpec.t :=
  {| FunctionToolSpec.name := "search"; FunctionToolSpec.description := None;
     FunctionToolSpec.parameters := []; FunctionToolSpec.strict := true |}.

(** Scenario B of the specification. *)
Definition lookup_spec : MCPToolSpec.t :=
  {| MCPToolSpec.server_id := "srv1"; MCPToolSpec.name := "lookup";
     MCPToolSpec.description := None; MCPToolSpec.input_schema := [];
     MCPToolSpec.result_schema := None |}.

(** The two with a description. *)
Definition described_search_spec : FunctionToolSpec.t :=
  {| FunctionToolSpec.name := "search";
     FunctionToolSpec.description := Some "Searches the web";
     FunctionToolSpec.parameters := []; FunctionToolSpec.strict := true |}.

Definition described_lookup_spec : MCPToolSpec.t :=
  {| MCPToolSpec.server_id := "srv1"; MCPToolSpec.name := "lookup";
     MCPToolSpec.description := Some "Looks things up";
     MCPToolSpec.input_schema := []; MCPToolSpec.result_schema := None |}.

(** An mcp tool whose input schema gives [type] as a list. *)
Definition nullable_lookup_spec : MCPToolSpec.t :=
  {| MCPToolSpec.server_id := "srv1"; MCPToolSpec.name := "lookup";
     MCPToolSpec.description := None;
     MCPToolSpec.input_schema := [("type", VList [VStr "string"; VStr "null"])];
     MCPToolSpec.result_schema := None |}.

(** A builtin whose configuration has a [type] of its own. *)
Definition web_search_spec : BuiltinToolSpec.t :=
  {| BuiltinToolSpec.type := "web_search";
     BuiltinToolSpec.config := [("type", VStr "other"); ("region", VStr "eu")] |}.

(** A function whose parameter schema gives [type] as a list of type
    names, ["type": ["string", "null"]]. *)
Definition nullable_spec : FunctionToolSpec.t :=
  {| FunctionToolSpec.name := "note"; FunctionToolSpec.description := None;
     FunctionToolSpec.parameters := [("type", VList [VStr "string"; VStr "null"])];
     FunctionToolSpec.strict := true |}.

(** A tool of kind [mcp] that carries a function payload and no mcp one. *)
Definition mismatched_tool : ToolSpec.t :=
  {| ToolSpec.kind := ToolKind.mcp; ToolSpec.function := Some search_spec;
     ToolSpec.mcp := None; ToolSpec.builtin := None |}.

(** A function tool that carries a builtin payload as well. *)
Definition overfull_tool : ToolSpec.t :=
  {| ToolSpec.kind := ToolKind.function; ToolSpec.function := Some search_spec;
     ToolSpec.mcp := None; ToolSpec.builtin := Some web_search_spec |}.

Definition dquote : ascii := "034"%char.

(** Scenarios C and D of the specification; the arguments of the first
    are the text [{"q":1}]. *)
Definition call_c : list (string * value) :=
  [("id", VStr "c1"); ("name", VStr "mcp::srv1::lookup");
   ("arguments", VStr ("{" +:+ String dquote "q" +:+ String dquote ":1}"))].

Definition call_d : list (string * value) := [("name", VStr "search")].

(** A record whose [id] is there and is [None]. *)
Definition call_null_id : list (string * value) :=
  [("id", VNone); ("name", VStr "search")].

(** A record whose [id] and [arguments] are there and are [None]. *)
Definition call_null : list (string * value) :=
  [("id", VNone); ("name", VStr "search"); ("arguments", VNone)].

(** ** The normalizer on a store of mutable objects

    Python dicts and lists are objects with an identity: two names may
    refer to one object, and an assignment [d[k] = v] is seen through all
    of them.  To state that [_normalize_schema] leaves its argument alone,
    the function is modelled a second time on a store: a value is an
    immutable scalar or a reference, the store maps references to dict and
    list objects, [dict(schema)] and the displays [{}], [[]] and
    [{k: ... for ...}] allocate, and [result[k] = v] updates the object
    [result] refers to in place. *)
Module Heap.

Inductive hval : Type :=
| HNone
| HBool (b : bool)
| HInt (n : Z)
| HFloat (bits : Z)
| HStr (s : string)
| HRef (l : nat).

Inductive obj : Type :=
| ODict (entries : list (string * hval))
| OList (items : list hval).

Abbreviation heap := (list obj).

(** Computations that read and write the store and may raise. *)
Definition M (A : Type) : Type := heap -> res A * heap.

Definition ret {A : Type} (a : A) : M A := fun h => (Ok a, h).

Definition raise {A : Type} (e : exn) : M A := fun h => (Err e, h).

Definition bind {A B : Type} (m : M A) (f : A -> M B) : M B :=
  fun h =>
    match m h with
    | (Ok a, h') => f a h'
    | (Err e, h') => (Err e, h')
    end.

Declare Scope heap_scope.
Delimit Scope heap_scope with heap.
Notation "x <- m ;; k" := (bind m (fun x => k))
  (at level 100, m at next level, right associativity) : heap_scope.
Notation "m ;; k" := (bind m (fun _ => k))
  (at level 100, right associativity) : heap_scope.
Local Open Scope heap_scope.

(** A new object, at the first free address. *)
Definition alloc (o : obj) : M nat :=
  fun h => (Ok (length h), h ++ [o]).

Definition load (l : nat) : M obj :=
  fun h =>
    match h !! l with
    | Some o => (Ok o, h)
    | None => (Err DanglingReference, h)
    end.

Definition store (l : nat) (o : obj) : M unit :=
  fun h => (Ok tt, <[l := o]> h).

(** The entries of the dict at [l]. *)
Definition load_dict (l : nat) : M (list (string * hval)) :=
  o <- load l ;;
  match o with
  | ODict entries => ret entries
  | OList _ => raise (TypeError "not a dict")
  end.

(** [isinstance(v, dict)] *)
Definition is_dict (v : hval) : M bool :=
  match v with
  | HRef l =>
      o <- load l ;;
      ret (match o with ODict _ => true | OList _ => false end)
  | _ => ret false
  end.

(** [dict(src)]: a new dict with the entries of [src]; the values are
    shared, not copied. *)
Definition copy_dict (src : nat) : M nat :=
  entries <- load_dict src ;;
  alloc (ODict entries).

(** [d.get(k)], [k in d], [d[k]] and [d[k] = v] for the dict at [d]. *)
Definition get (d : nat) (k : string) : M (option hval) :=
  entries <- load_dict d ;; ret (dict_get k entries).

Definition contains (d : nat) (k : string) : M bool :=
  entries <- load_dict d ;; ret (dict_in k entries).

Definition item (d : nat) (k : string) : M hval :=
  entries <- load_dict d ;;
  match dict_get k entries with
  | Some v => ret v
  | None => raise (KeyError k)
  end.

Definition set_item (d : nat) (k : string) (v : hval) : M unit :=
  entries <- load_dict d ;; store d (ODict (dict_set k v entries)).

(** [d.get(k) == s] *)
Definition get_is (d : nat) (k : string) (s : string) : M bool :=
  v <- get d k ;;
  ret (match v with Some (HStr s') => String.eqb s' s | _ => false end).

(** [v in valid_types]: a reference is to a dict or a list, which have
    no hash. *)
Definition in_valid_types (v : hval) : M bool :=
  match v with
  | HRef _ => raise (TypeError "unhashable type")
  | HStr s => ret (existsb (String.eqb s) valid_types)
  | _ => ret false
  end.

(** The values of a comprehension, computed in order. *)
Fixpoint comp (f : hval -> M hval) (d : list (string * hval))
    : M (list (string * hval)) :=
  match d with
  | [] => ret []
  | (k, v) :: d' =>
      v' <- f v ;;
      d'' <- comp f d' ;;
      ret ((k, v') :: d'')
  end.

Definition ensure_type (result : nat) : M unit :=
  has_type <- contains result "type" ;;
  if negb has_type then
    has_props <- contains result "properties" ;;
    has_ap <- (if has_props then ret true
               else contains result "additionalProperties") ;;
    if has_ap then set_item result "type" (HStr "object")
    else
      has_items <- contains result "items" ;;
      if has_items then set_item result "type" (HStr "array")
      else
        has_enum <- contains result "enum" ;;
        if has_enum then ret tt
        else set_item result "type" (HStr "string")
  else
    ty <- item result "type" ;;
    valid <- in_valid_types ty ;;
    if negb valid then set_item result "type" (HStr "string")
    else ret tt.

(** [if k not in d: d[k] = <display>], the display being a new, empty
    object [o]. *)
Definition set_default (d : nat) (k : string) (o : obj) : M unit :=
  present <- contains d k ;;
  if negb present then
    empty <- alloc o ;;
    set_item d k (HRef empty)
  else ret tt.

Definition complete_object (rec : hval -> M hval) (result : nat) : M unit :=
  is_object <- get_is result "type" "object" ;;
  if is_object then
    set_default result "properties" (ODict []) ;;
    set_default result "required" (OList []) ;;
    props <- get result "properties" ;;
    props_is_dict <- is_dict (match props with Some v => v | None => HNone end) ;;
    if props_is_dict then
      props <- item result "properties" ;;
      match props with
      | HRef p =>
          entries <- load_dict p ;;
          entries' <- comp rec entries ;;
          fresh <- alloc (ODict entries') ;;
          set_item result "properties" (HRef fresh)
      | _ => raise (TypeError "not a dict")
      end
    else ret tt
  else ret tt.

Definition normalize_items (rec : hval -> M hval) (result : nat) : M unit :=
  is_array <- get_is result "type" "array" ;;
  has_items <- (if is_array then contains result "items" else ret false) ;;
  if has_items then
    items <- item result "items" ;;
    items' <- rec items ;;
    set_item result "items" items'
  else ret tt.

Definition normalize_additional (rec : hval -> M hval) (result : nat)
    : M unit :=
  ap <- get result "additionalProperties" ;;
  ap_is_dict <- is_dict (match ap with Some v => v | None => HNone end) ;;
  if ap_is_dict then
    ap <- item result "additionalProperties" ;;
    ap' <- rec ap ;;
    set_item result "additionalProperties" ap'
  else ret tt.

Definition normalize_body (rec : hval -> M hval) (schema : hval) : M hval :=
  schema_is_dict <- is_dict schema ;;
  if negb schema_is_dict then ret schema
  else
    match schema with
    | HRef src =>
        result <- copy_dict src ;;
        ensure_type result ;;
        complete_object rec result ;;
        normalize_items rec result ;;
        normalize_additional rec result ;;
        ret (HRef result)
    | _ => ret schema
    end.

(** [fuel] bounds the depth of the recursion; on a store with a cycle
    through [properties], [items] or [additionalProperties] no amount is
    enough, as no recursion depth is for Python. *)
Fixpoint normalize_fuel (fuel : nat) (schema : hval) : M hval :=
  match fuel with
  | 0 => raise FuelExhausted
  | S fuel' => normalize_body (normalize_fuel fuel') schema
  end.

(** Every object of [h] is in [h'], as it was. *)
Definition preserved (h h' : heap) : Prop :=
  forall (l : nat) (o : obj), h !! l = Some o -> h' !! l = Some o.

(** The same, but for the object at [l]. *)
Definition preserved_but (l : nat) (h h' : heap) : Prop :=
  forall (i : nat) (o : obj), i <> l -> h !! i = Some o -> h' !! i = Some o.

(** A computation that changes no object of the store it starts from, and
    one that changes at most the object at [l]. *)
Definition frame {A : Type} (m : M A) : Prop :=
  forall h, preserved h (m h).2.

Definition frame_but {A : Type} (l : nat) (m : M A) : Prop :=
  forall h, preserved_but l h (m h).2.

(** [repr_in P h v hv]: in the store [h], the heap value [hv] stands for
    the pure value [v], and the objects that make it up are at addresses
    that satisfy [P]. *)
Fixpoint repr_in (P : nat -> Prop) (h : heap) (v : value) (hv : hval) : Prop :=
  match v with
  | VNone => hv = HNone
  | VBool b => hv = HBool b
  | VInt n => hv = HInt n
  | VFloat bits => hv = HFloat bits
  | VStr s => hv = HStr s
  | VList items =>
      exists l hitems,
        hv = HRef l /\ P l /\ h !! l = Some (OList hitems) /\
        (fix all (vs : list value) (hvs : list hval) : Prop :=
           match vs, hvs with
           | [], [] => True
           | v' :: vs', hv' :: hvs' => repr_in P h v' hv' /\ all vs' hvs'
           | _, _ => False
           end) items hitems
  | VDict entries =>
      exists l hentries,
        hv = HRef l /\ P l /\ h !! l = Some (ODict hentries) /\
        (fix all (es : list (string * value)) (hes : list (string * hval))
             : Prop :=
           match es, hes with
           | [], [] => True
           | e :: es', he :: hes' =>
               e.1 = he.1 /\ repr_in P h e.2 he.2 /\ all es' hes'
           | _, _ => False
           end) entries hentries
  end.

(** The pure value that [hv] stands for in the store [h]. *)
Definition repr (h : heap) (v : value) (hv : hval) : Prop :=
  repr_in (fun _ => True) h v hv.

(** The entries of a dict object and those of the dict they stand for. *)
Definition entries_rel (P : nat -> Prop) (h : heap)
    (d : list (string * value)) (hd : list (string * hval)) : Prop :=
  Forall2 (fun e he => e.1 = he.1 /\ repr_in P h e.2 he.2) d hd.

(** The object at [l] is a dict that stands for [d]. *)
Definition dict_at (P : nat -> Prop) (h : heap) (l : nat)
    (d : list (string * value)) : Prop :=
  exists hd, h !! l = Some (ODict hd) /\ entries_rel P h d hd.

(** A step of the store model, run on the dict object at [l] that stands
    for [d], does what the pure step returns: on [Ok d'] it leaves at [l]
    an object that stands for [d'], and it raises what the pure step
    raises. *)
Definition step_refines (P : nat -> Prop) (l : nat)
    (pure : res (list (string * value))) (hm : M unit) (h : heap) : Prop :=
  match pure with
  | Ok d' => exists h', hm h = (Ok tt, h') /\ dict_at P h' l d'
  | Err e => exists h', hm h = (Err e, h')
  end.

(** [hrec] does on the store what [rec] does on values: from a heap value
    that stands for [v] it returns one that stands for [rec v], made of
    objects of [v] and of new ones, and it raises when [rec] does. *)
Definition refines (rec : value -> res value) (hrec : hval -> M hval) : Prop :=
  forall (P : nat -> Prop) (h : heap) (v : value) (hv : hval),
    repr_in P h v hv ->
    match rec v with
    | Ok v' =>
        exists hv' h',
          hrec hv h = (Ok hv', h') /\
          repr_in (fun l => P l \/ length h <= l) h' v' hv'
    | Err e => exists h', hrec hv h = (Err e, h')
    end.

End Heap.

(** A store with the schema [{"properties": {"a": {"items": {}}},
    "required": ["a"]}] at address 0. *)
Definition sample_store : Heap.heap :=
  [Heap.ODict [("properties", Heap.HRef 1); ("required", Heap.HRef 2)];
   Heap.ODict [("a", Heap.HRef 3)];
   Heap.OList [Heap.HStr "a"];
   Heap.ODict [("items", Heap.HRef 4)];
   Heap.ODict []].

Definition sample_schema : value :=
  VDict [("properties", VDict [("a", VDict [("items", VDict [])])]);
         ("required", VList [VStr "a"])].

(** A store with a schema that has an [enum], the list at address 1. *)
Definition enum_store : Heap.heap :=
  [Heap.ODict [("enum", Heap.HRef 1)];
   Heap.OList [Heap.HStr "a"; Heap.HStr "b"]].

(** ** Auxiliary notions for the further properties of the store model *)

(** The object at [l] is a dict that has, under every key that is not one
    of the normalizer's, the heap value that [entries] has: the same
    number or string, or the reference to the same object. *)
Definition shares_entries (entries : list (string * Heap.hval)) (l : nat)
    (h : Heap.heap) : Prop :=
  exists entries',
    h !! l = Some (Heap.ODict entries') /\
    forall k, ~ In k normalizer_keys -> dict_get k entries' = dict_get k entries.

(** A computation that keeps a property of the store. *)
Definition keeps {A : Type} (I : Heap.heap -> Prop) (m : Heap.M A) : Prop :=
  forall h, I h -> I (m h).2.

(** * Properties *)

Local Arguments Ascii.eqb : simpl never.

(** ** Strings *)

Lemma str_app_assoc (a b c : string) : (a +:+ b) +:+ c = a +:+ (b +:+ c).
Proof. induction a as [|x a IH]; simpl; [reflexivity | now rewrite IH]. Qed.

Lemma snoc_app (acc : string) (c : ascii) (t : string) :
  Re.snoc acc c +:+ t = acc +:+ String c t.
Proof. unfold Re.snoc. now rewrite str_app_assoc. Qed.

Lemma str_contains_app_r (sub p q : string) :
  str_contains sub (p +:+ q) = false -> str_contains sub q = false.
Proof.
  induction p as [|c p IH]; simpl; [easy |].
  intros H. apply orb_false_iff in H as [_ H]. now apply IH.
Qed.

Lemma ends_with_char_app_r (c : ascii) (p q : string) :
  q <> "" -> ends_with_char c (p +:+ q) = ends_with_char c q.
Proof.
  intros Hq. induction p as [|x p IH]; [reflexivity |].
  simpl. rewrite IH. destruct (p +:+ q) eqn:E; [| reflexivity].
  destruct p; simpl in E; [congruence | discriminate].
Qed.

(** ** The matcher *)

Section PlusLoop.
Context {R : Type} (k : string -> nat -> string -> option R).

(** A lazy repetition stops at the first length at which the rest of the
    pattern matches. *)
Lemma plus_loop_lazy_first (taken : string) :
  forall (acc : string) (pos : nat) (rest : string) (r : R),
    taken <> "" ->
    has_char newline taken = false ->
    (forall p q, taken = p +:+ q -> p <> "" -> q <> "" ->
                 k (acc +:+ p) (pos + String.length p) (q +:+ rest) = None) ->
    k (acc +:+ taken) (pos + String.length taken) rest = Some r ->
    Re.plus_loop false Re.Dot k acc pos (taken +:+ rest) = Some r.
Proof.
  induction taken as [|c t IH]; intros acc pos rest r Hne Hnl Hearly Hk;
    [congruence |].
  simpl in Hnl. apply orb_false_iff in Hnl as [Hc Hnl].
  simpl. rewrite Hc. simpl.
  destruct t as [|c' t'].
  - simpl in Hk. unfold Re.snoc. replace (S pos) with (pos + 1) by lia.
    simpl. now rewrite Hk.
  - rewrite <- (snoc_app acc c) in Hk.
    pose proof (Hearly (String c "") (String c' t') eq_refl) as H1.
    simpl in H1. replace (pos + 1) with (S pos) in H1 by lia.
    fold (Re.snoc acc c) in H1.
    change (String c' (t' +:+ rest)) with (String c' t' +:+ rest) in H1.
    rewrite H1 by congruence.
    apply IH; [congruence | exact Hnl | | ].
    + intros p q Hpq Hp Hq. rewrite snoc_app.
      replace (S pos + String.length p)
        with (pos + String.length (String c p)) by (simpl; lia).
      apply Hearly; [simpl; now rewrite Hpq | congruence | exact Hq].
    + replace (S pos + String.length (String c' t'))
        with (pos + String.length (String c (String c' t'))) by (simpl; lia).
      exact Hk.
Qed.

(** A greedy repetition takes everything when the rest of the pattern
    matches after that. *)
Lemma plus_loop_greedy_all (taken : string) :
  forall (acc : string) (pos : nat) (r : R),
    taken <> "" ->
    has_char newline taken = false ->
    k (acc +:+ taken) (pos + String.length taken) "" = Some r ->
    Re.plus_loop true Re.Dot k acc pos taken = Some r.
Proof.
  induction taken as [|c t IH]; intros acc pos r Hne Hnl Hk; [congruence |].
  simpl in Hnl. apply orb_false_iff in Hnl as [Hc Hnl].
  simpl. rewrite Hc. simpl.
  destruct t as [|c' t'].
  - simpl. unfold Re.snoc. replace (S pos) with (pos + 1) by lia. exact Hk.
  - rewrite (IH (Re.snoc acc c) (S pos) r); [reflexivity | congruence | exact Hnl |].
    rewrite snoc_app.
    replace (S pos + String.length (String c' t'))
      with (pos + String.length (String c (String c' t'))) by (simpl; lia).
    exact Hk.
Qed.

(** Whatever a repetition returns, it took at least one character, none
    of them a newline, and the rest of the pattern produced the result. *)
Lemma plus_loop_inv (greedy : bool) (s : string) :
  forall (acc : string) (pos : nat) (r : R),
    Re.plus_loop greedy Re.Dot k acc pos s = Some r ->
    exists taken rest,
      s = taken +:+ rest /\ taken <> "" /\ has_char newline taken = false /\
      k (acc +:+ taken) (pos + String.length taken) rest = Some r.
Proof.
  induction s as [|c s IH]; intros acc pos r H; simpl in H; [discriminate |].
  destruct (Ascii.eqb c newline) eqn:Hc; simpl in H; [discriminate |].
  assert (Hone : k (Re.snoc acc c) (S pos) s = Some r ->
                 exists taken rest,
                   String c s = taken +:+ rest /\ taken <> "" /\
                   has_char newline taken = false /\
                   k (acc +:+ taken) (pos + String.length taken) rest = Some r).
  { intros Hk. exists (String c ""), s. simpl.
    rewrite Hc. replace (pos + 1) with (S pos) by lia.
    repeat split; [congruence | exact Hk]. }
  assert (Hmore : Re.plus_loop greedy Re.Dot k (Re.snoc acc c) (S pos) s = Some r ->
                 exists taken rest,
                   String c s = taken +:+ rest /\ taken <> "" /\
                   has_char newline taken = false /\
                   k (acc +:+ taken) (pos + String.length taken) rest = Some r).
  { intros Hl. apply IH in Hl as (t & rest & -> & Ht & Hnl & Hk).
    exists (String c t), rest. simpl. rewrite Hc, Hnl.
    rewrite snoc_app in Hk.
    replace (pos + S (String.length t)) with (S pos + String.length t) by lia.
    repeat split; [congruence | exact Hk]. }
  destruct greedy.
  - destruct (Re.plus_loop true Re.Dot k (Re.snoc acc c) (S pos) s) eqn:E.
    + inversion H; subst. now apply Hmore.
    + now apply Hone.
  - destruct (k (Re.snoc acc c) (S pos) s) eqn:E.
    + inversion H; subst. now apply Hone.
    + now apply Hmore.
Qed.
End PlusLoop.

(** ** The call name codec *)

Lemma decode_unfold (rest : string) :
  Re.match_ _mcp_pat ("mcp::" +:+ rest) =
  Re.plus_loop false Re.Dot
    (fun cap pos' s' => Re.exec after_server pos' s' ([] ++ [cap])) "" 5 rest.
Proof. reflexivity. Qed.

(** The delimiter cannot be read inside or across the end of a server id
    that has no ["::"] and does not end with a colon. *)
Lemma after_server_early (q tail : string) (pos : nat) (groups : list string) :
  q <> "" ->
  str_contains "::" q = false ->
  ends_with_char colon q = false ->
  Re.exec after_server pos (q +:+ "::" +:+ tail) groups = None.
Proof.
  intros Hq Hc He. destruct q as [|a q]; [congruence |].
  cbn [after_server Re.lits app String.append Re.exec].
  destruct (Ascii.eqb_spec ":"%char a) as [<- | Hne]; [| reflexivity].
  destruct q as [|b q].
  - simpl in He. unfold colon in He. now rewrite Ascii.eqb_refl in He.
  - cbn [String.append].
    destruct (Ascii.eqb_spec ":"%char b) as [<- | Hne']; [| reflexivity].
    cbn in Hc. destruct q; discriminate.
Qed.

Lemma after_server_match (name : string) (pos : nat) (groups : list string) :
  name <> "" ->
  has_char newline name = false ->
  Re.exec after_server pos ("::" +:+ name) groups = Some (groups ++ [name]).
Proof.
  intros Hne Hnl.
  cbn [after_server Re.lits app String.append Re.exec].
  rewrite !Ascii.eqb_refl.
  apply plus_loop_greedy_all; [exact Hne | exact Hnl | reflexivity].
Qed.

(** On an encoded name the pattern matches, with the two parts as its
    groups; the tool name may contain ["::"] here. *)
Lemma match_encoded (server_id name : string) :
  server_id <> "" -> name <> "" ->
  has_char newline server_id = false ->
  has_char newline name = false ->
  str_contains "::" server_id = false ->
  ends_with_char colon server_id = false ->
  Re.match_ _mcp_pat (encode_mcp server_id name) = Some [server_id; name].
Proof.
  intros Hs Hn Hnls Hnln Hcs Hes.
  unfold encode_mcp. rewrite decode_unfold.
  apply (plus_loop_lazy_first _ server_id "" 5 ("::" +:+ name)); auto.
  - intros p q -> Hp Hq. apply after_server_early; [exact Hq | |].
    + now apply str_contains_app_r in Hcs.
    + now rewrite ends_with_char_app_r in Hes.
  - now rewrite after_server_match.
Qed.

(** [C1], as amended.  For every server id and tool name that are not
    empty, contain no newline and no ["::"], the server id not ending with
    a colon, decoding the encoded name ["mcp::{server_id}::{name}"] gives
    the pair back. *)
Theorem decode_encode_roundtrip (server_id name : string) :
  server_id <> "" -> name <> "" ->
  has_char newline server_id = false ->
  has_char newline name = false ->
  str_contains "::" server_id = false ->
  str_contains "::" name = false ->
  ends_with_char colon server_id = false ->
  decode_maybe_mcp (encode_mcp server_id name) = (Some server_id, name).
Proof.
  intros Hs Hn Hnls Hnln Hcs _ Hes. unfold decode_maybe_mcp.
  now rewrite (match_encoded server_id name Hs Hn Hnls Hnln Hcs Hes).
Qed.

Lemma decode_encode_roundtrip_witness :
  decode_maybe_mcp (encode_mcp "srv1" "lookup") = (Some "srv1", "lookup").
Proof.
  apply (decode_encode_roundtrip "srv1" "lookup");
    first [reflexivity | discriminate].
Defined.

(** [C1] as the specification states it does not hold: an empty server id
    contains no ["::"], and its encoding does not match the pattern, whose
    first group takes at least one character. *)
Lemma decode_encode_roundtrip_fails :
  ~ (forall server_id name : string,
       str_contains "::" server_id = false ->
       str_contains "::" name = false ->
       decode_maybe_mcp (encode_mcp server_id name) = (Some server_id, name)).
Proof.
  intros H. specialize (H "" "lookup" eq_refl eq_refl).
  vm_compute in H. discriminate.
Qed.

(** Each of the added conditions is needed. *)
Example decode_encode_empty_server :
  decode_maybe_mcp (encode_mcp "" "lookup") = (None, "mcp::::lookup").
Proof. reflexivity. Qed.

Example decode_encode_empty_name :
  decode_maybe_mcp (encode_mcp "srv1" "") = (None, "mcp::srv1::").
Proof. reflexivity. Qed.

Example decode_encode_server_ends_with_colon :
  decode_maybe_mcp (encode_mcp "a:" "b") = (Some "a", ":b").
Proof. reflexivity. Qed.

Example decode_encode_newline_in_server :
  decode_maybe_mcp (encode_mcp (String "a" (String newline "b")) "x") =
  (None, encode_mcp (String "a" (String newline "b")) "x").
Proof. reflexivity. Qed.

Example decode_encode_name_ends_with_newline :
  decode_maybe_mcp (encode_mcp "a" (String "b" (String newline ""))) =
  (Some "a", "b").
Proof. reflexivity. Qed.

(** The tool name may contain the delimiter: the first one ends the server
    id. *)
Example decode_encode_delimiter_in_name :
  decode_maybe_mcp (encode_mcp "a" "b::x") = (Some "a", "b::x").
Proof. reflexivity. Qed.

(** And so a server id that contains it does not come back. *)
Example decode_encode_delimiter_in_server :
  decode_maybe_mcp (encode_mcp "a::b" "x") = (Some "a", "b::x").
Proof. reflexivity. Qed.

Example decode_plain_name : decode_maybe_mcp "plain_name" = (None, "plain_name").
Proof. reflexivity. Qed.

(** What [decode_maybe_mcp] decodes is an encoding: the name is
    ["mcp::{server}::{tool}"], with at most a newline after it, and neither
    part is empty or has a newline. *)
Lemma decode_some_inv (name server tool : string) :
  decode_maybe_mcp name = (Some server, tool) ->
  server <> "" /\ tool <> "" /\
  has_char newline server = false /\ has_char newline tool = false /\
  exists eol, Re.at_eol eol = true /\ name = encode_mcp server tool +:+ eol.
Proof.
  unfold decode_maybe_mcp, Re.match_, _mcp_pat.
  cbn [app Re.lits Re.exec Nat.eqb].
  destruct name as [|c1 name]; [discriminate |].
  destruct (Ascii.eqb_spec "m" c1) as [<- |]; [| discriminate].
  destruct name as [|c2 name]; [discriminate |].
  destruct (Ascii.eqb_spec "c" c2) as [<- |]; [| discriminate].
  destruct name as [|c3 name]; [discriminate |].
  destruct (Ascii.eqb_spec "p" c3) as [<- |]; [| discriminate].
  destruct name as [|c4 name]; [discriminate |].
  destruct (Ascii.eqb_spec ":" c4) as [<- |]; [| discriminate].
  destruct name as [|c5 name]; [discriminate |].
  destruct (Ascii.eqb_spec ":" c5) as [<- |]; [| discriminate].
  destruct (Re.plus_loop _ _ _ _ _ _) as [gs|] eqn:E; [| discriminate].
  apply plus_loop_inv in E as (t1 & r1 & -> & Ht1 & Hn1 & E).
  cbn [app Re.exec] in E.
  destruct r1 as [|d1 r1]; [discriminate |].
  destruct (Ascii.eqb_spec ":" d1) as [<- |]; [| discriminate].
  destruct r1 as [|d2 r1]; [discriminate |].
  destruct (Ascii.eqb_spec ":" d2) as [<- |]; [| discriminate].
  apply plus_loop_inv in E as (t2 & r2 & -> & Ht2 & Hn2 & E).
  cbn [app Re.exec String.append] in E.
  destruct (Re.at_eol r2) eqn:Eeol; [| discriminate].
  injection E as <-. intros [= <- <-].
  repeat split; try assumption.
  exists r2. split; [exact Eeol |].
  unfold encode_mcp. cbn [String.append].
  now rewrite !str_app_assoc.
Qed.

(** A server id that [decode_maybe_mcp] returns is never empty, so the test
    [if server] of [normalize_tool_call] is the test [server is not None]. *)
Lemma decode_server_nonempty (name server tool : string) :
  decode_maybe_mcp name = (Some server, tool) -> server <> "".
Proof. intros H. now apply decode_some_inv in H. Qed.

(** The conditions on emptiness and newlines are all needed for the round
    trip. *)
Lemma decode_encode_only_if (server_id name : string) :
  decode_maybe_mcp (encode_mcp server_id name) = (Some server_id, name) ->
  server_id <> "" /\ name <> "" /\
  has_char newline server_id = false /\ has_char newline name = false.
Proof.
  intros H. apply decode_some_inv in H as (H1 & H2 & H3 & H4 & _). auto.
Qed.

(** ** Dictionaries *)

Section DictFacts.
Context {V : Type}.
Implicit Types (k : string) (v : V) (d : list (string * V)).

Lemma dict_get_set_eq k v d : dict_get k (dict_set k v d) = Some v.
Proof.
  induction d as [|[k' v'] d IH]; simpl.
  - now rewrite String.eqb_refl.
  - destruct (String.eqb k k') eqn:E; simpl; rewrite E; [reflexivity | exact IH].
Qed.

Lemma dict_get_set_ne k k' v d :
  k' <> k -> dict_get k' (dict_set k v d) = dict_get k' d.
Proof.
  intros Hne. induction d as [|[k0 v0] d IH]; simpl.
  - apply String.eqb_neq in Hne. now rewrite Hne.
  - destruct (String.eqb k k0) eqn:E; simpl; [| now rewrite IH].
    apply String.eqb_eq in E as <-.
    apply String.eqb_neq in Hne. now rewrite Hne.
Qed.

Lemma dict_in_set_eq k v d : dict_in k (dict_set k v d) = true.
Proof. unfold dict_in. now rewrite dict_get_set_eq. Qed.

Lemma dict_in_set_ne k k' v d :
  k' <> k -> dict_in k' (dict_set k v d) = dict_in k' d.
Proof. intros H. unfold dict_in. now rewrite dict_get_set_ne. Qed.

(** Assigning the value a key already has changes nothing. *)
Lemma dict_set_same k v d : dict_get k d = Some v -> dict_set k v d = d.
Proof.
  induction d as [|[k' v'] d IH]; simpl; [discriminate |].
  destruct (String.eqb k k') eqn:E.
  - now intros [= ->].
  - intros H. now rewrite IH.
Qed.

Lemma dict_in_true k d : dict_in k d = true -> exists v, dict_get k d = Some v.
Proof. unfold dict_in. destruct (dict_get k d); [eauto | discriminate]. Qed.

Lemma dict_in_false k d : dict_in k d = false -> dict_get k d = None.
Proof. unfold dict_in. destruct (dict_get k d); [discriminate | reflexivity]. Qed.

Lemma dict_get_In k v d : dict_get k d = Some v -> In (k, v) d.
Proof.
  induction d as [|[k' v'] d IH]; simpl; [discriminate |].
  destruct (String.eqb_spec k k') as [<- | Hne].
  - intros [= ->]. now left.
  - intros H. right. now apply IH.
Qed.

Lemma keys_dict_set k v d :
  keys (dict_set k v d) = if dict_in k d then keys d else keys d ++ [k].
Proof.
  unfold dict_in. induction d as [|[k' v'] d IH]; simpl; [reflexivity |].
  destruct (String.eqb k k') eqn:E; simpl; [reflexivity |].
  rewrite IH. now destruct (dict_get k d).
Qed.

Lemma dict_comp_ext {W : Type} (f g : V -> res W) d :
  (forall k v, In (k, v) d -> f v = g v) -> dict_comp f d = dict_comp g d.
Proof.
  induction d as [|[k v] d IH]; intros H; simpl; [reflexivity |].
  rewrite (H k v) by now left.
  destruct (g v); simpl; [| reflexivity].
  rewrite IH; [reflexivity |]. intros k' v' Hin. apply (H k'). now right.
Qed.
End DictFacts.

Create Rewrite HintDb dict.
#[local] Hint Rewrite @dict_get_set_eq @dict_in_set_eq : dict.
#[local] Hint Rewrite @dict_get_set_ne @dict_in_set_ne using discriminate : dict.

(** ** Depth *)

Lemma depth_In (k : string) (v : value) (d : list (string * value)) :
  In (k, v) d -> depth v < depth (VDict d).
Proof.
  simpl. induction d as [|[k' v'] d IH]; simpl; [easy |].
  intros [[= -> ->] | Hin]; [lia |]. specialize (IH Hin). lia.
Qed.

Lemma depth_get (k : string) (v : value) (d : list (string * value)) :
  dict_get k d = Some v -> depth v < depth (VDict d).
Proof. intros H. apply (depth_In k). now apply dict_get_In. Qed.

(** ** The steps of the normalizer: what they leave alone *)

Lemma ensure_type_frame (d d' : list (string * value)) (k : string) :
  ensure_type d = Ok d' -> k <> "type" -> dict_get k d' = dict_get k d.
Proof.
  unfold ensure_type. intros H Hk.
  destruct (negb (dict_in "type" d)).
  - destruct (dict_in "properties" d || dict_in "additionalProperties" d);
      [injection H as <-; now rewrite dict_get_set_ne |].
    destruct (dict_in "items" d);
      [injection H as <-; now rewrite dict_get_set_ne |].
    destruct (dict_in "enum" d); injection H as <-;
      [reflexivity | now rewrite dict_get_set_ne].
  - destruct (dict_item "type" d) as [ty|]; simpl in H; [| discriminate].
    destruct (in_valid_types ty) as [valid|]; simpl in H; [| discriminate].
    destruct (negb valid); injection H as <-;
      [now rewrite dict_get_set_ne | reflexivity].
Qed.

Lemma with_defaults_frame (d : list (string * value)) (k : string) :
  k <> "properties" -> k <> "required" ->
  dict_get k (with_defaults d) = dict_get k d.
Proof.
  intros H1 H2. unfold with_defaults.
  destruct (negb (dict_in "properties" d));
    destruct (negb (dict_in "required" _));
    now rewrite ?dict_get_set_ne by assumption.
Qed.

Lemma with_defaults_properties (d : list (string * value)) :
  dict_get "properties" (with_defaults d) =
  match dict_get "properties" d with
  | Some v => Some v
  | None => Some (VDict [])
  end.
Proof.
  unfold with_defaults.
  destruct (dict_get "properties" d) as [v|] eqn:E.
  - assert (Hin : dict_in "properties" d = true) by (unfold dict_in; now rewrite E).
    rewrite Hin. simpl.
    destruct (negb (dict_in "required" d)); now autorewrite with dict.
  - assert (Hin : dict_in "properties" d = false) by (unfold dict_in; now rewrite E).
    rewrite Hin. simpl.
    destruct (negb (dict_in "required" _)); now autorewrite with dict.
Qed.

Lemma with_defaults_required (d : list (string * value)) :
  dict_in "required" (with_defaults d) = true.
Proof.
  unfold with_defaults.
  destruct (negb (dict_in "required" _)) eqn:E;
    [now autorewrite with dict | now apply negb_false_iff in E].
Qed.

Lemma complete_object_unfold (rec : value -> res value)
    (d : list (string * value)) :
  complete_object rec d =
  if get_is "type" d "object" then
    match dict_get "properties" (with_defaults d) with
    | Some (VDict props) =>
        props' <- dict_comp rec props ;;
        Ok (dict_set "properties" (VDict props') (with_defaults d))
    | _ => Ok (with_defaults d)
    end
  else Ok d.
Proof. reflexivity. Qed.

Lemma complete_object_frame (rec : value -> res value)
    (d d' : list (string * value)) (k : string) :
  complete_object rec d = Ok d' ->
  k <> "properties" -> k <> "required" -> dict_get k d' = dict_get k d.
Proof.
  rewrite complete_object_unfold. intros H H1 H2.
  destruct (get_is "type" d "object"); [| now injection H as <-].
  destruct (dict_get "properties" (with_defaults d)) as [[]|];
    try (injection H as <-; now apply with_defaults_frame).
  destruct (dict_comp rec entries) as [props'|]; simpl in H; [| discriminate].
  injection H as <-. rewrite dict_get_set_ne by assumption.
  now apply with_defaults_frame.
Qed.

Lemma normalize_items_frame (rec : value -> res value)
    (d d' : list (string * value)) (k : string) :
  normalize_items rec d = Ok d' -> k <> "items" -> dict_get k d' = dict_get k d.
Proof.
  unfold normalize_items. intros H Hk.
  destruct (get_is "type" d "array" && dict_in "items" d);
    [| now injection H as <-].
  destruct (dict_item "items" d) as [items|]; simpl in H; [| discriminate].
  destruct (rec items) as [items'|]; simpl in H; [| discriminate].
  injection H as <-. now rewrite dict_get_set_ne.
Qed.

Lemma normalize_additional_frame (rec : value -> res value)
    (d d' : list (string * value)) (k : string) :
  normalize_additional rec d = Ok d' ->
  k <> "additionalProperties" -> dict_get k d' = dict_get k d.
Proof.
  unfold normalize_additional. intros H Hk.
  destruct (dict_get "additionalProperties" d) as [[]|];
    try (now injection H as <-).
  destruct (rec (VDict entries)) as [ap'|]; simpl in H; [| discriminate].
  injection H as <-. now rewrite dict_get_set_ne.
Qed.

(** ** The recursion of the normalizer *)

Lemma complete_object_ext (rec1 rec2 : value -> res value)
    (d : list (string * value)) :
  (forall props k v, dict_get "properties" d = Some (VDict props) ->
                     In (k, v) props -> rec1 v = rec2 v) ->
  complete_object rec1 d = complete_object rec2 d.
Proof.
  intros H. rewrite !complete_object_unfold.
  destruct (get_is "type" d "object"); [| reflexivity].
  rewrite with_defaults_properties.
  destruct (dict_get "properties" d) as [[]|] eqn:E; try reflexivity.
  now rewrite (dict_comp_ext rec1 rec2 entries (fun k v => H entries k v eq_refl)).
Qed.

Lemma normalize_items_ext (rec1 rec2 : value -> res value)
    (d : list (string * value)) :
  (forall v, dict_get "items" d = Some v -> rec1 v = rec2 v) ->
  normalize_items rec1 d = normalize_items rec2 d.
Proof.
  intros H. unfold normalize_items, dict_item.
  destruct (get_is "type" d "array" && dict_in "items" d); [| reflexivity].
  destruct (dict_get "items" d) as [v|]; simpl; [| reflexivity].
  now rewrite (H v eq_refl).
Qed.

Lemma normalize_additional_ext (rec1 rec2 : value -> res value)
    (d : list (string * value)) :
  (forall v, dict_get "additionalProperties" d = Some v -> rec1 v = rec2 v) ->
  normalize_additional rec1 d = normalize_additional rec2 d.
Proof.
  intros H. unfold normalize_additional.
  destruct (dict_get "additionalProperties" d) as [[]|] eqn:E; try reflexivity.
  now rewrite (H _ eq_refl).
Qed.

(** The body calls [rec] on values nested in the schema only. *)
Lemma normalize_body_ext (rec1 rec2 : value -> res value) (schema : value) :
  (forall v, depth v < depth schema -> rec1 v = rec2 v) ->
  normalize_body rec1 schema = normalize_body rec2 schema.
Proof.
  intros H. destruct schema as [| | | | | |e]; try reflexivity.
  unfold normalize_body.
  destruct (ensure_type e) as [r1|] eqn:E1; simpl; [| reflexivity].
  rewrite (complete_object_ext rec1 rec2 r1).
  2:{ intros props k v Hp Hin. apply H.
      rewrite (ensure_type_frame e r1) in Hp by (assumption || discriminate).
      apply depth_get in Hp. apply depth_In in Hin. lia. }
  destruct (complete_object rec2 r1) as [r2|] eqn:E2; simpl; [| reflexivity].
  rewrite (normalize_items_ext rec1 rec2 r2).
  2:{ intros v Hv. apply H.
      rewrite (complete_object_frame rec2 r1 r2) in Hv
        by (assumption || discriminate).
      rewrite (ensure_type_frame e r1) in Hv by (assumption || discriminate).
      now apply depth_get in Hv. }
  destruct (normalize_items rec2 r2) as [r3|] eqn:E3; simpl; [| reflexivity].
  rewrite (normalize_additional_ext rec1 rec2 r3); [reflexivity |].
  intros v Hv. apply H.
  rewrite (normalize_items_frame rec2 r2 r3) in Hv
    by (assumption || discriminate).
  rewrite (complete_object_frame rec2 r1 r2) in Hv
    by (assumption || discriminate).
  rewrite (ensure_type_frame e r1) in Hv by (assumption || discriminate).
  now apply depth_get in Hv.
Qed.

Lemma normalize_fuel_enough (n : nat) :
  forall (m : nat) (v : value),
    depth v < n -> depth v < m -> normalize_fuel n v = normalize_fuel m v.
Proof.
  induction n as [|n IH]; intros m v Hn Hm; [lia |].
  destruct m as [|m]; [lia |]. simpl.
  apply normalize_body_ext. intros u Hu. apply IH; lia.
Qed.

(** [_normalize_schema] is the function that calls itself in the body. *)
Lemma normalize_unfold (schema : value) :
  _normalize_schema schema = normalize_body _normalize_schema schema.
Proof.
  unfold _normalize_schema at 1. simpl.
  apply normalize_body_ext. intros u Hu.
  unfold _normalize_schema. apply normalize_fuel_enough; lia.
Qed.

(** The examples of section 8 of the specification. *)
Example normalize_empty :
  _normalize_schema (VDict []) = Ok (VDict [("type", VStr "string")]).
Proof. reflexivity. Qed.

Example normalize_object :
  _normalize_schema (VDict [("type", VStr "object")]) =
  Ok (VDict [("type", VStr "object"); ("properties", VDict []);
             ("required", VList [])]).
Proof. reflexivity. Qed.

Example normalize_invalid_type :
  _normalize_schema (VDict [("type", VStr "file")]) =
  Ok (VDict [("type", VStr "string")]).
Proof. reflexivity. Qed.

Example normalize_not_a_dict : _normalize_schema (VInt 3) = Ok (VInt 3).
Proof. reflexivity. Qed.

(** A [type] that is a list of type names is not coerced: hashing it
    raises. *)
Example normalize_type_list :
  _normalize_schema (VDict [("type", VList [VStr "string"; VStr "null"])]) =
  Err (TypeError "unhashable type").
Proof. reflexivity. Qed.

(** ** Idempotence of the normalizer *)

Lemma get_is_frame (k s : string) (d d' : list (string * value)) :
  dict_get k d' = dict_get k d -> get_is k d' s = get_is k d s.
Proof. unfold get_is. now intros ->. Qed.

Lemma dict_in_frame {V : Type} (k : string) (d d' : list (string * V)) :
  dict_get k d' = dict_get k d -> dict_in k d' = dict_in k d.
Proof. unfold dict_in. now intros ->. Qed.

Lemma in_valid_types_str (ty : value) :
  in_valid_types ty = Ok true ->
  exists t, ty = VStr t /\ existsb (String.eqb t) valid_types = true.
Proof.
  unfold in_valid_types. destruct ty; simpl; try discriminate.
  intros [= H]. eauto.
Qed.

Lemma ensure_type_typed (d d' : list (string * value)) :
  ensure_type d = Ok d' -> typed d'.
Proof.
  unfold ensure_type, typed. intros H.
  destruct (dict_in "type" d) eqn:Et; simpl in H.
  - unfold dict_item in H. apply dict_in_true in Et as [ty Ety].
    rewrite Ety in H. simpl in H.
    destruct (in_valid_types ty) as [[]|] eqn:Ev; simpl in H;
      try discriminate; injection H as <-; left.
    + apply in_valid_types_str in Ev as (t & -> & Ht). eauto.
    + exists "string". now autorewrite with dict.
  - destruct (dict_in "properties" d) eqn:Ep; simpl in H;
      [injection H as <-; left; exists "object"; now autorewrite with dict |].
    destruct (dict_in "additionalProperties" d) eqn:Ea; simpl in H;
      [injection H as <-; left; exists "object"; now autorewrite with dict |].
    destruct (dict_in "items" d) eqn:Ei;
      [injection H as <-; left; exists "array"; now autorewrite with dict |].
    destruct (dict_in "enum" d) eqn:Ee; injection H as <-;
      [| left; exists "string"; now autorewrite with dict].
    right. repeat split; try apply dict_in_false; assumption.
Qed.

Lemma ensure_type_fix (d : list (string * value)) : typed d -> ensure_type d = Ok d.
Proof.
  unfold ensure_type, dict_item, dict_in.
  intros [(t & Ht & Hv) | (Ht & Hp & Ha & Hi & He)].
  - rewrite Ht. unfold in_valid_types. cbn [negb rbind hashable].
    now rewrite Hv.
  - unfold dict_in in He. rewrite Ht, Hp, Ha, Hi. simpl.
    now destruct (dict_get "enum" d).
Qed.

Lemma with_defaults_id (d : list (string * value)) :
  dict_in "properties" d = true -> dict_in "required" d = true ->
  with_defaults d = d.
Proof.
  intros Hp Hr. unfold with_defaults. rewrite Hp. simpl. now rewrite Hr.
Qed.

Lemma stable_fixpoint (rec : value -> res value) (d : list (string * value)) :
  stable rec d -> normalize_body rec (VDict d) = Ok (VDict d).
Proof.
  intros (Ht & Hobj & Harr & Hap). unfold normalize_body.
  rewrite (ensure_type_fix d Ht). simpl.
  assert (E2 : complete_object rec d = Ok d).
  { rewrite complete_object_unfold.
    destruct (get_is "type" d "object"); [| reflexivity].
    destruct (Hobj eq_refl) as (Hp & Hr & Hc).
    rewrite (with_defaults_id d Hp Hr).
    destruct (dict_get "properties" d) as [[]|] eqn:E; try reflexivity.
    rewrite (Hc _ eq_refl). simpl. now rewrite dict_set_same. }
  rewrite E2. simpl.
  assert (E3 : normalize_items rec d = Ok d).
  { unfold normalize_items, dict_item.
    destruct (get_is "type" d "array"); [| reflexivity]. simpl.
    destruct (dict_in "items" d) eqn:Ei; [| reflexivity].
    apply dict_in_true in Ei as [v Ev]. rewrite Ev. simpl.
    rewrite (Harr eq_refl v Ev). simpl. now rewrite dict_set_same. }
  rewrite E3. simpl.
  assert (E4 : normalize_additional rec d = Ok d).
  { unfold normalize_additional.
    destruct (dict_get "additionalProperties" d) as [[]|] eqn:E; try reflexivity.
    rewrite (Hap _ eq_refl). simpl. now rewrite dict_set_same. }
  now rewrite E4.
Qed.

Lemma complete_object_post (rec : value -> res value)
    (d d' : list (string * value)) :
  complete_object rec d = Ok d' ->
  get_is "type" d "object" = true ->
  dict_in "properties" d' = true /\ dict_in "required" d' = true /\
  forall p', dict_get "properties" d' = Some (VDict p') ->
             exists p, dict_comp rec p = Ok p' /\
                       (p = [] \/ dict_get "properties" d = Some (VDict p)).
Proof.
  rewrite complete_object_unfold. intros H Hobj. rewrite Hobj in H.
  pose proof (with_defaults_properties d) as Hp.
  pose proof (with_defaults_required d) as Hr.
  assert (Hpin : dict_in "properties" (with_defaults d) = true).
  { unfold dict_in. rewrite Hp. now destruct (dict_get "properties" d). }
  destruct (dict_get "properties" (with_defaults d)) as [pv|] eqn:E;
    [| now destruct (dict_get "properties" d)].
  assert (Hsrc : forall p, pv = VDict p ->
                           p = [] \/ dict_get "properties" d = Some (VDict p)).
  { intros p ->. destruct (dict_get "properties" d); injection Hp as ->; auto. }
  destruct pv as [| | | | | |p];
    try (injection H as <-; repeat split; try assumption;
         intros p' Hp'; rewrite E in Hp'; discriminate).
  destruct (dict_comp rec p) as [p''|] eqn:Ec; simpl in H; [| discriminate].
  injection H as <-. autorewrite with dict. repeat split; try assumption.
  intros p' [= <-]. exists p. auto.
Qed.

Lemma normalize_items_post (rec : value -> res value)
    (d d' : list (string * value)) :
  normalize_items rec d = Ok d' ->
  get_is "type" d "array" = true ->
  forall v', dict_get "items" d' = Some v' ->
             exists v, dict_get "items" d = Some v /\ rec v = Ok v'.
Proof.
  unfold normalize_items, dict_item. intros H Harr v' Hv'.
  rewrite Harr in H. simpl in H.
  destruct (dict_in "items" d) eqn:Ei.
  - apply dict_in_true in Ei as [v Ev]. rewrite Ev in H. simpl in H.
    destruct (rec v) as [v''|] eqn:Er; simpl in H; [| discriminate].
    injection H as <-. autorewrite with dict in Hv'. injection Hv' as <-. eauto.
  - injection H as <-. apply dict_in_false in Ei. congruence.
Qed.

Lemma normalize_additional_post (rec : value -> res value)
    (d d' : list (string * value)) :
  normalize_additional rec d = Ok d' ->
  forall a', dict_get "additionalProperties" d' = Some (VDict a') ->
             exists a, dict_get "additionalProperties" d = Some (VDict a) /\
                       rec (VDict a) = Ok (VDict a').
Proof.
  unfold normalize_additional. intros H a' Ha'.
  destruct (dict_get "additionalProperties" d) as [[]|] eqn:E;
    try (injection H as <-; congruence).
  destruct (rec (VDict entries)) as [ap'|] eqn:Er; simpl in H; [| discriminate].
  injection H as <-. autorewrite with dict in Ha'. injection Ha' as ->. eauto.
Qed.

Lemma dict_comp_idem (rec : value -> res value) (p p' : list (string * value)) :
  (forall k v v', In (k, v) p -> rec v = Ok v' -> rec v' = Ok v') ->
  dict_comp rec p = Ok p' -> dict_comp rec p' = Ok p'.
Proof.
  revert p'. induction p as [|[k v] p IH]; intros p' Hrec H; simpl in H.
  - now injection H as <-.
  - destruct (rec v) as [v'|] eqn:Ev; simpl in H; [| discriminate].
    destruct (dict_comp rec p) as [p''|] eqn:Ep; simpl in H; [| discriminate].
    injection H as <-. simpl.
    rewrite (Hrec k v v') by (now left || assumption). simpl.
    rewrite (IH p''); [reflexivity | | reflexivity].
    intros k0 v0 v0' Hin. apply (Hrec k0). now right.
Qed.

(** One pass over a dict leaves a stable dict, when the recursive calls
    return values they leave alone. *)
Lemma normalize_body_stable (rec : value -> res value)
    (e r : list (string * value)) :
  (forall v v', depth v < depth (VDict e) -> rec v = Ok v' -> rec v' = Ok v') ->
  normalize_body rec (VDict e) = Ok (VDict r) ->
  stable rec r.
Proof.
  intros IH H. unfold normalize_body in H.
  destruct (ensure_type e) as [r1|] eqn:E1; simpl in H; [| discriminate].
  destruct (complete_object rec r1) as [r2|] eqn:E2; simpl in H; [| discriminate].
  destruct (normalize_items rec r2) as [r3|] eqn:E3; simpl in H; [| discriminate].
  destruct (normalize_additional rec r3) as [r4|] eqn:E4; simpl in H;
    [| discriminate].
  injection H as <-.
  pose proof (ensure_type_typed e r1 E1) as Ht.
  assert (F1 : forall k, k <> "type" -> dict_get k r1 = dict_get k e)
    by (intros; now apply ensure_type_frame).
  assert (F2 : forall k, k <> "properties" -> k <> "required" ->
                         dict_get k r2 = dict_get k r1)
    by (intros; now apply (complete_object_frame rec)).
  assert (F3 : forall k, k <> "items" -> dict_get k r3 = dict_get k r2)
    by (intros; now apply (normalize_items_frame rec)).
  assert (F4 : forall k, k <> "additionalProperties" ->
                         dict_get k r4 = dict_get k r3)
    by (intros; now apply (normalize_additional_frame rec)).
  assert (T4 : dict_get "type" r4 = dict_get "type" r1)
    by (rewrite F4, F3, F2 by discriminate; reflexivity).
  destruct Ht as [(t & Ht & Hv) | (Ht & Hp & Ha & Hi & He)].
  - (* a valid type *)
    split; [left; exists t; now rewrite T4 |].
    split; [| split].
    + intros Hobj. rewrite (get_is_frame _ _ r1 r4 T4) in Hobj.
      destruct (complete_object_post rec r1 r2 E2 Hobj) as (Hpin & Hrin & Hprops).
      assert (P4 : dict_get "properties" r4 = dict_get "properties" r2)
        by (rewrite F4, F3 by discriminate; reflexivity).
      assert (R4 : dict_get "required" r4 = dict_get "required" r2)
        by (rewrite F4, F3 by discriminate; reflexivity).
      rewrite (dict_in_frame _ r2 r4 P4), (dict_in_frame _ r2 r4 R4).
      repeat split; try assumption.
      intros p' Hp'. rewrite P4 in Hp'.
      destruct (Hprops p' Hp') as (p & Hc & Hsrc).
      apply (dict_comp_idem rec p p'); [| exact Hc].
      intros k v v' Hin. apply IH.
      destruct Hsrc as [-> | Hsrc]; [destruct Hin |].
      rewrite F1 in Hsrc by discriminate.
      apply depth_get in Hsrc. apply depth_In in Hin. lia.
    + intros Harr v' Hv'. rewrite (get_is_frame _ _ r1 r4 T4) in Harr.
      rewrite F4 in Hv' by discriminate.
      assert (T2 : dict_get "type" r2 = dict_get "type" r1)
        by (rewrite F2 by discriminate; reflexivity).
      rewrite <- (get_is_frame _ _ r1 r2 T2) in Harr.
      destruct (normalize_items_post rec r2 r3 E3 Harr v' Hv') as (v & Hv0 & Hr).
      apply (IH v); [| exact Hr].
      rewrite F2, F1 in Hv0 by discriminate. now apply depth_get in Hv0.
    + intros a' Ha'.
      destruct (normalize_additional_post rec r3 r4 E4 a' Ha') as (a & Ha0 & Hr).
      apply (IH (VDict a)); [| exact Hr].
      rewrite F3, F2, F1 in Ha0 by discriminate. now apply depth_get in Ha0.
  - (* no type, next to an [enum]: the three steps do nothing *)
    assert (E2' : r2 = r1).
    { rewrite complete_object_unfold in E2. unfold get_is in E2.
      rewrite Ht in E2. now injection E2. }
    subst r2.
    assert (E3' : r3 = r1).
    { unfold normalize_items, get_is in E3. rewrite Ht in E3. now injection E3. }
    subst r3.
    assert (E4' : r4 = r1).
    { unfold normalize_additional in E4. rewrite Ha in E4. now injection E4. }
    subst r4.
    split; [right; auto |].
    unfold get_is. rewrite Ht, Ha. repeat split; intros; discriminate.
Qed.

Lemma normalize_idempotent_ok :
  forall (n : nat) (s r : value),
    depth s < n -> _normalize_schema s = Ok r -> _normalize_schema r = Ok r.
Proof.
  induction n as [|n IH]; intros s r Hd H; [lia |].
  rewrite normalize_unfold in H.
  destruct s as [| | | | | |e]; try (injection H as <-; reflexivity).
  assert (exists r4, r = VDict r4) as [r4 ->].
  { unfold normalize_body in H.
    destruct (ensure_type e); simpl in H; [| discriminate].
    destruct (complete_object _ _); simpl in H; [| discriminate].
    destruct (normalize_items _ _); simpl in H; [| discriminate].
    destruct (normalize_additional _ _); simpl in H; [| discriminate].
    injection H as <-. eauto. }
  rewrite normalize_unfold. apply stable_fixpoint.
  apply (normalize_body_stable _ e); [| exact H].
  intros v v' Hv. apply IH. lia.
Qed.

(** [C2].  The schema normalizer is idempotent, on every value: normalizing
    the result of a normalization gives that result again, and where the
    first normalization raises there is no result to normalize. *)
Theorem normalize_idempotent (s : value) :
  (r <- _normalize_schema s ;; _normalize_schema r) = _normalize_schema s.
Proof.
  destruct (_normalize_schema s) as [r|e] eqn:E; simpl; [| reflexivity].
  apply (normalize_idempotent_ok (S (depth s)) s); [lia | exact E].
Qed.

(** ** The normalizer keeps the keys of a dict distinct *)

Lemma wf_value_dict (d : list (string * value)) :
  wf_value (VDict d) <-> wf_entries d.
Proof.
  unfold wf_entries. simpl. split; intros [Hk Hv]; (split; [exact Hk |]).
  - induction d as [|kv d IH]; constructor; [apply Hv | apply IH].
    + now apply NoDup_cons in Hk.
    + apply Hv.
  - induction Hv as [|kv d Hkv _ IH]; [exact I |].
    split; [exact Hkv | apply IH]. now apply NoDup_cons in Hk.
Qed.

Lemma dict_in_keys {V : Type} (k : string) (d : list (string * V)) :
  dict_in k d = false -> k ∉ keys d.
Proof.
  unfold dict_in. induction d as [|[k' v'] d IH]; simpl.
  - intros _. apply not_elem_of_nil.
  - destruct (String.eqb_spec k k') as [-> | Hne]; [discriminate |].
    intros H. apply not_elem_of_cons. split; [exact Hne | now apply IH].
Qed.

Lemma wf_entries_set (k : string) (v : value) (d : list (string * value)) :
  wf_entries d -> wf_value v -> wf_entries (dict_set k v d).
Proof.
  intros [Hk Hv] Hw. split.
  - rewrite keys_dict_set. destruct (dict_in k d) eqn:E; [exact Hk |].
    apply NoDup_app. repeat split; [exact Hk | | apply NoDup_singleton].
    intros x Hx Hx'. apply list_elem_of_singleton in Hx' as ->.
    now apply dict_in_keys in E.
  - clear Hk. induction Hv as [|[k' v'] d Hkv Hd IH]; simpl.
    + now repeat constructor.
    + destruct (String.eqb k k'); constructor; assumption.
Qed.

Lemma wf_entries_get (k : string) (v : value) (d : list (string * value)) :
  wf_entries d -> dict_get k d = Some v -> wf_value v.
Proof.
  intros [_ Hv] Hg. apply dict_get_In in Hg.
  rewrite Forall_forall in Hv. apply list_elem_of_In in Hg. now apply (Hv (k, v)).
Qed.

Lemma wf_entries_comp (rec : value -> res value) (p p' : list (string * value)) :
  (forall v r, wf_value v -> rec v = Ok r -> wf_value r) ->
  wf_entries p -> dict_comp rec p = Ok p' -> wf_entries p'.
Proof.
  intros Hrec [Hk Hv] H.
  assert (Hkeys : keys p' = keys p).
  { revert p' H. clear Hk Hv. induction p as [|[k v] p IH]; intros p' H; simpl in H.
    - now injection H as <-.
    - destruct (rec v); simpl in H; [| discriminate].
      destruct (dict_comp rec p) as [p''|]; simpl in H; [| discriminate].
      injection H as <-. simpl. now rewrite (IH p''). }
  split; [now rewrite Hkeys |].
  clear Hk Hkeys. revert p' H.
  induction Hv as [|[k v] p Hkv _ IH]; intros p' H; simpl in H.
  - injection H as <-. constructor.
  - destruct (rec v) as [v'|] eqn:Ev; simpl in H; [| discriminate].
    destruct (dict_comp rec p) as [p''|]; simpl in H; [| discriminate].
    injection H as <-. constructor; [now apply (Hrec v) | now apply IH].
Qed.

Lemma normalize_body_wf (rec : value -> res value) :
  (forall v r, wf_value v -> rec v = Ok r -> wf_value r) ->
  forall s r, wf_value s -> normalize_body rec s = Ok r -> wf_value r.
Proof.
  intros Hrec s r Hs H.
  destruct s as [| | | | | |e]; try (injection H as <-; exact Hs).
  apply wf_value_dict in Hs. unfold normalize_body in H.
  destruct (ensure_type e) as [r1|] eqn:E1; simpl in H; [| discriminate].
  destruct (complete_object rec r1) as [r2|] eqn:E2; simpl in H; [| discriminate].
  destruct (normalize_items rec r2) as [r3|] eqn:E3; simpl in H; [| discriminate].
  destruct (normalize_additional rec r3) as [r4|] eqn:E4; simpl in H;
    [| discriminate].
  injection H as <-. apply wf_value_dict.
  assert (W1 : wf_entries r1).
  { unfold ensure_type in E1.
    repeat match type of E1 with
           | (if ?b then _ else _) = _ => destruct b
           | rbind ?m _ = _ => destruct m; simpl in E1; [| discriminate]
           end; injection E1 as <-;
      try exact Hs; now apply wf_entries_set. }
  assert (W2 : wf_entries r2).
  { rewrite complete_object_unfold in E2.
    assert (Wd : wf_entries (with_defaults r1)).
    { unfold with_defaults.
      destruct (negb (dict_in "properties" r1));
        destruct (negb (dict_in "required" _));
        repeat apply wf_entries_set; try exact W1; simpl; auto using NoDup_nil_2. }
    destruct (get_is "type" r1 "object"); [| now injection E2 as <-].
    destruct (dict_get "properties" (with_defaults r1)) as [[]|] eqn:Ep;
      try (now injection E2 as <-).
    destruct (dict_comp rec entries) as [p'|] eqn:Ec; simpl in E2; [| discriminate].
    injection E2 as <-. apply wf_entries_set; [exact Wd |].
    apply wf_value_dict, (wf_entries_comp rec entries); [exact Hrec | | exact Ec].
    apply wf_value_dict. now apply (wf_entries_get "properties" _ _ Wd). }
  assert (W3 : wf_entries r3).
  { unfold normalize_items, dict_item in E3.
    destruct (get_is "type" r2 "array" && dict_in "items" r2);
      [| now injection E3 as <-].
    destruct (dict_get "items" r2) as [v|] eqn:Ei; simpl in E3; [| discriminate].
    destruct (rec v) as [v'|] eqn:Er; simpl in E3; [| discriminate].
    injection E3 as <-. apply wf_entries_set; [exact W2 |].
    apply (Hrec v); [| exact Er]. now apply (wf_entries_get "items" _ _ W2). }
  unfold normalize_additional in E4.
  destruct (dict_get "additionalProperties" r3) as [[]|] eqn:Ea;
    try (now injection E4 as <-).
  destruct (rec (VDict entries)) as [v'|] eqn:Er; simpl in E4; [| discriminate].
  injection E4 as <-. apply wf_entries_set; [exact W3 |].
  apply (Hrec (VDict entries)); [| exact Er].
  now apply (wf_entries_get "additionalProperties" _ _ W3).
Qed.

(** [X7].  The normalizer keeps the keys of every dict distinct: the result
    of the normalizer on a value Python can build is a value Python can
    build. *)
Lemma normalize_wf (s r : value) :
  wf_value s -> _normalize_schema s = Ok r -> wf_value r.
Proof.
  unfold _normalize_schema. generalize (S (depth s)) as fuel.
  intros fuel. revert s r.
  induction fuel as [|fuel IH]; intros s r Hs H; [discriminate |].
  simpl in H. now apply (normalize_body_wf (normalize_fuel fuel) IH s).
Qed.

(** ** When the normalizer returns *)

Lemma types_hashable_In (k : string) (v : value) (d : list (string * value)) :
  types_hashable (VDict d) -> In (k, v) d -> types_hashable v.
Proof.
  intros [_ Hall]. induction d as [|[k' v'] d IH]; simpl; [easy |].
  destruct Hall as [Hv Hall]. intros [[= -> ->] | Hin]; [exact Hv | now apply IH].
Qed.

Lemma types_hashable_get (k : string) (v : value) (d : list (string * value)) :
  types_hashable (VDict d) -> dict_get k d = Some v -> types_hashable v.
Proof. intros H Hg. apply (types_hashable_In k v d H). now apply dict_get_In. Qed.

Lemma ensure_type_returns (d : list (string * value)) :
  (forall ty, dict_get "type" d = Some ty -> hashable ty = true) ->
  exists d', ensure_type d = Ok d'.
Proof.
  intros H. unfold ensure_type, dict_item, dict_in.
  destruct (dict_get "type" d) as [ty|]; simpl.
  - unfold in_valid_types. rewrite (H ty eq_refl). simpl.
    match goal with |- context [negb ?b] => destruct (negb b) end; eauto.
  - repeat match goal with
           | |- context [dict_get ?k d] => destruct (dict_get k d); simpl
           end; eauto.
Qed.

Lemma dict_comp_returns (rec : value -> res value) (p : list (string * value)) :
  (forall k v, In (k, v) p -> exists v', rec v = Ok v') ->
  exists p', dict_comp rec p = Ok p'.
Proof.
  induction p as [|[k v] p IH]; intros H; simpl; [eauto |].
  destruct (H k v) as [v' ->]; [now left |]. simpl.
  destruct IH as [p' ->]; [intros k0 v0 Hin; apply (H k0); now right |].
  simpl. eauto.
Qed.

(** The normalizer returns on every schema whose [type] entries can be
    hashed: the membership test in [valid_types] is its only operation
    that can raise. *)
Lemma normalize_returns :
  forall (n : nat) (s : value),
    depth s < n -> types_hashable s -> exists r, _normalize_schema s = Ok r.
Proof.
  induction n as [|n IH]; intros s Hd Hs; [lia |].
  rewrite normalize_unfold.
  destruct s as [| | | | | |e]; simpl; eauto.
  destruct (ensure_type_returns e) as [r1 E1]; [apply Hs |].
  rewrite E1. simpl.
  assert (F1 : forall k, k <> "type" -> dict_get k r1 = dict_get k e)
    by (intros; now apply ensure_type_frame).
  assert (Hsub : forall k v, dict_get k e = Some v ->
                             exists v', _normalize_schema v = Ok v').
  { intros k v Hv. apply IH.
    - apply depth_get in Hv. lia.
    - now apply (types_hashable_get k v e). }
  assert (E2 : exists r2, complete_object _normalize_schema r1 = Ok r2).
  { rewrite complete_object_unfold.
    destruct (get_is "type" r1 "object"); [| eauto].
    rewrite with_defaults_properties, F1 by discriminate.
    destruct (dict_get "properties" e) as [[]|] eqn:Ep; simpl; eauto.
    destruct (dict_comp_returns _normalize_schema entries) as [p' ->];
      [| simpl; eauto].
    intros k v Hin. apply IH.
    - apply depth_get in Ep. apply depth_In in Hin. lia.
    - apply (types_hashable_In k v entries); [| exact Hin].
      now apply (types_hashable_get "properties" _ e). }
  destruct E2 as [r2 E2]. rewrite E2. simpl.
  assert (F2 : forall k, k <> "properties" -> k <> "required" ->
                         dict_get k r2 = dict_get k r1)
    by (intros; now apply (complete_object_frame _normalize_schema)).
  assert (E3 : exists r3, normalize_items _normalize_schema r2 = Ok r3).
  { unfold normalize_items, dict_item, dict_in.
    destruct (get_is "type" r2 "array"); simpl; [| eauto].
    rewrite F2, F1 by discriminate.
    destruct (dict_get "items" e) as [v|] eqn:Ei; simpl; [| eauto].
    destruct (Hsub "items" v Ei) as [v' ->]. simpl. eauto. }
  destruct E3 as [r3 E3]. rewrite E3. simpl.
  assert (F3 : forall k, k <> "items" -> dict_get k r3 = dict_get k r2)
    by (intros; now apply (normalize_items_frame _normalize_schema)).
  unfold normalize_additional. rewrite F3, F2, F1 by discriminate.
  destruct (dict_get "additionalProperties" e) as [[]|] eqn:Ea; simpl; eauto.
  destruct (Hsub "additionalProperties" _ Ea) as [v' ->]. simpl. eauto.
Qed.

Lemma in_valid_types_error (ty : value) (e : exn) :
  in_valid_types ty = Err e -> e = TypeError "unhashable type".
Proof.
  unfold in_valid_types. destruct (hashable ty); [discriminate | now intros [= <-]].
Qed.

Lemma dict_comp_error (rec : value -> res value) (p : list (string * value))
    (e : exn) :
  dict_comp rec p = Err e -> exists k v, In (k, v) p /\ rec v = Err e.
Proof.
  induction p as [|[k v] p IH]; simpl; [discriminate |].
  destruct (rec v) as [v'|e'] eqn:Ev; simpl.
  - destruct (dict_comp rec p) as [p'|e'] eqn:Ep; simpl; [discriminate |].
    intros [= <-]. destruct (IH eq_refl) as (k0 & v0 & Hin & Hr).
    exists k0, v0. split; [now right | exact Hr].
  - intros [= <-]. exists k, v. split; [now left | exact Ev].
Qed.

(** The only exception of the normalizer is the [TypeError] of hashing a
    list or a dict; the recursion always has the depth it needs. *)
Lemma normalize_error :
  forall (n : nat) (s : value) (e : exn),
    depth s < n -> _normalize_schema s = Err e -> e = TypeError "unhashable type".
Proof.
  induction n as [|n IH]; intros s e Hd H; [lia |].
  rewrite normalize_unfold in H.
  destruct s as [| | | | | |d]; try discriminate.
  unfold normalize_body in H.
  destruct (ensure_type d) as [r1|e1] eqn:E1; simpl in H.
  2:{ injection H as <-. unfold ensure_type, dict_item, dict_in in E1.
      destruct (dict_get "type" d) as [ty|]; simpl in E1.
      - destruct (in_valid_types ty) as [b|e2] eqn:Ev; simpl in E1.
        + destruct (negb b); discriminate.
        + injection E1 as <-. now apply (in_valid_types_error ty).
      - repeat match type of E1 with
               | context [dict_get ?k d] => destruct (dict_get k d); simpl in E1
               end; discriminate. }
  assert (F1 : forall k, k <> "type" -> dict_get k r1 = dict_get k d)
    by (intros; now apply ensure_type_frame).
  destruct (complete_object _normalize_schema r1) as [r2|e2] eqn:E2; simpl in H.
  2:{ injection H as <-. rewrite complete_object_unfold in E2.
      destruct (get_is "type" r1 "object"); [| discriminate].
      rewrite with_defaults_properties, F1 in E2 by discriminate.
      destruct (dict_get "properties" d) as [[]|] eqn:Ep; simpl in E2;
        try discriminate.
      destruct (dict_comp _normalize_schema entries) as [p'|e3] eqn:Ec;
        simpl in E2; [discriminate |].
      injection E2 as <-.
      apply dict_comp_error in Ec as (k & v & Hin & Hr).
      apply (IH v); [| exact Hr].
      apply depth_get in Ep. apply depth_In in Hin. lia. }
  assert (F2 : forall k, k <> "properties" -> k <> "required" ->
                         dict_get k r2 = dict_get k r1)
    by (intros; now apply (complete_object_frame _normalize_schema)).
  destruct (normalize_items _normalize_schema r2) as [r3|e3] eqn:E3; simpl in H.
  2:{ injection H as <-. unfold normalize_items, dict_item, dict_in in E3.
      destruct (get_is "type" r2 "array"); simpl in E3; [| discriminate].
      rewrite F2, F1 in E3 by discriminate.
      destruct (dict_get "items" d) as [v|] eqn:Ei; simpl in E3; [| discriminate].
      destruct (_normalize_schema v) as [v'|e4] eqn:Er; simpl in E3;
        [discriminate |].
      injection E3 as <-. apply (IH v); [| exact Er].
      apply depth_get in Ei. lia. }
  assert (F3 : forall k, k <> "items" -> dict_get k r3 = dict_get k r2)
    by (intros; now apply (normalize_items_frame _normalize_schema)).
  unfold normalize_additional in H. rewrite F3, F2, F1 in H by discriminate.
  destruct (dict_get "additionalProperties" d) as [[]|] eqn:Ea; simpl in H;
    try discriminate.
  destruct (_normalize_schema (VDict entries)) as [v'|e4] eqn:Er; simpl in H;
    [discriminate |].
  injection H as <-. apply (IH (VDict entries)); [| exact Er].
  apply depth_get in Ea. lia.
Qed.

(** ** The format mapper *)

Lemma for_each_app {A S : Type} (body : S -> A -> res S) (l1 l2 : list A) :
  forall st, for_each body st (l1 ++ l2) =
             (st' <- for_each body st l1 ;; for_each body st' l2).
Proof.
  induction l1 as [|x l1 IH]; intros st; simpl; [reflexivity |].
  destruct (body st x); simpl; [apply IH | reflexivity].
Qed.

(** The body only appends to [out]. *)
Lemma loop_body_out (f : bool) (out : list value) (t : ToolSpec.t) :
  loop_body f out t = (d <- loop_body f [] t ;; Ok (out ++ d)).
Proof.
  unfold loop_body.
  destruct (ToolSpec.kind t), (ToolSpec.function t), (ToolSpec.mcp t),
    (ToolSpec.builtin t), f; simpl;
    rewrite ?app_nil_r; try reflexivity;
    match goal with |- context [_normalize_schema ?x] =>
      destruct (_normalize_schema x); reflexivity end.
Qed.

Lemma for_each_loop_body_out (f : bool) (tools : list ToolSpec.t) :
  forall out, for_each (loop_body f) out tools =
              (ds <- for_each (loop_body f) [] tools ;; Ok (out ++ ds)).
Proof.
  induction tools as [|t tools IH]; intros out; simpl.
  - now rewrite app_nil_r.
  - rewrite loop_body_out.
    destruct (loop_body f [] t) as [d|]; simpl; [| reflexivity].
    rewrite (IH (out ++ d)), (IH d).
    destruct (for_each (loop_body f) [] tools); simpl; [| reflexivity].
    now rewrite app_assoc.
Qed.

Lemma to_openai_tools_one (t : ToolSpec.t) (f : bool) :
  to_openai_tools [t] f = loop_body f [] t.
Proof.
  unfold to_openai_tools. simpl. now destruct (loop_body f [] t).
Qed.

Lemma to_openai_tools_app (ts1 ts2 : list ToolSpec.t) (f : bool) :
  to_openai_tools (ts1 ++ ts2) f =
  (o1 <- to_openai_tools ts1 f ;; o2 <- to_openai_tools ts2 f ;; Ok (o1 ++ o2)).
Proof.
  unfold to_openai_tools. rewrite for_each_app.
  destruct (for_each (loop_body f) [] ts1) as [o1|]; simpl; [| reflexivity].
  apply for_each_loop_body_out.
Qed.

Lemma to_openai_tools_cons (t : ToolSpec.t) (ts : list ToolSpec.t) (f : bool) :
  to_openai_tools (t :: ts) f =
  (d <- to_openai_tools [t] f ;; ds <- to_openai_tools ts f ;; Ok (d ++ ds)).
Proof. apply (to_openai_tools_app [t] ts). Qed.

(** One tool gives at most one declaration. *)
Lemma to_openai_tools_one_length (t : ToolSpec.t) (f : bool) (d : list value) :
  to_openai_tools [t] f = Ok d -> length d <= 1.
Proof.
  rewrite to_openai_tools_one. unfold loop_body.
  destruct (ToolSpec.kind t), (ToolSpec.function t), (ToolSpec.mcp t),
    (ToolSpec.builtin t), f; simpl;
    try (intros [= <-]; simpl; lia);
    match goal with |- context [_normalize_schema ?x] =>
      destruct (_normalize_schema x); simpl;
      [intros [= <-]; simpl; lia | discriminate] end.
Qed.

(** A tool without the payload of its kind gives no declaration, and no
    exception. *)
Lemma to_openai_tools_skip (t : ToolSpec.t) (f : bool) :
  payload_missing t -> to_openai_tools [t] f = Ok [].
Proof.
  rewrite to_openai_tools_one. unfold payload_missing, loop_body.
  destruct (ToolSpec.kind t); intros ->;
    destruct (ToolSpec.function t), (ToolSpec.mcp t), (ToolSpec.builtin t);
    reflexivity.
Qed.

Lemma to_openai_tools_skip_in (pre post : list ToolSpec.t) (t : ToolSpec.t)
    (f : bool) :
  payload_missing t ->
  to_openai_tools (pre ++ t :: post) f = to_openai_tools (pre ++ post) f.
Proof.
  intros H. rewrite !to_openai_tools_app, to_openai_tools_cons.
  rewrite (to_openai_tools_skip t f H). simpl.
  destruct (to_openai_tools pre f); simpl; [| reflexivity].
  now destruct (to_openai_tools post f).
Qed.

(** The result of the mapper on a list, from its results on the tools. *)
Lemma to_openai_tools_concat (tools : list ToolSpec.t) (f : bool) :
  forall out,
    to_openai_tools tools f = Ok out ->
    exists decls,
      Forall2 (fun t d => to_openai_tools [t] f = Ok d) tools decls /\
      out = concat decls.
Proof.
  induction tools as [|t tools IH]; intros out.
  - intros [= <-]. exists []. split; [constructor | reflexivity].
  - rewrite to_openai_tools_cons.
    destruct (to_openai_tools [t] f) as [d|] eqn:Ed; simpl; [| discriminate].
    destruct (to_openai_tools tools f) as [ds|] eqn:Eds; simpl; [| discriminate].
    intros [= <-]. destruct (IH ds eq_refl) as (decls & HF & ->).
    exists (d :: decls). split; [now constructor | reflexivity].
Qed.

(** [C7].  The mapper goes through the tools in input order and emits at
    most one declaration per tool: its output is the declarations of the
    tools, each none or one, one after the other in the order of the
    tools, and is no longer than the input. *)
Theorem to_openai_tools_order (tools : list ToolSpec.t) (f : bool)
    (out : list value) :
  to_openai_tools tools f = Ok out ->
  (exists decls,
     Forall2 (fun t d => to_openai_tools [t] f = Ok d /\ length d <= 1)
       tools decls /\
     out = concat decls) /\
  length out <= length tools.
Proof.
  intros H. apply to_openai_tools_concat in H as (decls & HF & ->).
  assert (HF' : Forall2 (fun t d => to_openai_tools [t] f = Ok d /\ length d <= 1)
                  tools decls).
  { induction HF as [|t d ts ds Hd HF IH]; constructor; [| exact IH].
    split; [exact Hd | now apply (to_openai_tools_one_length t f)]. }
  split; [exists decls; now split |].
  clear HF. induction HF' as [|t d ts ds [_ Hd] HF IH]; simpl; [lia |].
  rewrite length_app. lia.
Qed.

Lemma to_openai_tools_order_witness :
  exists out,
    to_openai_tools [function_tool search_spec; mismatched_tool;
                     mcp_tool lookup_spec] false = Ok out /\
    length out <= 3.
Proof.
  eexists. split; [reflexivity |].
  apply (to_openai_tools_order
           [function_tool search_spec; mismatched_tool; mcp_tool lookup_spec]
           false _ eq_refl).
Defined.

(** The mapper in the middle of a list, from its result on one tool. *)
Lemma to_openai_tools_middle (pre post : list ToolSpec.t) (t : ToolSpec.t)
    (f : bool) :
  to_openai_tools (pre ++ t :: post) f =
  (o1 <- to_openai_tools pre f ;;
   d <- to_openai_tools [t] f ;;
   o2 <- to_openai_tools post f ;;
   Ok (o1 ++ d ++ o2)).
Proof.
  rewrite to_openai_tools_app, to_openai_tools_cons.
  destruct (to_openai_tools pre f); simpl; [| reflexivity].
  destruct (to_openai_tools [t] f); simpl; [| reflexivity].
  now destruct (to_openai_tools post f).
Qed.

(** [C4].  Without native support, a tool of kind [mcp] with its payload
    gives the function declaration named ["mcp::{server_id}::{name}"],
    described by the description, the empty string when there is none,
    followed by [" [MCP server={server_id}]"], with the normalized input
    schema as parameters; it stands in the output where the tool stands in
    the input.  That is when the normalizer returns on the input schema:
    when it raises, so does the mapper, once it has gone through the
    tools before, and nothing is emitted, for this tool or another. *)
Theorem mcp_as_function (pre post : list ToolSpec.t) (t : ToolSpec.t)
    (m : MCPToolSpec.t) :
  ToolSpec.kind t = ToolKind.mcp ->
  ToolSpec.mcp t = Some m ->
  (forall parameters,
     _normalize_schema (VDict (MCPToolSpec.input_schema m)) = Ok parameters ->
     to_openai_tools (pre ++ t :: post) false =
     (o1 <- to_openai_tools pre false ;;
      o2 <- to_openai_tools post false ;;
      Ok (o1 ++
          [VDict [("type", VStr "function");
                  ("function",
                   VDict [("name",
                           VStr ("mcp::" +:+ MCPToolSpec.server_id m +:+ "::" +:+
                                 MCPToolSpec.name m));
                          ("description",
                           VStr (match MCPToolSpec.description m with
                                 | Some d => d
                                 | None => ""
                                 end +:+
                                 " [MCP server=" +:+ MCPToolSpec.server_id m +:+
                                 "]"));
                          ("parameters", parameters)])]] ++
          o2))) /\
  (forall e,
     _normalize_schema (VDict (MCPToolSpec.input_schema m)) = Err e ->
     to_openai_tools (pre ++ t :: post) false =
     (o1 <- to_openai_tools pre false ;; Err e)).
Proof.
  intros Hk Hm. rewrite to_openai_tools_middle, to_openai_tools_one.
  unfold loop_body, or_empty. rewrite Hk, Hm.
  split; [intros parameters Hn | intros e Hn]; rewrite Hn;
    destruct (to_openai_tools pre false); reflexivity.
Qed.

Lemma mcp_as_function_witness :
  to_openai_tools [function_tool search_spec; mcp_tool described_lookup_spec]
    false =
  Ok [VDict [("type", VStr "function");
             ("function", VDict [("name", VStr "search");
                                 ("description", VStr EmptyString);
                                 ("parameters", VDict [("type", VStr "string")])])];
      VDict [("type", VStr "function");
             ("function", VDict [("name", VStr "mcp::srv1::lookup");
                                 ("description",
                                  VStr "Looks things up [MCP server=srv1]");
                                 ("parameters", VDict [("type", VStr "string")])])]] /\
  to_openai_tools [function_tool search_spec; mcp_tool nullable_lookup_spec]
    false =
  Err (TypeError "unhashable type").
Proof.
  split.
  - exact (proj1 (mcp_as_function [function_tool search_spec] []
                    (mcp_tool described_lookup_spec) described_lookup_spec
                    eq_refl eq_refl) _ eq_refl).
  - exact (proj2 (mcp_as_function [function_tool search_spec] []
                    (mcp_tool nullable_lookup_spec) nullable_lookup_spec
                    eq_refl eq_refl) _ eq_refl).
Defined.

(** *** Builtin tools *)

Lemma dict_get_not_key {V : Type} (k : string) (d : list (string * V)) :
  k ∉ keys d -> dict_get k d = None.
Proof.
  induction d as [|[k' v'] d IH]; simpl; [reflexivity |].
  intros [Hne Hnot]%not_elem_of_cons.
  apply String.eqb_neq in Hne. rewrite Hne. now apply IH.
Qed.

(** After [d.update(other)] a key has the value [other] gives it, and the
    one it had where [other] gives none. *)
Lemma dict_get_update {V : Type} (k : string) (other : list (string * V)) :
  NoDup (keys other) ->
  forall d, dict_get k (dict_update d other) =
            match dict_get k other with
            | Some v => Some v
            | None => dict_get k d
            end.
Proof.
  unfold dict_update.
  induction other as [|[k0 v0] other IH]; intros Hnd d; simpl; [reflexivity |].
  simpl in Hnd. apply NoDup_cons in Hnd as [Hnot Hnd].
  rewrite (IH Hnd).
  destruct (String.eqb_spec k k0) as [-> | Hne].
  - rewrite (dict_get_not_key k0 other Hnot). apply dict_get_set_eq.
  - now rewrite dict_get_set_ne.
Qed.

(** [C3], as amended.  A builtin tool gives the dict [{"type": <builtin
    type>}] with the configuration merged on top of it.  The configuration
    wins for every key it has, [type] among them: the declaration's [type]
    is the one of the configuration when it has one, and the builtin's
    [type] field when it has none. *)
Theorem builtin_decl (pre post : list ToolSpec.t) (t : ToolSpec.t)
    (b : BuiltinToolSpec.t) (f : bool) :
  ToolSpec.kind t = ToolKind.builtin ->
  ToolSpec.builtin t = Some b ->
  NoDup (keys (BuiltinToolSpec.config b)) ->
  let item := dict_update [("type", VStr (BuiltinToolSpec.type b))]
                (BuiltinToolSpec.config b) in
  to_openai_tools (pre ++ t :: post) f =
    (o1 <- to_openai_tools pre f ;;
     o2 <- to_openai_tools post f ;;
     Ok (o1 ++ [VDict item] ++ o2)) /\
  dict_get "type" item =
    Some (match dict_get "type" (BuiltinToolSpec.config b) with
          | Some v => v
          | None => VStr (BuiltinToolSpec.type b)
          end) /\
  forall k, k <> "type" ->
            dict_get k item = dict_get k (BuiltinToolSpec.config b).
Proof.
  intros Hk Hb Hnd item. split; [| split].
  - rewrite to_openai_tools_middle, to_openai_tools_one.
    unfold loop_body. rewrite Hk, Hb.
    destruct (to_openai_tools pre f); simpl; [| reflexivity].
    now destruct (ToolSpec.function t), (ToolSpec.mcp t).
  - unfold item. rewrite dict_get_update by exact Hnd.
    now destruct (dict_get "type" (BuiltinToolSpec.config b)).
  - intros k Hne. unfold item. rewrite dict_get_update by exact Hnd.
    destruct (dict_get k (BuiltinToolSpec.config b)); [reflexivity |].
    simpl. apply String.eqb_neq in Hne. now rewrite Hne.
Qed.

Lemma builtin_decl_witness :
  to_openai_tools [builtin_tool web_search_spec] true =
  Ok [VDict [("type", VStr "other"); ("region", VStr "eu")]].
Proof.
  destruct (builtin_decl [] [] (builtin_tool web_search_spec) web_search_spec true
              eq_refl eq_refl) as (H & _ & _).
  - simpl.
    repeat first [ apply NoDup_nil_2 | apply NoDup_cons_2
                 | apply not_elem_of_nil | apply not_elem_of_cons; split
                 | discriminate ].
  - exact H.
Defined.

(** [C3] as the specification states it does not hold: a configuration
    with a [type] key replaces the discriminator. *)
Lemma builtin_type_overridden :
  ~ (forall (b : BuiltinToolSpec.t) (f : bool) (item : list (string * value)),
       to_openai_tools [builtin_tool b] f = Ok [VDict item] ->
       dict_get "type" item = Some (VStr (BuiltinToolSpec.type b))).
Proof.
  intros H.
  specialize (H web_search_spec false
                [("type", VStr "other"); ("region", VStr "eu")] eq_refl).
  discriminate.
Qed.

(** *** Tools without the payload of their kind, and exceptions *)

(** [X19].  A tool whose payload for its kind is [None] adds nothing to the
    output, wherever it stands, and raises nothing; the payloads of the
    other kinds do not stand in for it. *)
Lemma to_openai_tools_skips_missing (pre post : list ToolSpec.t)
    (t : ToolSpec.t) (f : bool) :
  payload_missing t ->
  to_openai_tools [t] f = Ok [] /\
  to_openai_tools (pre ++ t :: post) f = to_openai_tools (pre ++ post) f.
Proof.
  intros H. split;
    [now apply to_openai_tools_skip | now apply to_openai_tools_skip_in].
Qed.

(** [C6].  The mapper is not total: it raises on a well-typed tool, a
    function whose schema has ["type": ["string", "null"]].  The test
    [result["type"] not in valid_types], which is there to turn invalid
    types into ["string"], hashes the list. *)
Theorem to_openai_tools_raises :
  to_openai_tools [function_tool nullable_spec] false =
  Err (TypeError "unhashable type").
Proof. reflexivity. Qed.

(** *** The payloads the mapper does not read *)

Lemma loop_body_same_selected (f : bool) (out : list value)
    (t1 t2 : ToolSpec.t) :
  same_selected t1 t2 -> loop_body f out t1 = loop_body f out t2.
Proof.
  unfold same_selected, loop_body.
  destruct t1 as [k1 f1 m1 b1], t2 as [k2 f2 m2 b2]. simpl.
  intros [<- H]. destruct k1; subst;
    repeat match goal with
           | |- context [match ?x with Some _ => _ | None => _ end] =>
               is_var x; destruct x
           end; reflexivity.
Qed.

(** [C9].  The output of the mapper depends on the kind of each tool and
    on the payload of that kind only: two lists of tools that agree on
    these, tool by tool, give the same result, whatever the other payloads
    are. *)
Theorem to_openai_tools_same_selected (ts1 ts2 : list ToolSpec.t) (f : bool) :
  Forall2 same_selected ts1 ts2 ->
  to_openai_tools ts1 f = to_openai_tools ts2 f.
Proof.
  unfold to_openai_tools. generalize (@nil value) as out.
  intros out H. revert out.
  induction H as [|t1 t2 l1 l2 Ht HF IH]; intros out; simpl; [reflexivity |].
  rewrite (loop_body_same_selected f out t1 t2 Ht).
  destruct (loop_body f out t2); simpl; [apply IH | reflexivity].
Qed.

Lemma to_openai_tools_same_selected_witness :
  to_openai_tools [overfull_tool] false =
  to_openai_tools [function_tool search_spec] false.
Proof.
  apply to_openai_tools_same_selected.
  repeat constructor.
Defined.

(** *** When the mapper returns *)

Lemma normalize_returns_on_hashable (s : value) :
  types_hashable s -> exists r, _normalize_schema s = Ok r.
Proof. apply (normalize_returns (S (depth s))). lia. Qed.

Lemma normalize_raises_type_error_only (s : value) (e : exn) :
  _normalize_schema s = Err e -> e = TypeError "unhashable type".
Proof. apply (normalize_error (S (depth s))). lia. Qed.

(** On the arguments below the limit of the recursion, the mapper returns
    on every list of tools whose schemas have [type] entries that can be
    hashed, whatever the flag. *)
Lemma to_openai_tools_returns (tools : list ToolSpec.t) (f : bool) :
  Forall tool_types_hashable tools ->
  exists out, to_openai_tools tools f = Ok out.
Proof.
  induction 1 as [|t tools Ht _ [ds IH]]; [now exists [] |].
  rewrite to_openai_tools_cons, IH, to_openai_tools_one.
  unfold tool_types_hashable in Ht. unfold loop_body.
  destruct (ToolSpec.kind t), (ToolSpec.function t), (ToolSpec.mcp t),
    (ToolSpec.builtin t), f; simpl; eauto;
    destruct (normalize_returns_on_hashable _ Ht) as [r ->]; simpl; eauto.
Qed.

(** Below the limit of the recursion, the only exception of the mapper
    is the [TypeError] that the normalizer raises when it hashes a [type]
    that is a list or a dict. *)
Lemma to_openai_tools_raises_type_error_only (tools : list ToolSpec.t)
    (f : bool) (e : exn) :
  to_openai_tools tools f = Err e -> e = TypeError "unhashable type".
Proof.
  induction tools as [|t tools IH]; [discriminate |].
  rewrite to_openai_tools_cons.
  destruct (to_openai_tools [t] f) as [d|e1] eqn:Ed; simpl.
  - destruct (to_openai_tools tools f); simpl; [discriminate |].
    intros [= <-]. now apply IH.
  - intros [= <-]. rewrite to_openai_tools_one in Ed. unfold loop_body in Ed.
    destruct (ToolSpec.kind t), (ToolSpec.function t), (ToolSpec.mcp t),
      (ToolSpec.builtin t), f; simpl in Ed; try discriminate;
      match type of Ed with context [_normalize_schema ?x] =>
        destruct (_normalize_schema x) eqn:En; simpl in Ed;
        [discriminate | injection Ed as <-;
                        now apply (normalize_raises_type_error_only x)] end.
Qed.

(** ** Inbound tool calls *)

Lemma server_truthy_decoded (name tool : string) (server : option string) :
  decode_maybe_mcp name = (server, tool) ->
  server_truthy server = match server with Some _ => true | None => false end.
Proof.
  destruct server as [srv|]; [| reflexivity]. intros H. simpl.
  apply decode_server_nonempty in H. apply String.eqb_neq in H. now rewrite H.
Qed.

Lemma decode_no_match (name tool : string) :
  decode_maybe_mcp name = (None, tool) -> tool = name.
Proof.
  unfold decode_maybe_mcp.
  destruct (Re.match_ _mcp_pat name) as [[|g1 [|g2 [|g3 gs]]]|];
    now intros [= <-].
Qed.

(** The record [normalize_tool_call] builds, field by field. *)
Lemma normalize_tool_call_ok (raw : list (string * value)) (name : string) :
  get_default "name" (VStr "") raw = VStr name ->
  normalize_tool_call raw =
  Ok {| ToolCall.id := (let i := get_default "id" VNone raw in
                        if truthy i then i else VStr "");
        ToolCall.name := VStr (decode_maybe_mcp name).2;
        ToolCall.arguments_json := get_default "arguments" (VStr "{}") raw;
        ToolCall.mcp_server_id := (decode_maybe_mcp name).1 |}.
Proof.
  intros Hn. unfold normalize_tool_call. rewrite Hn.
  destruct (decode_maybe_mcp name) as [server tool] eqn:E.
  rewrite (server_truthy_decoded name tool server E). simpl.
  destruct server; [reflexivity |].
  now rewrite (decode_no_match name tool E).
Qed.

(** [C5].  From a record with the name [n], [normalize_tool_call] builds
    the call whose name and server id are the decoded ones when [n]
    decodes under the mcp pattern, and [n] itself and no server id when it
    does not; a missing [id] gives the empty string and missing
    [arguments] give the text of the empty object. *)
Theorem normalize_tool_call_spec (raw : list (string * value)) (n : string) :
  dict_get "name" raw = Some (VStr n) ->
  exists tc,
    normalize_tool_call raw = Ok tc /\
    (forall server tool,
        decode_maybe_mcp n = (Some server, tool) ->
        ToolCall.name tc = VStr tool /\ ToolCall.mcp_server_id tc = Some server) /\
    (forall tool,
        decode_maybe_mcp n = (None, tool) ->
        ToolCall.name tc = VStr n /\ ToolCall.mcp_server_id tc = None) /\
    (dict_get "id" raw = None -> ToolCall.id tc = VStr EmptyString) /\
    (dict_get "arguments" raw = None -> ToolCall.arguments_json tc = VStr "{}").
Proof.
  intros Hn.
  assert (Hd : get_default "name" (VStr "") raw = VStr n)
    by (unfold get_default; now rewrite Hn).
  eexists. split; [apply (normalize_tool_call_ok raw n Hd) |]. simpl.
  split; [| split; [| split]].
  - intros server tool H. now rewrite H.
  - intros tool H. rewrite H. simpl. now rewrite (decode_no_match n tool H).
  - intros H. unfold get_default. now rewrite H.
  - intros H. unfold get_default. now rewrite H.
Qed.

Lemma normalize_tool_call_spec_witness :
  exists tc,
    normalize_tool_call call_c = Ok tc /\
    ToolCall.id tc = VStr "c1" /\
    ToolCall.name tc = VStr "lookup" /\
    ToolCall.mcp_server_id tc = Some "srv1" /\
    ToolCall.arguments_json tc =
      VStr ("{" +:+ String dquote "q" +:+ String dquote ":1}").
Proof.
  destruct (normalize_tool_call_spec call_c "mcp::srv1::lookup" eq_refl)
    as (tc & Htc & Hsome & _).
  exists tc. split; [exact Htc |].
  destruct (Hsome "srv1" "lookup" eq_refl) as [Hname Hsrv].
  injection Htc as <-. repeat split.
Defined.

(** Scenario D: no [id], no [arguments]. *)
Example normalize_tool_call_scenario_d :
  normalize_tool_call call_d =
  Ok {| ToolCall.id := VStr EmptyString; ToolCall.name := VStr "search";
        ToolCall.arguments_json := VStr "{}"; ToolCall.mcp_server_id := None |}.
Proof. reflexivity. Qed.

(** A name that is not a string makes [re] raise. *)
Example normalize_tool_call_name_none :
  normalize_tool_call [("name", VNone)] =
  Err (TypeError "expected string or bytes-like object").
Proof. reflexivity. Qed.

(** *** What the class accepts *)

(** For a record with a name, the class accepts the call exactly when
    [id] and [arguments] are what section 6 of the specification says. *)
Lemma normalize_tool_call_validated_cases (raw : list (string * value)) :
  name_is_str raw ->
  (id_accepted raw /\ arguments_accepted raw /\
   exists tc, normalize_tool_call raw = Ok tc /\
              normalize_tool_call_validated raw = Ok tc) \/
  (~ (id_accepted raw /\ arguments_accepted raw) /\
   normalize_tool_call_validated raw = Err ValidationError).
Proof.
  intros [n Hn]. unfold normalize_tool_call_validated.
  rewrite (normalize_tool_call_ok raw n Hn). cbn [rbind].
  unfold validate_tool_call, id_accepted, arguments_accepted, get_default.
  cbn [ToolCall.id ToolCall.name ToolCall.arguments_json is_str andb].
  destruct (dict_get "id" raw) as [i|], (dict_get "arguments" raw) as [a|];
    try destruct (truthy i) eqn:Ti;
    try destruct i; try destruct a; cbn [is_str andb truthy];
    first [ left; repeat split; eauto; fail
          | right; split; [intros [[H | H] H'] || intros [H H']; discriminate
                          | reflexivity] ].
Qed.

(** On the records of section 6 of the specification the class changes
    nothing: there, what holds of the call that [normalize_tool_call]
    builds holds of the [ToolCall]. *)
Lemma normalize_tool_call_validated_accepts (raw : list (string * value)) :
  name_is_str raw -> id_accepted raw -> arguments_accepted raw ->
  normalize_tool_call_validated raw = normalize_tool_call raw.
Proof.
  intros Hname Hid Harg.
  destruct (normalize_tool_call_validated_cases raw Hname)
    as [(_ & _ & tc & Htc & Hv) | [Hno _]]; [congruence | tauto].
Qed.

(** [C10], as amended.  A field that is there and is [None] is not a
    missing field, and the two defaults differ on it: an [id] that is
    [None], or any other false value, gives the empty string, as a missing
    one does; [arguments] that are [None] do not give the text of the
    empty object, which is for missing [arguments] only, and give no call
    either: [arguments_json] is a string, and the class refuses [None]. *)
Theorem normalize_tool_call_null_fields (raw : list (string * value)) :
  name_is_str raw ->
  (forall v, dict_get "id" raw = Some v -> truthy v = false ->
             arguments_accepted raw ->
             exists tc, normalize_tool_call_validated raw = Ok tc /\
                        ToolCall.id tc = VStr EmptyString) /\
  (dict_get "arguments" raw = Some VNone ->
   normalize_tool_call_validated raw = Err ValidationError) /\
  (dict_get "arguments" raw = None -> id_accepted raw ->
   exists tc, normalize_tool_call_validated raw = Ok tc /\
              ToolCall.arguments_json tc = VStr "{}").
Proof.
  intros Hname.
  destruct (normalize_tool_call_validated_cases raw Hname)
    as [(Hid & Harg & tc & Htc & Hv) | [Hno Hv]].
  - destruct Hname as [n Hn].
    rewrite (normalize_tool_call_ok raw n Hn) in Htc. injection Htc as <-.
    split; [| split].
    + intros v Hi Hf _. eexists. split; [exact Hv |]. simpl.
      unfold get_default. now rewrite Hi, Hf.
    + intros Ha. unfold arguments_accepted in Harg. now rewrite Ha in Harg.
    + intros Ha _. eexists. split; [exact Hv |]. simpl.
      unfold get_default. now rewrite Ha.
  - split; [| split].
    + intros v Hi Hf Harg. exfalso. apply Hno. split; [| exact Harg].
      unfold id_accepted. rewrite Hi. now left.
    + intros _. exact Hv.
    + intros Ha Hid. exfalso. apply Hno. split; [exact Hid |].
      unfold arguments_accepted. now rewrite Ha.
Qed.

Lemma normalize_tool_call_null_fields_witness :
  (exists tc, normalize_tool_call_validated call_null_id = Ok tc /\
              ToolCall.id tc = VStr EmptyString) /\
  normalize_tool_call_validated call_null = Err ValidationError.
Proof.
  split.
  - apply (proj1 (normalize_tool_call_null_fields call_null_id
                    (ex_intro _ "search" eq_refl)) VNone); reflexivity.
  - apply (proj1 (proj2 (normalize_tool_call_null_fields call_null
                           (ex_intro _ "search" eq_refl)))).
    reflexivity.
Defined.

(** [C10] as it is stated does not hold: on the record [{"id": None,
    "name": "search", "arguments": None}] there is no call with
    [arguments_json] [None], as the class refuses it. *)
Lemma normalize_tool_call_null_arguments_fails :
  ~ (forall raw : list (string * value),
       name_is_str raw ->
       dict_get "arguments" raw = Some VNone ->
       exists tc, normalize_tool_call_validated raw = Ok tc /\
                  ToolCall.arguments_json tc = VNone).
Proof.
  intros H.
  destruct (H call_null) as (tc & Htc & _);
    [now exists "search" | reflexivity | discriminate].
Qed.

(** ** The normalizer does not mutate its argument *)

Module HeapFacts.

(** The functions on values, under names that those on the store, which
    have the names of the source too, do not hide. *)
Local Abbreviation pure_is_dict := is_dict.
Local Abbreviation pure_in_valid_types := in_valid_types.
Local Abbreviation pure_get_is := get_is.
Local Abbreviation pure_ensure_type := ensure_type.
Local Abbreviation pure_complete_object := complete_object.
Local Abbreviation pure_normalize_items := normalize_items.
Local Abbreviation pure_normalize_additional := normalize_additional.
Local Abbreviation pure_normalize_body := normalize_body.
Local Abbreviation pure_normalize_fuel := normalize_fuel.

Import Heap.
Local Open Scope heap_scope.

Lemma preserved_refl (h : heap) : preserved h h.
Proof. now intros l o. Qed.

Lemma preserved_trans (h1 h2 h3 : heap) :
  preserved h1 h2 -> preserved h2 h3 -> preserved h1 h3.
Proof. intros H1 H2 l o Hl. now apply H2, H1. Qed.

Lemma preserved_but_trans (l : nat) (h1 h2 h3 : heap) :
  preserved_but l h1 h2 -> preserved_but l h2 h3 -> preserved_but l h1 h3.
Proof. intros H1 H2 i o Hi Hl. now apply H2, H1. Qed.

Lemma preserved_preserved_but (l : nat) (h h' : heap) :
  preserved h h' -> preserved_but l h h'.
Proof. intros H i o _. apply H. Qed.

Lemma preserved_length (h h' : heap) : preserved h h' -> length h <= length h'.
Proof.
  intros H. destruct (le_lt_dec (length h) (length h')) as [Hle | Hlt];
    [exact Hle |].
  destruct (lookup_lt_is_Some_2 h (length h') Hlt) as [o Ho].
  apply H, lookup_lt_Some in Ho. lia.
Qed.

Section Frames.
Context {A B : Type}.

Lemma frame_ret (a : A) : frame (ret a).
Proof. intros h. apply preserved_refl. Qed.

Lemma frame_raise (e : exn) : frame (@raise A e).
Proof. intros h. apply preserved_refl. Qed.

Lemma frame_bind (m : M A) (f : A -> M B) :
  frame m -> (forall a, frame (f a)) -> frame (bind m f).
Proof.
  intros Hm Hf h. unfold bind. specialize (Hm h).
  destruct (m h) as [[a|e] h1]; simpl in *; [| exact Hm].
  eapply preserved_trans; [exact Hm | apply Hf].
Qed.

Lemma frame_but_bind (l : nat) (m : M A) (f : A -> M B) :
  frame_but l m -> (forall a, frame_but l (f a)) -> frame_but l (bind m f).
Proof.
  intros Hm Hf h. unfold bind. specialize (Hm h).
  destruct (m h) as [[a|e] h1]; simpl in *; [| exact Hm].
  eapply preserved_but_trans; [exact Hm | apply Hf].
Qed.

Lemma frame_frame_but (l : nat) (m : M A) : frame m -> frame_but l m.
Proof. intros H h. apply preserved_preserved_but, H. Qed.

(** What is done to a new object is not done to the store it was
    allocated in. *)
Lemma frame_alloc_bind (o : obj) (f : nat -> M B) :
  (forall l, frame_but l (f l)) -> frame (bind (alloc o) f).
Proof.
  intros Hf h l o' Hl. unfold bind, alloc.
  apply (Hf (length h) (h ++ [o])).
  - apply lookup_lt_Some in Hl. lia.
  - rewrite lookup_app_l; [exact Hl | now apply lookup_lt_Some in Hl].
Qed.

Lemma bind_assoc {C : Type} (m : M A) (f : A -> M B) (g : B -> M C) (h : heap) :
  bind (bind m f) g h = bind m (fun a => bind (f a) g) h.
Proof. unfold bind. now destruct (m h) as [[a|e] h1]. Qed.
End Frames.

Lemma frame_alloc (o : obj) : frame (alloc o).
Proof.
  intros h l o' Hl. unfold alloc. simpl.
  rewrite lookup_app_l; [exact Hl | now apply lookup_lt_Some in Hl].
Qed.

Lemma frame_load (l : nat) : frame (load l).
Proof. intros h. unfold load. destruct (h !! l); apply preserved_refl. Qed.

Lemma frame_but_store (l : nat) (o : obj) : frame_but l (store l o).
Proof.
  intros h i o' Hi Hl. unfold store. simpl.
  rewrite list_lookup_insert_ne; [exact Hl | congruence].
Qed.

Lemma frame_load_dict (l : nat) : frame (load_dict l).
Proof.
  apply frame_bind; [apply frame_load |].
  intros [e|i]; [apply frame_ret | apply frame_raise].
Qed.

Lemma frame_is_dict (v : hval) : frame (is_dict v).
Proof.
  destruct v; try apply frame_ret.
  apply frame_bind; [apply frame_load | intros o; apply frame_ret].
Qed.

Lemma frame_get (d : nat) (k : string) : frame (get d k).
Proof.
  apply frame_bind; [apply frame_load_dict | intros e; apply frame_ret].
Qed.

Lemma frame_contains (d : nat) (k : string) : frame (contains d k).
Proof.
  apply frame_bind; [apply frame_load_dict | intros e; apply frame_ret].
Qed.

Lemma frame_item (d : nat) (k : string) : frame (item d k).
Proof.
  apply frame_bind; [apply frame_load_dict |].
  intros e. destruct (dict_get k e); [apply frame_ret | apply frame_raise].
Qed.

Lemma frame_get_is (d : nat) (k s : string) : frame (get_is d k s).
Proof.
  apply frame_bind; [apply frame_get | intros v; apply frame_ret].
Qed.

Lemma frame_in_valid_types (v : hval) : frame (in_valid_types v).
Proof. destruct v; first [apply frame_ret | apply frame_raise]. Qed.

Lemma frame_but_set_item (d : nat) (k : string) (v : hval) :
  frame_but d (set_item d k v).
Proof.
  apply frame_but_bind; [apply frame_frame_but, frame_load_dict |].
  intros e. apply frame_but_store.
Qed.

Lemma frame_comp (rec : hval -> M hval) (d : list (string * hval)) :
  (forall v, frame (rec v)) -> frame (comp rec d).
Proof.
  intros Hrec. induction d as [|[k v] d IH]; simpl; [apply frame_ret |].
  apply frame_bind; [apply Hrec |]. intros v'.
  apply frame_bind; [exact IH |]. intros d'. apply frame_ret.
Qed.

Create HintDb frames.
#[local] Hint Resolve frame_ret frame_raise frame_alloc frame_load
  frame_load_dict frame_is_dict frame_get frame_contains frame_item
  frame_get_is frame_in_valid_types frame_comp : frames.
#[local] Hint Resolve frame_but_set_item frame_but_store : frames.

(** Goes through a computation: the reads and the allocations leave the
    store as it is, the assignments are to [l]. *)
Ltac frames :=
  repeat first
    [ progress auto with frames
    | apply frame_frame_but; solve [auto with frames]
    | apply frame_but_bind; [| intros ?]
    | apply frame_bind; [| intros ?]
    | match goal with
      | |- frame_but _ (if ?b then _ else _) => destruct b
      | |- frame (if ?b then _ else _) => destruct b
      | |- frame_but _ (match ?x with _ => _ end) => destruct x
      | |- frame (match ?x with _ => _ end) => destruct x
      end ].

Lemma frame_but_ensure_type (result : nat) : frame_but result (ensure_type result).
Proof. unfold ensure_type. frames. Qed.

Lemma frame_but_set_default (d : nat) (k : string) (o : obj) :
  frame_but d (set_default d k o).
Proof. unfold set_default. frames. Qed.

Lemma frame_but_complete_object (rec : hval -> M hval) (result : nat) :
  (forall v, frame (rec v)) -> frame_but result (complete_object rec result).
Proof.
  intros Hrec. pose proof frame_but_set_default as Hd.
  unfold complete_object. frames.
Qed.

Lemma frame_but_normalize_items (rec : hval -> M hval) (result : nat) :
  (forall v, frame (rec v)) -> frame_but result (normalize_items rec result).
Proof. intros Hrec. unfold normalize_items. frames. Qed.

Lemma frame_but_normalize_additional (rec : hval -> M hval) (result : nat) :
  (forall v, frame (rec v)) -> frame_but result (normalize_additional rec result).
Proof. intros Hrec. unfold normalize_additional. frames. Qed.

(** All the assignments of the body are to the copy it starts with. *)
Lemma frame_normalize_body (rec : hval -> M hval) (schema : hval) :
  (forall v, frame (rec v)) -> frame (normalize_body rec schema).
Proof.
  intros Hrec. unfold normalize_body.
  apply frame_bind; [apply frame_is_dict |]. intros b.
  destruct (negb b); [apply frame_ret |].
  destruct schema as [| | | | |src]; try apply frame_ret.
  unfold copy_dict. intros h. rewrite bind_assoc. revert h.
  apply frame_bind; [apply frame_load_dict |]. intros e.
  apply frame_alloc_bind. intros result.
  apply frame_but_bind; [apply frame_but_ensure_type |]. intros _.
  apply frame_but_bind; [now apply frame_but_complete_object |]. intros _.
  apply frame_but_bind; [now apply frame_but_normalize_items |]. intros _.
  apply frame_but_bind; [now apply frame_but_normalize_additional |]. intros _.
  apply frame_frame_but, frame_ret.
Qed.

Lemma frame_normalize_fuel (fuel : nat) :
  forall schema, frame (normalize_fuel fuel schema).
Proof.
  induction fuel as [|fuel IH]; intros schema; simpl;
    [apply frame_raise | now apply frame_normalize_body].
Qed.

(** An induction principle that reaches the values in lists and dicts. *)
Lemma value_nested_ind (P : value -> Prop) :
  P VNone -> (forall b, P (VBool b)) -> (forall n, P (VInt n)) ->
  (forall bits, P (VFloat bits)) -> (forall s, P (VStr s)) ->
  (forall items, Forall P items -> P (VList items)) ->
  (forall entries, Forall (fun kv => P kv.2) entries -> P (VDict entries)) ->
  forall v, P v.
Proof.
  intros HN HB HI HF HS HL HD. fix IH 1.
  intros [| b | n | bits | s | items | entries];
    [exact HN | apply HB | apply HI | apply HF | apply HS | |].
  - apply HL. induction items as [|x items IHl]; constructor; [apply IH | exact IHl].
  - apply HD. induction entries as [|[k x] entries IHl]; constructor;
      [apply IH | exact IHl].
Qed.

Lemma repr_in_dict (P : nat -> Prop) (h : heap) (d : list (string * value))
    (hv : hval) :
  repr_in P h (VDict d) hv <->
  exists l hd, hv = HRef l /\ P l /\ h !! l = Some (ODict hd) /\
               entries_rel P h d hd.
Proof.
  assert (E : forall hd,
             (fix all (es : list (string * value)) (hes : list (string * hval))
                : Prop :=
                match es, hes with
                | [], [] => True
                | e :: es', he :: hes' =>
                    e.1 = he.1 /\ repr_in P h e.2 he.2 /\ all es' hes'
                | _, _ => False
                end) d hd <-> entries_rel P h d hd).
  { unfold entries_rel. induction d as [|e d IH]; intros [|he hd].
    - split; [constructor | easy].
    - split; [easy | intros H; inversion H].
    - split; [easy | intros H; inversion H].
    - rewrite IH. split.
      + intros (H0 & H1 & H2). now constructor.
      + intros H. inversion H as [|? ? ? ? [H0 H1] H2]; subst. easy. }
  simpl. split; intros (l & hd & Hv & HP & Hl & Hall); exists l, hd;
    repeat split; try assumption; now apply E.
Qed.

Lemma repr_in_list (P : nat -> Prop) (h : heap) (items : list value) (hv : hval) :
  repr_in P h (VList items) hv <->
  exists l hitems, hv = HRef l /\ P l /\ h !! l = Some (OList hitems) /\
                   Forall2 (repr_in P h) items hitems.
Proof.
  assert (E : forall hitems,
             (fix all (vs : list value) (hvs : list hval) : Prop :=
                match vs, hvs with
                | [], [] => True
                | v' :: vs', hv' :: hvs' => repr_in P h v' hv' /\ all vs' hvs'
                | _, _ => False
                end) items hitems <-> Forall2 (repr_in P h) items hitems).
  { induction items as [|x items IH]; intros [|hx hitems].
    - split; [constructor | easy].
    - split; [easy | intros H; inversion H].
    - split; [easy | intros H; inversion H].
    - rewrite IH. split.
      + intros (H1 & H2). now constructor.
      + intros H. inversion H; subst. easy. }
  simpl. split; intros (l & hitems & Hv & HP & Hl & Hall); exists l, hitems;
    repeat split; try assumption; now apply E.
Qed.

(** A representation goes with the objects it is made of: it holds in
    every store that has them, and for every wider set of addresses. *)
Lemma repr_in_mono (P Q : nat -> Prop) (h h' : heap) :
  (forall l o, P l -> h !! l = Some o -> Q l /\ h' !! l = Some o) ->
  forall v hv, repr_in P h v hv -> repr_in Q h' v hv.
Proof.
  intros Hp v. induction v as [| | | | | items IHv | entries IHv]
    using value_nested_ind; intros hv; try (simpl; easy).
  - rewrite !repr_in_list. intros (l & hitems & -> & HP & Hl & Hall).
    destruct (Hp l _ HP Hl) as [HQ Hl']. exists l, hitems.
    repeat split; try assumption.
    clear Hl Hl'. revert hitems Hall.
    induction IHv as [|x items Hx _ IHl]; intros hitems Hall;
      inversion Hall; subst; constructor; [now apply Hx | now apply IHl].
  - rewrite !repr_in_dict. intros (l & hd & -> & HP & Hl & Hall).
    destruct (Hp l _ HP Hl) as [HQ Hl']. exists l, hd.
    repeat split; try assumption.
    clear Hl Hl'. revert hd Hall. unfold entries_rel.
    induction IHv as [|x entries Hx _ IHl]; intros hd Hall;
      inversion Hall as [|? ? ? ? [H0 H1] H2]; subst; constructor;
      [split; [exact H0 | now apply Hx] | now apply IHl].
Qed.

(** A value that is represented in a store is represented, by the same
    heap value, in every store that keeps the objects of the first. *)
Lemma repr_preserved (h h' : heap) :
  preserved h h' -> forall v hv, repr h v hv -> repr h' v hv.
Proof.
  intros Hp. apply repr_in_mono. intros l o _ Hl. split; [exact I | now apply Hp].
Qed.

(** ** The store model does what the pure model does *)

Lemma bind_ok {A B : Type} (m : M A) (f : A -> M B) (h h1 : heap) (a : A) :
  m h = (Ok a, h1) -> bind m f h = f a h1.
Proof. unfold bind. now intros ->. Qed.

Lemma bind_err {A B : Type} (m : M A) (f : A -> M B) (h h1 : heap) (e : exn) :
  m h = (Err e, h1) -> bind m f h = (Err e, h1).
Proof. unfold bind. now intros ->. Qed.

(** *** The operations on a dict object *)

Section DictObject.
Context (h : heap) (d : nat) (hd : list (string * hval)).
Hypothesis Hd : h !! d = Some (ODict hd).

Lemma load_dict_at : load_dict d h = (Ok hd, h).
Proof. unfold load_dict, bind, load. now rewrite Hd. Qed.

Lemma contains_at (k : string) : contains d k h = (Ok (dict_in k hd), h).
Proof. unfold contains. now rewrite (bind_ok _ _ _ _ _ load_dict_at). Qed.

Lemma get_at (k : string) : get d k h = (Ok (dict_get k hd), h).
Proof. unfold get. now rewrite (bind_ok _ _ _ _ _ load_dict_at). Qed.

Lemma item_at (k : string) (v : hval) :
  dict_get k hd = Some v -> item d k h = (Ok v, h).
Proof.
  intros Hk. unfold item. rewrite (bind_ok _ _ _ _ _ load_dict_at). now rewrite Hk.
Qed.

Lemma set_item_at (k : string) (v : hval) :
  set_item d k v h = (Ok tt, <[d := ODict (dict_set k v hd)]> h).
Proof. unfold set_item. now rewrite (bind_ok _ _ _ _ _ load_dict_at). Qed.

Lemma get_is_at (k s : string) :
  get_is d k s h =
  (Ok (match dict_get k hd with
       | Some (HStr s') => String.eqb s' s
       | _ => false
       end), h).
Proof. unfold get_is. now rewrite (bind_ok _ _ _ _ _ (get_at k)). Qed.
End DictObject.

(** *** Entries that stand for entries *)

Section EntriesRel.
Context (P : nat -> Prop) (h : heap).

Lemma entries_rel_get (k : string) (d : list (string * value))
    (hd : list (string * hval)) :
  entries_rel P h d hd ->
  match dict_get k d, dict_get k hd with
  | Some v, Some hv => repr_in P h v hv
  | None, None => True
  | _, _ => False
  end.
Proof.
  induction 1 as [|[k1 v] [k2 hv] d hd [Hk Hv] _ IH]; simpl; [exact I |].
  simpl in Hk. subst k2. now destruct (String.eqb k k1).
Qed.

Lemma entries_rel_in (k : string) (d : list (string * value))
    (hd : list (string * hval)) :
  entries_rel P h d hd -> dict_in k hd = dict_in k d.
Proof.
  intros H. apply (entries_rel_get k) in H. unfold dict_in.
  now destruct (dict_get k d), (dict_get k hd).
Qed.

Lemma entries_rel_set (k : string) (v : value) (hv : hval)
    (d : list (string * value)) (hd : list (string * hval)) :
  entries_rel P h d hd -> repr_in P h v hv ->
  entries_rel P h (dict_set k v d) (dict_set k hv hd).
Proof.
  intros H Hv. induction H as [|[k1 v1] [k2 hv1] d hd [Hk Hv1] Hrest IH]; simpl.
  - now repeat constructor.
  - simpl in Hk. subst k2. destruct (String.eqb k k1); now constructor.
Qed.
End EntriesRel.

Lemma entries_rel_mono (P Q : nat -> Prop) (h h' : heap)
    (d : list (string * value)) (hd : list (string * hval)) :
  (forall l o, P l -> h !! l = Some o -> Q l /\ h' !! l = Some o) ->
  entries_rel P h d hd -> entries_rel Q h' d hd.
Proof.
  intros Hp. induction 1 as [|e he d hd [Hk Hv] _ IH]; constructor; [| exact IH].
  split; [exact Hk | now apply (repr_in_mono P Q h h' Hp)].
Qed.

(** *** The tests on a heap value *)

Lemma is_dict_repr (P : nat -> Prop) (h : heap) (v : value) (hv : hval) :
  repr_in P h v hv -> is_dict hv h = (Ok (pure_is_dict v), h).
Proof.
  destruct v; simpl; try (now intros ->).
  - intros (l & hitems & -> & _ & Hl & _). simpl. unfold bind, load. now rewrite Hl.
  - intros (l & hd & -> & _ & Hl & _). simpl. unfold bind, load. now rewrite Hl.
Qed.

Lemma in_valid_types_repr (P : nat -> Prop) (h : heap) (v : value) (hv : hval) :
  repr_in P h v hv -> in_valid_types hv h = (pure_in_valid_types v, h).
Proof.
  destruct v; simpl; try (now intros ->).
  - now intros (l & hitems & -> & _).
  - now intros (l & hd & -> & _).
Qed.

Lemma eq_str_repr (P : nat -> Prop) (h : heap) (v : value) (hv : hval)
    (s : string) :
  repr_in P h v hv ->
  match hv with HStr s' => String.eqb s' s | _ => false end = eq_str v s.
Proof.
  destruct v; simpl; try (now intros ->).
  - now intros (l & hitems & -> & _).
  - now intros (l & hd & -> & _).
Qed.

(** *** The steps, on the copy at [R]

    [Q] holds of the addresses the entries of the copy are made of: not
    [R] itself, and all that are allocated after it. *)

Section Steps.
Context (Q : nat -> Prop) (R : nat).
Hypothesis Qavoid : forall l, Q l -> l <> R.
Hypothesis Qfresh : forall l, R < l -> Q l.

Lemma dict_at_length (d : list (string * value)) (h : heap) :
  dict_at Q h R d -> R < length h.
Proof. intros (hd & Hl & _). now apply lookup_lt_Some in Hl. Qed.

Lemma repr_Q_preserved (h h' : heap) (v : value) (hv : hval) :
  preserved h h' -> repr_in Q h v hv -> repr_in Q h' v hv.
Proof.
  intros Hp. apply repr_in_mono. intros l o Hq Hl. split; [exact Hq | now apply Hp].
Qed.

Lemma entries_Q_preserved (h h' : heap) (d : list (string * value))
    (hd : list (string * hval)) :
  preserved h h' -> entries_rel Q h d hd -> entries_rel Q h' d hd.
Proof.
  intros Hp. apply entries_rel_mono. intros l o Hq Hl.
  split; [exact Hq | now apply Hp].
Qed.

Lemma dict_at_preserved (h h' : heap) (d : list (string * value)) :
  preserved h h' -> dict_at Q h R d -> dict_at Q h' R d.
Proof.
  intros Hp (hd & Hl & Hrel). exists hd.
  split; [now apply Hp | now apply (entries_Q_preserved h)].
Qed.

Lemma set_item_refines (d : list (string * value)) (h : heap) (k : string)
    (v : value) (hv : hval) :
  dict_at Q h R d -> repr_in Q h v hv ->
  exists h', set_item R k hv h = (Ok tt, h') /\
             dict_at Q h' R (dict_set k v d) /\
             length h' = length h /\
             forall x hx, repr_in Q h x hx -> repr_in Q h' x hx.
Proof.
  intros (hd & Hl & Hrel) Hv.
  exists (<[R := ODict (dict_set k hv hd)]> h).
  assert (Hkeep : forall l o, Q l -> h !! l = Some o ->
                    Q l /\ <[R := ODict (dict_set k hv hd)]> h !! l = Some o).
  { intros l o Hq Ho. split; [exact Hq |].
    rewrite list_lookup_insert_ne; [exact Ho |]. apply Qavoid in Hq. congruence. }
  split; [now apply set_item_at |]. split; [| split].
  - exists (dict_set k hv hd). split.
    + apply list_lookup_insert_eq. now apply lookup_lt_Some in Hl.
    + apply (entries_rel_mono Q Q h); [exact Hkeep |].
      now apply entries_rel_set.
  - apply length_insert.
  - intros x hx. now apply repr_in_mono.
Qed.

Lemma ensure_type_refines (d : list (string * value)) (h : heap) :
  dict_at Q h R d -> step_refines Q R (pure_ensure_type d) (ensure_type R) h.
Proof.
  intros Hd. pose proof Hd as (hd & Hl & Hrel).
  assert (Hset : forall t,
             exists h', set_item R "type" (HStr t) h = (Ok tt, h') /\
                        dict_at Q h' R (dict_set "type" (VStr t) d)).
  { intros t. destruct (set_item_refines d h "type" (VStr t) (HStr t) Hd eq_refl)
      as (h' & H1 & H2 & _). eauto. }
  unfold step_refines, pure_ensure_type, ensure_type.
  rewrite (bind_ok _ _ _ _ _ (contains_at h R hd Hl "type")).
  rewrite (entries_rel_in Q h "type" d hd Hrel).
  destruct (dict_in "type" d) eqn:Et; simpl.
  - pose proof (entries_rel_get Q h "type" d hd Hrel) as Hty.
    unfold dict_item. apply dict_in_true in Et as [ty Ety]. rewrite Ety in *.
    destruct (dict_get "type" hd) as [hty|] eqn:Ehty; [| easy]. simpl.
    rewrite (bind_ok _ _ _ _ _ (item_at h R hd Hl "type" hty Ehty)).
    pose proof (in_valid_types_repr Q h ty hty Hty) as Hiv.
    destruct (pure_in_valid_types ty) as [valid|e]; simpl.
    + rewrite (bind_ok _ _ _ _ _ Hiv).
      destruct (negb valid); [apply Hset | exists h; split; [reflexivity | exact Hd]].
    + rewrite (bind_err _ _ _ _ _ Hiv). eauto.
  - rewrite (bind_ok _ _ _ _ _ (contains_at h R hd Hl "properties")).
    rewrite (entries_rel_in Q h "properties" d hd Hrel).
    destruct (dict_in "properties" d); simpl.
    { rewrite (bind_ok _ _ h h true) by reflexivity. apply Hset. }
    rewrite (bind_ok _ _ _ _ _ (contains_at h R hd Hl "additionalProperties")).
    rewrite (entries_rel_in Q h "additionalProperties" d hd Hrel).
    destruct (dict_in "additionalProperties" d); simpl; [apply Hset |].
    rewrite (bind_ok _ _ _ _ _ (contains_at h R hd Hl "items")).
    rewrite (entries_rel_in Q h "items" d hd Hrel).
    destruct (dict_in "items" d); simpl; [apply Hset |].
    rewrite (bind_ok _ _ _ _ _ (contains_at h R hd Hl "enum")).
    rewrite (entries_rel_in Q h "enum" d hd Hrel).
    destruct (dict_in "enum" d); simpl; [| apply Hset].
    exists h. split; [reflexivity | exact Hd].
Qed.

Lemma get_is_refines (d : list (string * value)) (h : heap) (k s : string) :
  dict_at Q h R d -> get_is R k s h = (Ok (pure_get_is k d s), h).
Proof.
  intros (hd & Hl & Hrel). rewrite (get_is_at h R hd Hl). unfold pure_get_is.
  pose proof (entries_rel_get Q h k d hd Hrel) as Hk.
  destruct (dict_get k d) as [v|], (dict_get k hd) as [hv|]; try easy.
  now rewrite (eq_str_repr Q h v hv s Hk).
Qed.

Lemma set_default_refines (d : list (string * value)) (h : heap) (k : string)
    (v : value) (o : obj) :
  (forall h0, R < length h0 -> repr_in Q (h0 ++ [o]) v (HRef (length h0))) ->
  dict_at Q h R d ->
  exists h', set_default R k o h = (Ok tt, h') /\
             dict_at Q h' R (if negb (dict_in k d) then dict_set k v d else d).
Proof.
  intros Hnew Hd. pose proof Hd as (hd & Hl & Hrel). unfold set_default.
  rewrite (bind_ok _ _ _ _ _ (contains_at h R hd Hl k)).
  rewrite (entries_rel_in Q h k d hd Hrel).
  destruct (dict_in k d); simpl; [exists h; split; [reflexivity | exact Hd] |].
  rewrite (bind_ok _ _ h (h ++ [o]) (length h)) by reflexivity.
  destruct (set_item_refines d (h ++ [o]) k v (HRef (length h)))
    as (h' & H1 & H2 & _).
  - apply (dict_at_preserved h); [apply (frame_alloc o h) | exact Hd].
  - apply Hnew. now apply (dict_at_length d).
  - eauto.
Qed.

Lemma new_dict_repr (h0 : heap) (p : list (string * value))
    (hp : list (string * hval)) :
  R < length h0 -> entries_rel Q h0 p hp ->
  repr_in Q (h0 ++ [ODict hp]) (VDict p) (HRef (length h0)).
Proof.
  intros Hlen Hrel. apply repr_in_dict. exists (length h0), hp.
  repeat split; [now apply Qfresh | |].
  - rewrite lookup_app_r, Nat.sub_diag by lia. reflexivity.
  - apply (entries_Q_preserved h0); [apply (frame_alloc (ODict hp) h0) | exact Hrel].
Qed.

Lemma new_list_repr (h0 : heap) :
  R < length h0 -> repr_in Q (h0 ++ [OList []]) (VList []) (HRef (length h0)).
Proof.
  intros Hlen. apply repr_in_list. exists (length h0), [].
  repeat split; [now apply Qfresh | | constructor].
  rewrite lookup_app_r, Nat.sub_diag by lia. reflexivity.
Qed.

(** *** The recursive calls *)

Context (rec : value -> res value) (hrec : hval -> M hval).
Hypothesis Hrefines : refines rec hrec.
Hypothesis Hframe : forall v, frame (hrec v).

Lemma rec_call (h : heap) (v : value) (hv : hval) :
  R < length h -> repr_in Q h v hv ->
  match rec v with
  | Ok v' => exists hv' h', hrec hv h = (Ok hv', h') /\ preserved h h' /\
                            repr_in Q h' v' hv'
  | Err e => exists h', hrec hv h = (Err e, h') /\ preserved h h'
  end.
Proof.
  intros Hlen Hv. pose proof (Hrefines Q h v hv Hv) as H.
  pose proof (Hframe hv h) as Hp.
  destruct (rec v) as [v'|e].
  - destruct H as (hv' & h' & E & Hr). rewrite E in Hp. exists hv', h'.
    repeat split; [exact E | exact Hp |].
    revert Hr. apply repr_in_mono.
    intros l o [Hq | Hge] Hl; (split; [| exact Hl]); [exact Hq |].
    apply Qfresh. lia.
  - destruct H as (h' & E). rewrite E in Hp. eauto.
Qed.

Lemma comp_refines (p : list (string * value)) (hp : list (string * hval)) :
  forall h,
    R < length h -> entries_rel Q h p hp ->
    match dict_comp rec p with
    | Ok p' => exists hp' h', comp hrec hp h = (Ok hp', h') /\ preserved h h' /\
                              entries_rel Q h' p' hp'
    | Err e => exists h', comp hrec hp h = (Err e, h') /\ preserved h h'
    end.
Proof.
  intros h Hlen Hrel. revert h Hlen Hrel.
  revert hp. induction p as [|[k v] p IH]; intros hp h Hlen Hrel;
    inversion Hrel as [|? [k' hv] ? hp' [Hk Hv] Hrest]; subst; simpl in *.
  - exists [], h. repeat split; [apply preserved_refl | constructor].
  - subst k'. pose proof (rec_call h v hv Hlen Hv) as Hcall.
    destruct (rec v) as [v'|e]; simpl.
    2:{ destruct Hcall as (h1 & E & Hp). exists h1.
        now rewrite (bind_err _ _ _ _ _ E). }
    destruct Hcall as (hv' & h1 & E & Hp1 & Hv').
    rewrite (bind_ok _ _ _ _ _ E).
    assert (Hlen1 : R < length h1) by (apply preserved_length in Hp1; lia).
    specialize (IH hp' h1 Hlen1 (entries_Q_preserved h h1 p hp' Hp1 Hrest)).
    destruct (dict_comp rec p) as [p'|e]; simpl.
    2:{ destruct IH as (h2 & E2 & Hp2). exists h2.
        rewrite (bind_err _ _ _ _ _ E2). split; [reflexivity |].
        now apply (preserved_trans h h1 h2). }
    destruct IH as (hp'' & h2 & E2 & Hp2 & Hrel2).
    rewrite (bind_ok _ _ _ _ _ E2).
    exists ((k, hv') :: hp''), h2. repeat split.
    + now apply (preserved_trans h h1 h2).
    + constructor; [| exact Hrel2].
      split; [reflexivity | now apply (repr_Q_preserved h1 h2)].
Qed.

Lemma complete_object_refines (d : list (string * value)) (h : heap) :
  dict_at Q h R d ->
  step_refines Q R (pure_complete_object rec d) (complete_object hrec R) h.
Proof.
  intros Hd. rewrite complete_object_unfold. unfold step_refines, complete_object.
  rewrite (bind_ok _ _ _ _ _ (get_is_refines d h "type" "object" Hd)).
  destruct (pure_get_is "type" d "object");
    [| exists h; split; [reflexivity | exact Hd]].
  destruct (set_default_refines d h "properties" (VDict []) (ODict []))
    as (h1 & E1 & Hd1); [| exact Hd |].
  { intros h0 Hlen. apply new_dict_repr; [exact Hlen | constructor]. }
  rewrite (bind_ok _ _ _ _ _ E1).
  destruct (set_default_refines _ h1 "required" (VList []) (OList [])
              new_list_repr Hd1) as (h2 & E2 & Hd2).
  rewrite (bind_ok _ _ _ _ _ E2).
  change (dict_at Q h2 R (with_defaults d)) in Hd2.
  pose proof Hd2 as (hd2 & Hl2 & Hrel2).
  pose proof (dict_at_length _ _ Hd2) as Hlen2.
  rewrite (bind_ok _ _ _ _ _ (get_at h2 R hd2 Hl2 "properties")).
  pose proof (entries_rel_get Q h2 "properties" _ _ Hrel2) as Hp.
  destruct (dict_get "properties" (with_defaults d)) as [pv|],
    (dict_get "properties" hd2) as [hpv|] eqn:Ehpv; try easy.
  2:{ rewrite (bind_ok _ _ h2 h2 false) by reflexivity.
      exists h2. split; [reflexivity | exact Hd2]. }
  rewrite (bind_ok _ _ _ _ _ (is_dict_repr Q h2 pv hpv Hp)).
  destruct pv as [| | | | | |props];
    try (exists h2; split; [reflexivity | exact Hd2]).
  cbn [pure_is_dict].
  rewrite (bind_ok _ _ _ _ _ (item_at h2 R hd2 Hl2 "properties" hpv Ehpv)).
  apply repr_in_dict in Hp as (p & hp & -> & _ & Hlp & Hrelp).
  rewrite (bind_ok _ _ _ _ _ (load_dict_at h2 p hp Hlp)).
  pose proof (comp_refines props hp h2 Hlen2 Hrelp) as Hc.
  destruct (dict_comp rec props) as [props'|e]; simpl.
  2:{ destruct Hc as (h3 & E3 & _). rewrite (bind_err _ _ _ _ _ E3). eauto. }
  destruct Hc as (hp' & h3 & E3 & Hp3 & Hrel3).
  rewrite (bind_ok _ _ _ _ _ E3).
  rewrite (bind_ok _ _ h3 (h3 ++ [ODict hp']) (length h3)) by reflexivity.
  assert (Hlen3 : R < length h3) by (apply preserved_length in Hp3; lia).
  destruct (set_item_refines (with_defaults d) (h3 ++ [ODict hp']) "properties"
              (VDict props') (HRef (length h3))) as (h4 & E4 & Hd4 & _).
  - apply (dict_at_preserved h2); [| exact Hd2].
    apply (preserved_trans h2 h3); [exact Hp3 | apply (frame_alloc (ODict hp') h3)].
  - now apply new_dict_repr.
  - eauto.
Qed.

Lemma normalize_items_refines (d : list (string * value)) (h : heap) :
  dict_at Q h R d ->
  step_refines Q R (pure_normalize_items rec d) (normalize_items hrec R) h.
Proof.
  intros Hd. pose proof Hd as (hd & Hl & Hrel).
  pose proof (dict_at_length _ _ Hd) as Hlen.
  unfold step_refines, pure_normalize_items, normalize_items.
  rewrite (bind_ok _ _ _ _ _ (get_is_refines d h "type" "array" Hd)).
  destruct (pure_get_is "type" d "array"); simpl.
  2:{ rewrite (bind_ok _ _ h h false) by reflexivity.
      exists h. split; [reflexivity | exact Hd]. }
  rewrite (bind_ok _ _ _ _ _ (contains_at h R hd Hl "items")).
  rewrite (entries_rel_in Q h "items" d hd Hrel).
  pose proof (entries_rel_get Q h "items" d hd Hrel) as Hi.
  unfold dict_item, dict_in.
  destruct (dict_get "items" d) as [v|], (dict_get "items" hd) as [hv|] eqn:Ehv;
    try easy; [| exists h; split; [reflexivity | exact Hd]].
  simpl. rewrite (bind_ok _ _ _ _ _ (item_at h R hd Hl "items" hv Ehv)).
  pose proof (rec_call h v hv Hlen Hi) as Hc.
  destruct (rec v) as [v'|e]; simpl.
  2:{ destruct Hc as (h1 & E1 & _). rewrite (bind_err _ _ _ _ _ E1). eauto. }
  destruct Hc as (hv' & h1 & E1 & Hp1 & Hv').
  rewrite (bind_ok _ _ _ _ _ E1).
  destruct (set_item_refines d h1 "items" v' hv') as (h2 & E2 & Hd2 & _);
    [now apply (dict_at_preserved h) | exact Hv' | eauto].
Qed.

Lemma normalize_additional_refines (d : list (string * value)) (h : heap) :
  dict_at Q h R d ->
  step_refines Q R (pure_normalize_additional rec d)
    (normalize_additional hrec R) h.
Proof.
  intros Hd. pose proof Hd as (hd & Hl & Hrel).
  pose proof (dict_at_length _ _ Hd) as Hlen.
  unfold step_refines, pure_normalize_additional, normalize_additional.
  rewrite (bind_ok _ _ _ _ _ (get_at h R hd Hl "additionalProperties")).
  pose proof (entries_rel_get Q h "additionalProperties" d hd Hrel) as Ha.
  destruct (dict_get "additionalProperties" d) as [v|],
    (dict_get "additionalProperties" hd) as [hv|] eqn:Ehv; try easy.
  2:{ rewrite (bind_ok _ _ h h false) by reflexivity.
      exists h. split; [reflexivity | exact Hd]. }
  rewrite (bind_ok _ _ _ _ _ (is_dict_repr Q h v hv Ha)).
  destruct v as [| | | | | |ap];
    try (exists h; split; [reflexivity | exact Hd]).
  cbn [pure_is_dict].
  rewrite (bind_ok _ _ _ _ _ (item_at h R hd Hl "additionalProperties" hv Ehv)).
  pose proof (rec_call h (VDict ap) hv Hlen Ha) as Hc.
  destruct (rec (VDict ap)) as [v'|e]; simpl.
  2:{ destruct Hc as (h1 & E1 & _). rewrite (bind_err _ _ _ _ _ E1). eauto. }
  destruct Hc as (hv' & h1 & E1 & Hp1 & Hv').
  rewrite (bind_ok _ _ _ _ _ E1).
  destruct (set_item_refines d h1 "additionalProperties" v' hv')
    as (h2 & E2 & Hd2 & _);
    [now apply (dict_at_preserved h) | exact Hv' | eauto].
Qed.

End Steps.

(** *** The body and the recursion *)

Lemma copy_dict_at (h : heap) (src : nat) (hd : list (string * hval)) :
  h !! src = Some (ODict hd) ->
  copy_dict src h = (Ok (length h), h ++ [ODict hd]).
Proof.
  intros Hl. unfold copy_dict. now rewrite (bind_ok _ _ _ _ _ (load_dict_at h src hd Hl)).
Qed.

Lemma normalize_body_refines (rec : value -> res value) (hrec : hval -> M hval) :
  refines rec hrec -> (forall v, frame (hrec v)) ->
  refines (pure_normalize_body rec) (normalize_body hrec).
Proof.
  intros Href Hframe P h v hv Hv. unfold normalize_body.
  rewrite (bind_ok _ _ _ _ _ (is_dict_repr P h v hv Hv)).
  assert (Hsame : repr_in (fun l => P l \/ length h <= l) h v hv).
  { revert Hv. apply repr_in_mono. intros l o HP Hl. now split; [left |]. }
  destruct v as [| | | | | |e]; try (exists hv, h; split; [reflexivity | exact Hsame]).
  clear Hsame. cbn [pure_is_dict negb].
  apply repr_in_dict in Hv as (src & hsrc & -> & HP & Hl & Hrel).
  rewrite (bind_ok _ _ _ _ _ (copy_dict_at h src hsrc Hl)).
  set (R := length h).
  set (Q := fun l => (P l /\ l < R) \/ R < l).
  assert (Qavoid : forall l, Q l -> l <> R) by (unfold Q; intros l [[_ H] | H]; lia).
  assert (Qfresh : forall l, R < l -> Q l) by (unfold Q; intros l H; now right).
  assert (Hd1 : dict_at Q (h ++ [ODict hsrc]) R e).
  { exists hsrc. split.
    - unfold R. rewrite lookup_app_r, Nat.sub_diag by lia. reflexivity.
    - revert Hrel. apply entries_rel_mono. intros l o HPl Hlo.
      pose proof (lookup_lt_Some _ _ _ Hlo) as Hlt. split.
      + left. now split.
      + now rewrite lookup_app_l. }
  unfold pure_normalize_body.
  pose proof (ensure_type_refines Q R Qavoid e _ Hd1) as H1.
  unfold step_refines in H1.
  destruct (pure_ensure_type e) as [r1|err]; simpl.
  2:{ destruct H1 as (h' & E). rewrite (bind_err _ _ _ _ _ E). eauto. }
  destruct H1 as (h2 & E1 & Hd2). rewrite (bind_ok _ _ _ _ _ E1).
  pose proof (complete_object_refines Q R Qavoid Qfresh rec hrec Href Hframe
                r1 h2 Hd2) as H2.
  unfold step_refines in H2.
  destruct (pure_complete_object rec r1) as [r2|err]; simpl.
  2:{ destruct H2 as (h' & E). rewrite (bind_err _ _ _ _ _ E). eauto. }
  destruct H2 as (h3 & E2 & Hd3). rewrite (bind_ok _ _ _ _ _ E2).
  pose proof (normalize_items_refines Q R Qavoid Qfresh rec hrec Href Hframe
                r2 h3 Hd3) as H3.
  unfold step_refines in H3.
  destruct (pure_normalize_items rec r2) as [r3|err]; simpl.
  2:{ destruct H3 as (h' & E). rewrite (bind_err _ _ _ _ _ E). eauto. }
  destruct H3 as (h4 & E3 & Hd4). rewrite (bind_ok _ _ _ _ _ E3).
  pose proof (normalize_additional_refines Q R Qavoid Qfresh rec hrec Href Hframe
                r3 h4 Hd4) as H4.
  unfold step_refines in H4.
  destruct (pure_normalize_additional rec r3) as [r4|err]; simpl.
  2:{ destruct H4 as (h' & E). rewrite (bind_err _ _ _ _ _ E). eauto. }
  destruct H4 as (h5 & E4 & (hd5 & Hl5 & Hrel5)). rewrite (bind_ok _ _ _ _ _ E4).
  exists (HRef R), h5. split; [reflexivity |].
  apply repr_in_dict. exists R, hd5.
  repeat split; [right; unfold R; lia | exact Hl5 |].
  revert Hrel5. apply entries_rel_mono. intros l o HQ Hlo.
  split; [| exact Hlo]. destruct HQ as [[HPl _] | Hgt]; [now left | right].
  unfold R in Hgt. lia.
Qed.

Lemma normalize_fuel_refines (fuel : nat) :
  refines (pure_normalize_fuel fuel) (normalize_fuel fuel).
Proof.
  induction fuel as [|fuel IH].
  - intros P h v hv _. simpl. now exists h.
  - apply normalize_body_refines; [exact IH | apply frame_normalize_fuel].
Qed.

End HeapFacts.

(** [C8].  The schema normalizer does not mutate its argument.  Whatever
    the store and the schema, and however far the recursion goes, every
    object of the store is, after the call, the object it was before: so
    is the schema, with every dict and list that can be reached from it,
    and the value it stood for is the value it stands for.  What the
    normalizer adds or replaces is in objects it has allocated. *)
Theorem normalize_does_not_mutate (fuel : nat) (schema : Heap.hval)
    (h : Heap.heap) :
  let h' := (Heap.normalize_fuel fuel schema h).2 in
  Heap.preserved h h' /\
  forall v, Heap.repr h v schema -> Heap.repr h' v schema.
Proof.
  intros h'.
  assert (Heap.preserved h h') as Hp by apply HeapFacts.frame_normalize_fuel.
  split; [exact Hp |].
  intros v. now apply HeapFacts.repr_preserved.
Qed.

Lemma normalize_does_not_mutate_witness :
  let h' := (Heap.normalize_fuel 4 (Heap.HRef 0) sample_store).2 in
  Heap.repr sample_store sample_schema (Heap.HRef 0) /\
  Heap.repr h' sample_schema (Heap.HRef 0) /\
  length h' = 9.
Proof.
  intros h'.
  assert (Hr : Heap.repr sample_store sample_schema (Heap.HRef 0)).
  { simpl. repeat (eexists || split || reflexivity). }
  split; [exact Hr |]. split; [| reflexivity].
  apply (normalize_does_not_mutate 4 (Heap.HRef 0) sample_store).
  exact Hr.
Defined.

(** The call of the witness returns: the result is a new dict, at address
    5, next to the five objects of the store it started from. *)
Example normalize_sample_store :
  Heap.normalize_fuel 4 (Heap.HRef 0) sample_store =
  (Ok (Heap.HRef 5),
   sample_store ++
   [Heap.ODict [("properties", Heap.HRef 8); ("required", Heap.HRef 2);
                ("type", Heap.HStr "object")];
    Heap.ODict [("items", Heap.HRef 7); ("type", Heap.HStr "array")];
    Heap.ODict [("type", Heap.HStr "string")];
    Heap.ODict [("a", Heap.HRef 6)]]).
Proof. reflexivity. Qed.

(** [X24].  The store model is the pure normalizer.  From a heap value
    that stands for [v], with the recursion depth [v] needs, the call
    returns a heap value that stands for [_normalize_schema v], and raises
    when [_normalize_schema v] does; in both cases the argument stands for
    [v] afterwards as it did before. *)
Theorem normalize_on_store (h : Heap.heap) (v : value) (hv : Heap.hval)
    (fuel : nat) :
  Heap.repr h v hv ->
  depth v < fuel ->
  match _normalize_schema v with
  | Ok v' =>
      exists hv' h',
        Heap.normalize_fuel fuel hv h = (Ok hv', h') /\
        Heap.repr h' v' hv' /\ Heap.repr h' v hv
  | Err e =>
      exists h',
        Heap.normalize_fuel fuel hv h = (Err e, h') /\ Heap.repr h' v hv
  end.
Proof.
  intros Hv Hfuel.
  pose proof (HeapFacts.normalize_fuel_refines fuel _ h v hv Hv) as H.
  rewrite (normalize_fuel_enough fuel (S (depth v)) v Hfuel) in H by lia.
  fold (_normalize_schema v) in H.
  assert (Hkeep : Heap.repr (Heap.normalize_fuel fuel hv h).2 v hv).
  { revert Hv. apply HeapFacts.repr_preserved, HeapFacts.frame_normalize_fuel. }
  destruct (_normalize_schema v) as [v'|e].
  - destruct H as (hv' & h' & E & Hr). rewrite E in Hkeep.
    exists hv', h'. repeat split; [exact E | | exact Hkeep].
    revert Hr. apply HeapFacts.repr_in_mono. now intros l o _ Hl.
  - destruct H as (h' & E). rewrite E in Hkeep.
    exists h'. split; [exact E | exact Hkeep].
Qed.

Lemma normalize_on_store_witness :
  exists hv' h',
    Heap.normalize_fuel 5 (Heap.HRef 0) sample_store = (Ok hv', h') /\
    Heap.repr h'
      (VDict [("properties",
               VDict [("a", VDict [("items", VDict [("type", VStr "string")]);
                                   ("type", VStr "array")])]);
              ("required", VList [VStr "a"]);
              ("type", VStr "object")]) hv' /\
    Heap.repr h' sample_schema (Heap.HRef 0).
Proof.
  refine (normalize_on_store sample_store sample_schema (Heap.HRef 0) 5 _ _).
  - simpl. repeat (eexists || split || reflexivity).
  - vm_compute. lia.
Defined.

(** * Further properties *)

(** ** The normalizer: what the result looks like *)

Lemma normalize_dict_inv (e : list (string * value)) (r : value) :
  _normalize_schema (VDict e) = Ok r ->
  exists r1 r2 r3 r4,
    ensure_type e = Ok r1 /\
    complete_object _normalize_schema r1 = Ok r2 /\
    normalize_items _normalize_schema r2 = Ok r3 /\
    normalize_additional _normalize_schema r3 = Ok r4 /\
    r = VDict r4.
Proof.
  rewrite normalize_unfold. unfold normalize_body. intros H.
  destruct (ensure_type e) as [r1|] eqn:E1; simpl in H; [| discriminate].
  destruct (complete_object _ r1) as [r2|] eqn:E2; simpl in H; [| discriminate].
  destruct (normalize_items _ r2) as [r3|] eqn:E3; simpl in H; [| discriminate].
  destruct (normalize_additional _ r3) as [r4|] eqn:E4; simpl in H;
    [| discriminate].
  injection H as <-. exists r1, r2, r3, r4. repeat split; assumption.
Qed.

(** The frames of the four steps, put together. *)
Lemma normalize_frames (e r1 r2 r3 r4 : list (string * value)) :
  ensure_type e = Ok r1 ->
  complete_object _normalize_schema r1 = Ok r2 ->
  normalize_items _normalize_schema r2 = Ok r3 ->
  normalize_additional _normalize_schema r3 = Ok r4 ->
  (forall k, k <> "type" -> dict_get k r1 = dict_get k e) /\
  (forall k, k <> "properties" -> k <> "required" ->
             dict_get k r2 = dict_get k r1) /\
  (forall k, k <> "items" -> dict_get k r3 = dict_get k r2) /\
  (forall k, k <> "additionalProperties" -> dict_get k r4 = dict_get k r3).
Proof.
  intros E1 E2 E3 E4. repeat split; intros.
  - now apply ensure_type_frame.
  - now apply (complete_object_frame _normalize_schema).
  - now apply (normalize_items_frame _normalize_schema).
  - now apply (normalize_additional_frame _normalize_schema).
Qed.

Lemma normalize_result_stable (e r : list (string * value)) :
  _normalize_schema (VDict e) = Ok (VDict r) -> stable _normalize_schema r.
Proof.
  intros H. rewrite normalize_unfold in H.
  apply (normalize_body_stable _ e); [| exact H].
  intros v v' Hv. apply (normalize_idempotent_ok (S (depth v))). lia.
Qed.

(** [X1].  The normalizer deletes no key and moves none: the keys of the
    result are the keys of the schema, in their order, followed by those
    of [type], [properties] and [required] that the schema did not have
    and the normalizer has added, in this order. *)
Theorem normalize_keys (e r : list (string * value)) :
  _normalize_schema (VDict e) = Ok (VDict r) ->
  exists a b c : bool,
    keys r = keys e ++ opt_key a "type" ++ opt_key b "properties" ++
             opt_key c "required" /\
    (a = true -> dict_in "type" e = false) /\
    (b = true -> dict_in "properties" e = false) /\
    (c = true -> dict_in "required" e = false).
Proof.
  intros H. apply normalize_dict_inv in H as (r1 & r2 & r3 & r4 & E1 & E2 & E3 & E4 & [= ->]).
  destruct (normalize_frames e r1 r2 r3 r4 E1 E2 E3 E4) as (F1 & F2 & F3 & F4).
  assert (K1 : exists a, keys r1 = keys e ++ opt_key a "type" /\
                         (a = true -> dict_in "type" e = false)).
  { unfold ensure_type in E1. destruct (dict_in "type" e) eqn:Et; simpl in E1.
    - exists false. split; [| discriminate]. simpl. rewrite ?app_nil_r.
      destruct (dict_item "type" e); simpl in E1; [| discriminate].
      destruct (in_valid_types _); simpl in E1; [| discriminate].
      destruct (negb _); injection E1 as <-; [| reflexivity].
      now rewrite keys_dict_set, Et.
    - repeat match type of E1 with
             | (if ?b then _ else _) = _ => destruct b
             end; injection E1 as <-;
        try (exists true; rewrite keys_dict_set, Et; now split);
        exists false; simpl; rewrite ?app_nil_r; now split. }
  destruct K1 as (a & K1 & Ha).
  assert (K2 : exists b c, keys r2 = keys r1 ++ opt_key b "properties" ++
                                     opt_key c "required" /\
                           (b = true -> dict_in "properties" r1 = false) /\
                           (c = true -> dict_in "required" r1 = false)).
  { rewrite complete_object_unfold in E2.
    destruct (get_is "type" r1 "object").
    2:{ injection E2 as <-. exists false, false. simpl. rewrite ?app_nil_r.
        repeat split; discriminate. }
    assert (Kd : exists b c, keys (with_defaults r1) =
                             keys r1 ++ opt_key b "properties" ++
                             opt_key c "required" /\
                             (b = true -> dict_in "properties" r1 = false) /\
                             (c = true -> dict_in "required" r1 = false)).
    { unfold with_defaults.
      destruct (dict_in "properties" r1) eqn:Ep; simpl.
      - destruct (dict_in "required" r1) eqn:Er; simpl.
        + exists false, false. simpl. rewrite ?app_nil_r.
          repeat split; first [reflexivity | discriminate].
        + exists false, true. rewrite keys_dict_set, Er. simpl.
          repeat split; first [reflexivity | discriminate].
      - rewrite dict_in_set_ne by discriminate.
        destruct (dict_in "required" r1) eqn:Er; simpl.
        + exists true, false. rewrite keys_dict_set, Ep. simpl.
          rewrite ?app_nil_r. repeat split; first [reflexivity | discriminate].
        + exists true, true. rewrite keys_dict_set, dict_in_set_ne, Er by discriminate.
          rewrite keys_dict_set, Ep, <- app_assoc. simpl.
          repeat split; reflexivity. }
    destruct Kd as (b & c & Kd & Hb & Hc). exists b, c.
    split; [| split; assumption].
    destruct (dict_get "properties" (with_defaults r1)) as [[]|] eqn:Ep;
      try (injection E2 as <-; exact Kd).
    destruct (dict_comp _ entries); simpl in E2; [| discriminate].
    injection E2 as <-. rewrite keys_dict_set.
    unfold dict_in. now rewrite Ep. }
  destruct K2 as (b & c & K2 & Hb & Hc).
  assert (K3 : keys r3 = keys r2).
  { unfold normalize_items in E3.
    destruct (get_is "type" r2 "array"); simpl in E3; [| now injection E3 as <-].
    destruct (dict_in "items" r2) eqn:Ei; [| now injection E3 as <-].
    destruct (dict_item "items" r2); simpl in E3; [| discriminate].
    destruct (_normalize_schema _); simpl in E3; [| discriminate].
    injection E3 as <-. now rewrite keys_dict_set, Ei. }
  assert (K4 : keys r4 = keys r3).
  { unfold normalize_additional in E4.
    destruct (dict_get "additionalProperties" r3) as [[]|] eqn:Ea;
      try (now injection E4 as <-).
    destruct (_normalize_schema _); simpl in E4; [| discriminate].
    injection E4 as <-. rewrite keys_dict_set. unfold dict_in. now rewrite Ea. }
  exists a, b, c. rewrite K4, K3, K2, K1, <- app_assoc.
  repeat split; try assumption.
  - intros Hb'. rewrite <- (dict_in_frame "properties" e r1); [now apply Hb |].
    now apply F1.
  - intros Hc'. rewrite <- (dict_in_frame "required" e r1); [now apply Hc |].
    now apply F1.
Qed.

Lemma normalize_keys_witness :
  exists a b c : bool,
    keys [("title", VStr "T"); ("properties", VDict []);
          ("type", VStr "object"); ("required", VList [])] =
    keys [("title", VStr "T"); ("properties", VDict [])] ++
    opt_key a "type" ++ opt_key b "properties" ++ opt_key c "required" /\
    (a = true -> dict_in "type" [("title", VStr "T"); ("properties", VDict [])] = false) /\
    (b = true ->
     dict_in "properties" [("title", VStr "T"); ("properties", VDict [])] = false) /\
    (c = true ->
     dict_in "required" [("title", VStr "T"); ("properties", VDict [])] = false).
Proof.
  exact (normalize_keys [("title", VStr "T"); ("properties", VDict [])] _ eq_refl).
Defined.

(** [X2].  The normalizer passes unrelated fields through: under every key
    but [type], [properties], [required], [items] and
    [additionalProperties], the result has what the schema has, and has
    nothing where the schema has nothing. *)
Theorem normalize_passes_through (e r : list (string * value)) (k : string) :
  _normalize_schema (VDict e) = Ok (VDict r) ->
  ~ In k normalizer_keys ->
  dict_get k r = dict_get k e.
Proof.
  intros H Hk.
  apply normalize_dict_inv in H as (r1 & r2 & r3 & r4 & E1 & E2 & E3 & E4 & [= ->]).
  destruct (normalize_frames e r1 r2 r3 r4 E1 E2 E3 E4) as (F1 & F2 & F3 & F4).
  unfold normalizer_keys in Hk. simpl in Hk.
  rewrite F4, F3, F2, F1; first [reflexivity | intros ->; tauto].
Qed.

Lemma normalize_passes_through_witness :
  dict_get "description"
    [("description", VStr "a name"); ("minLength", VInt 1); ("type", VStr "string")] =
  dict_get "description" [("description", VStr "a name"); ("minLength", VInt 1)].
Proof.
  apply (normalize_passes_through
           [("description", VStr "a name"); ("minLength", VInt 1)] _ "description").
  - reflexivity.
  - simpl. intros [H | [H | [H | [H | [H | []]]]]]; discriminate.
Defined.

(** [X3].  The [type] of the result, from the schema: a valid [type] is
    kept, any other hashable [type] becomes ["string"]; a schema without
    [type] gets ["object"] when it has [properties] or
    [additionalProperties], else ["array"] when it has [items], else no
    [type] at all when it has [enum], else ["string"]. *)
Theorem normalize_type (e r : list (string * value)) :
  _normalize_schema (VDict e) = Ok (VDict r) ->
  dict_get "type" r =
  match dict_get "type" e with
  | Some (VStr t) =>
      if existsb (String.eqb t) valid_types then Some (VStr t)
      else Some (VStr "string")
  | Some _ => Some (VStr "string")
  | None =>
      if dict_in "properties" e || dict_in "additionalProperties" e
      then Some (VStr "object")
      else if dict_in "items" e then Some (VStr "array")
      else if dict_in "enum" e then None
      else Some (VStr "string")
  end.
Proof.
  intros H.
  apply normalize_dict_inv in H as (r1 & r2 & r3 & r4 & E1 & E2 & E3 & E4 & [= ->]).
  destruct (normalize_frames e r1 r2 r3 r4 E1 E2 E3 E4) as (F1 & F2 & F3 & F4).
  rewrite F4, F3, F2 by discriminate. clear - E1.
  unfold ensure_type, dict_item in E1.
  destruct (dict_get "type" e) as [ty|] eqn:Et.
  - assert (Hin : dict_in "type" e = true) by (unfold dict_in; now rewrite Et).
    rewrite Hin in E1. cbn [negb rbind] in E1.
    unfold in_valid_types in E1.
    destruct ty; cbn [hashable rbind negb] in E1; try discriminate;
      try (injection E1 as <-; now rewrite dict_get_set_eq).
    destruct (existsb (String.eqb s) valid_types); cbn [negb] in E1;
      injection E1 as <-; [exact Et | now rewrite dict_get_set_eq].
  - assert (Hin : dict_in "type" e = false) by (unfold dict_in; now rewrite Et).
    rewrite Hin in E1. cbn [negb] in E1.
    destruct (dict_in "properties" e || dict_in "additionalProperties" e);
      [injection E1 as <-; now rewrite dict_get_set_eq |].
    destruct (dict_in "items" e);
      [injection E1 as <-; now rewrite dict_get_set_eq |].
    destruct (dict_in "enum" e); injection E1 as <-;
      [exact Et | now rewrite dict_get_set_eq].
Qed.

Lemma normalize_type_witness :
  dict_get "type" [("enum", VList [VStr "a"; VInt 1])] = None.
Proof.
  exact (normalize_type [("enum", VList [VStr "a"; VInt 1])] _ eq_refl).
Defined.

(** [X4].  An object has [properties] and [required]: when the [type] of
    the result is ["object"], the result has both keys. *)
Theorem normalize_object_complete (e r : list (string * value)) :
  _normalize_schema (VDict e) = Ok (VDict r) ->
  dict_get "type" r = Some (VStr "object") ->
  dict_in "properties" r = true /\ dict_in "required" r = true.
Proof.
  intros H Ht. apply normalize_result_stable in H as (_ & Hobj & _).
  destruct Hobj as (Hp & Hr & _); [| now split].
  unfold get_is. now rewrite Ht.
Qed.

Lemma normalize_object_complete_witness :
  dict_in "properties"
    [("additionalProperties", VBool false); ("type", VStr "object");
     ("properties", VDict []); ("required", VList [])] = true /\
  dict_in "required"
    [("additionalProperties", VBool false); ("type", VStr "object");
     ("properties", VDict []); ("required", VList [])] = true.
Proof.
  exact (normalize_object_complete [("additionalProperties", VBool false)] _
           eq_refl eq_refl).
Defined.

Lemma dict_comp_fix_inv (rec : value -> res value) (p : list (string * value)) :
  dict_comp rec p = Ok p -> forall k v, In (k, v) p -> rec v = Ok v.
Proof.
  induction p as [|[k0 v0] p IH]; simpl; [easy |].
  destruct (rec v0) as [v0'|] eqn:E0; simpl; [| discriminate].
  destruct (dict_comp rec p) as [p'|] eqn:Ep; simpl; [| discriminate].
  intros [= -> ->] k v [[= <- <-] | Hin]; [exact E0 | now apply (IH eq_refl k)].
Qed.

(** [X5].  Nested schemas are normalized: in the result, every value of the
    [properties] of an object, the [items] of an array and an
    [additionalProperties] that is a dict are values the normalizer
    returns as they are. *)
Theorem normalize_nested (e r : list (string * value)) :
  _normalize_schema (VDict e) = Ok (VDict r) ->
  (dict_get "type" r = Some (VStr "object") ->
   forall p k v, dict_get "properties" r = Some (VDict p) -> In (k, v) p ->
                 _normalize_schema v = Ok v) /\
  (dict_get "type" r = Some (VStr "array") ->
   forall v, dict_get "items" r = Some v -> _normalize_schema v = Ok v) /\
  (forall a, dict_get "additionalProperties" r = Some (VDict a) ->
             _normalize_schema (VDict a) = Ok (VDict a)).
Proof.
  intros H. apply normalize_result_stable in H as (_ & Hobj & Harr & Hap).
  repeat split.
  - intros Ht p k v Hp Hin. destruct Hobj as (_ & _ & Hc);
      [unfold get_is; now rewrite Ht |].
    now apply (dict_comp_fix_inv _ p (Hc p Hp) k).
  - intros Ht v Hv. apply Harr; [unfold get_is; now rewrite Ht | exact Hv].
  - exact Hap.
Qed.

Lemma normalize_nested_witness :
  _normalize_schema (VDict [("type", VStr "string")]) =
  Ok (VDict [("type", VStr "string")]).
Proof.
  destruct (normalize_nested
              [("properties", VDict [("a", VDict [])])]
              [("properties", VDict [("a", VDict [("type", VStr "string")])]);
               ("type", VStr "object"); ("required", VList [])] eq_refl)
    as (Hobj & _ & _).
  apply (Hobj eq_refl [("a", VDict [("type", VStr "string")])] "a");
    [reflexivity | now left].
Defined.

(** [X6].  The normalizer enters [properties] only in an object and [items]
    only in an array: when the [type] of the result is not ["object"], its
    [properties] and [required] are those of the schema; when it is not
    ["array"], its [items] are those of the schema, schemas that are not
    normalized. *)
Theorem normalize_untouched (e r : list (string * value)) :
  _normalize_schema (VDict e) = Ok (VDict r) ->
  (dict_get "type" r <> Some (VStr "object") ->
   dict_get "properties" r = dict_get "properties" e /\
   dict_get "required" r = dict_get "required" e) /\
  (dict_get "type" r <> Some (VStr "array") ->
   dict_get "items" r = dict_get "items" e).
Proof.
  intros H.
  apply normalize_dict_inv in H as (r1 & r2 & r3 & r4 & E1 & E2 & E3 & E4 & [= ->]).
  destruct (normalize_frames e r1 r2 r3 r4 E1 E2 E3 E4) as (F1 & F2 & F3 & F4).
  assert (Hne : forall (d : list (string * value)) (s : string),
             dict_get "type" d <> Some (VStr s) -> get_is "type" d s = false).
  { intros d s Hd. unfold get_is. destruct (dict_get "type" d) as [[]|]; try reflexivity.
    simpl. apply String.eqb_neq. congruence. }
  split.
  - intros Ht. rewrite F4, F3, F2 in Ht by discriminate.
    rewrite complete_object_unfold, (Hne r1 "object" Ht) in E2. injection E2 as <-.
    rewrite !F4, !F3, !F1 by discriminate. now split.
  - intros Ht. rewrite F4, F3 in Ht by discriminate.
    unfold normalize_items in E3. rewrite (Hne r2 "array" Ht) in E3.
    injection E3 as <-. now rewrite F4, F2, F1 by discriminate.
Qed.

Lemma normalize_untouched_witness :
  dict_get "items" [("type", VStr "object"); ("items", VDict []);
                    ("properties", VDict []); ("required", VList [])] =
  dict_get "items" [("type", VStr "object"); ("items", VDict [])].
Proof.
  destruct (normalize_untouched [("type", VStr "object"); ("items", VDict [])] _
              eq_refl) as [_ H].
  apply H. discriminate.
Defined.

Lemma normalize_wf_witness :
  wf_value (VDict [("enum", VList [VInt 1]); ("items", VDict [("type", VStr "string")]);
                   ("type", VStr "array")]).
Proof.
  apply (normalize_wf (VDict [("enum", VList [VInt 1]); ("items", VDict [])])).
  - simpl. repeat split;
      repeat first [ apply NoDup_nil_2 | apply NoDup_cons_2
                   | apply not_elem_of_nil | apply not_elem_of_cons; split
                   | discriminate ].
  - reflexivity.
Defined.

(** ** The normalizer: when it returns *)

Lemma ensure_type_hashable (e r1 : list (string * value)) :
  ensure_type e = Ok r1 -> type_hashable e.
Proof.
  intros H ty Hty. unfold ensure_type, dict_item, dict_in in H.
  rewrite Hty in H. cbn [negb rbind] in H. unfold in_valid_types in H.
  destruct (hashable ty); [reflexivity | discriminate].
Qed.

Lemma ensure_type_raises (e : list (string * value)) (err : exn) :
  ensure_type e = Err err ->
  err = TypeError "unhashable type" /\ ~ type_hashable e.
Proof.
  intros H. unfold ensure_type, dict_item, dict_in in H.
  destruct (dict_get "type" e) as [ty|] eqn:Et; cbn [negb rbind] in H.
  - unfold in_valid_types in H. destruct (hashable ty) eqn:Eh.
    + cbn [rbind] in H.
      match type of H with context [negb ?b] => destruct (negb b) end;
        discriminate.
    + injection H as <-. split; [reflexivity |].
      intros Hh. specialize (Hh ty Et). congruence.
  - repeat match type of H with
           | context [dict_get ?k e] => destruct (dict_get k e); simpl in H
           end; discriminate.
Qed.

(** The [type] that [ensure_type] leaves. *)
Lemma ensure_type_resolved (e r1 : list (string * value)) :
  ensure_type e = Ok r1 ->
  dict_get "type" r1 = option_map VStr (resolved_type e).
Proof.
  intros E1. unfold resolved_type. unfold ensure_type, dict_item in E1.
  destruct (dict_get "type" e) as [ty|] eqn:Et.
  - assert (Hin : dict_in "type" e = true) by (unfold dict_in; now rewrite Et).
    rewrite Hin in E1. cbn [negb rbind] in E1.
    unfold in_valid_types in E1.
    destruct ty; cbn [hashable rbind negb] in E1; try discriminate;
      try (injection E1 as <-; now rewrite dict_get_set_eq).
    destruct (existsb (String.eqb s) valid_types); cbn [negb] in E1;
      injection E1 as <-; [exact Et | now rewrite dict_get_set_eq].
  - assert (Hin : dict_in "type" e = false) by (unfold dict_in; now rewrite Et).
    rewrite Hin in E1. cbn [negb] in E1.
    destruct (dict_in "properties" e || dict_in "additionalProperties" e);
      [injection E1 as <-; now rewrite dict_get_set_eq |].
    destruct (dict_in "items" e);
      [injection E1 as <-; now rewrite dict_get_set_eq |].
    destruct (dict_in "enum" e); injection E1 as <-;
      [exact Et | now rewrite dict_get_set_eq].
Qed.

Lemma get_is_type (d : list (string * value)) (t : option string) (s : string) :
  dict_get "type" d = option_map VStr t -> get_is "type" d s = type_is t s.
Proof. unfold get_is. intros ->. now destruct t. Qed.

Lemma dict_comp_ok_inv (rec : value -> res value) (p p' : list (string * value)) :
  dict_comp rec p = Ok p' ->
  forall v, In v (map snd p) -> exists v', rec v = Ok v'.
Proof.
  revert p'. induction p as [|[k v] p IH]; intros p' H u Hu; simpl in *; [easy |].
  destruct (rec v) as [v'|] eqn:Ev; simpl in H; [| discriminate].
  destruct (dict_comp rec p) as [p''|] eqn:Ep; simpl in H; [| discriminate].
  destruct Hu as [<- | Hu]; [eauto | now apply (IH p'')].
Qed.

(** *** The calls of each step *)

Section Outcome.
Context (rec : value -> res value).

Lemma complete_object_outcome (d : list (string * value)) (t : option string) :
  dict_get "type" d = option_map VStr t ->
  outcome rec (complete_object rec d) (property_schemas t d).
Proof.
  intros Ht. rewrite complete_object_unfold, (get_is_type d t _ Ht).
  unfold property_schemas.
  destruct (type_is t "object"); [| now intros v []].
  rewrite with_defaults_properties.
  destruct (dict_get "properties" d) as [[| | | | | |p]|]; try now intros v [].
  destruct (dict_comp rec p) as [p'|err] eqn:Ec; simpl.
  - now apply (dict_comp_ok_inv rec p p').
  - apply dict_comp_error in Ec as (k & v & Hin & Hr).
    exists v. split; [| exact Hr]. now apply (in_map snd) in Hin.
Qed.

Lemma normalize_items_outcome (d : list (string * value)) (t : option string) :
  dict_get "type" d = option_map VStr t ->
  outcome rec (normalize_items rec d) (item_schemas t d).
Proof.
  intros Ht. unfold normalize_items, dict_item, dict_in, item_schemas.
  rewrite (get_is_type d t _ Ht).
  destruct (type_is t "array"); [| now intros v []].
  destruct (dict_get "items" d) as [items|]; [| now intros v []].
  cbn [andb rbind]. destruct (rec items) as [items'|err] eqn:Er; simpl.
  - intros v [<- | []]. eauto.
  - exists items. split; [now left | exact Er].
Qed.

Lemma normalize_additional_outcome (d : list (string * value)) :
  outcome rec (normalize_additional rec d) (additional_schemas d).
Proof.
  unfold normalize_additional, additional_schemas.
  destruct (dict_get "additionalProperties" d) as [[| | | | | |ap]|];
    try now intros v [].
  destruct (rec (VDict ap)) as [ap'|err] eqn:Er; simpl.
  - intros v [<- | []]. eauto.
  - exists (VDict ap). split; [now left | exact Er].
Qed.

(** The body returns when the [type] can be hashed and every call
    returns; it raises the [TypeError] of the membership test, or what
    the first failing call raises. *)
Lemma normalize_body_outcome (e : list (string * value)) :
  match normalize_body rec (VDict e) with
  | Ok _ =>
      type_hashable e /\ forall v, In v (visited e) -> exists v', rec v = Ok v'
  | Err err =>
      (err = TypeError "unhashable type" /\ ~ type_hashable e) \/
      (type_hashable e /\ exists v, In v (visited e) /\ rec v = Err err)
  end.
Proof.
  unfold normalize_body, visited.
  destruct (ensure_type e) as [r1|e1] eqn:E1; cbn [rbind];
    [| left; now apply ensure_type_raises].
  pose proof (ensure_type_hashable e r1 E1) as Hty.
  pose proof (ensure_type_resolved e r1 E1) as T1.
  assert (F1 : forall k, k <> "type" -> dict_get k r1 = dict_get k e)
    by (intros; now apply ensure_type_frame).
  set (t := resolved_type e) in *.
  assert (P1 : property_schemas t r1 = property_schemas t e)
    by (unfold property_schemas; now rewrite F1).
  pose proof (complete_object_outcome r1 t T1) as O2. rewrite P1 in O2.
  destruct (complete_object rec r1) as [r2|e2] eqn:E2; cbn [rbind].
  2:{ right. split; [exact Hty |]. destruct O2 as (v & Hin & Hr).
      exists v. split; [| exact Hr]. apply in_or_app. now left. }
  assert (F2 : forall k, k <> "properties" -> k <> "required" ->
                         dict_get k r2 = dict_get k r1)
    by (intros; now apply (complete_object_frame rec)).
  assert (T2 : dict_get "type" r2 = option_map VStr t)
    by (now rewrite F2).
  assert (P2 : item_schemas t r2 = item_schemas t e)
    by (unfold item_schemas; now rewrite F2, F1).
  pose proof (normalize_items_outcome r2 t T2) as O3. rewrite P2 in O3.
  destruct (normalize_items rec r2) as [r3|e3] eqn:E3; cbn [rbind].
  2:{ right. split; [exact Hty |]. destruct O3 as (v & Hin & Hr).
      exists v. split; [| exact Hr].
      apply in_or_app. right. apply in_or_app. now left. }
  assert (F3 : forall k, k <> "items" -> dict_get k r3 = dict_get k r2)
    by (intros; now apply (normalize_items_frame rec)).
  assert (P3 : additional_schemas r3 = additional_schemas e)
    by (unfold additional_schemas; now rewrite F3, F2, F1).
  pose proof (normalize_additional_outcome r3) as O4. rewrite P3 in O4.
  destruct (normalize_additional rec r3) as [r4|e4] eqn:E4; cbn [rbind].
  2:{ right. split; [exact Hty |]. destruct O4 as (v & Hin & Hr).
      exists v. split; [| exact Hr].
      apply in_or_app. right. apply in_or_app. now right. }
  split; [exact Hty |]. intros v Hin.
  apply in_app_or in Hin as [Hin | Hin]; [now apply O2 |].
  apply in_app_or in Hin as [Hin | Hin]; [now apply O3 | now apply O4].
Qed.
End Outcome.

(** What the normalizer visits is nested in the schema. *)
Lemma visited_depth (e : list (string * value)) (v : value) :
  In v (visited e) -> depth v < depth (VDict e).
Proof.
  unfold visited, property_schemas, item_schemas, additional_schemas.
  intros Hin.
  apply in_app_or in Hin as [Hin | Hin]; [| apply in_app_or in Hin as [Hin | Hin]].
  - destruct (type_is (resolved_type e) "object"); [| easy].
    destruct (dict_get "properties" e) as [[| | | | | |p]|] eqn:Ep; try easy.
    apply in_map_iff in Hin as ([k v'] & <- & Hin).
    apply depth_get in Ep. apply depth_In in Hin. simpl in *. lia.
  - destruct (type_is (resolved_type e) "array"); [| easy].
    destruct (dict_get "items" e) as [items|] eqn:Ei; [| easy].
    destruct Hin as [<- | []]. now apply depth_get in Ei.
  - destruct (dict_get "additionalProperties" e) as [[| | | | | |ap]|] eqn:Ea;
      try easy.
    destruct Hin as [<- | []]. now apply depth_get in Ea.
Qed.

Lemma normalize_fuel_returns (limit : nat) :
  forall s, visits_hashable s -> depth s < limit ->
            exists r, normalize_fuel limit s = Ok r.
Proof.
  induction limit as [|limit IH]; intros s Hs Hd; [lia |].
  cbn [normalize_fuel].
  destruct Hs as [s Hs | e Hty Hsub];
    [destruct s; try discriminate; simpl; eauto |].
  pose proof (normalize_body_outcome (normalize_fuel limit) e) as O.
  destruct (normalize_body (normalize_fuel limit) (VDict e)) as [r|err];
    [eauto | exfalso].
  destruct O as [[_ Hn] | [_ (v & Hin & Hr)]]; [now apply Hn |].
  destruct (IH v) as [v' Hv']; [now apply Hsub | | congruence].
  apply visited_depth in Hin. lia.
Qed.

Lemma normalize_fuel_visits (limit : nat) :
  forall s r, normalize_fuel limit s = Ok r -> visits_hashable s.
Proof.
  induction limit as [|limit IH]; intros s r H; [discriminate |].
  cbn [normalize_fuel] in H.
  destruct s as [| | | | | |e]; try (now apply visits_other).
  pose proof (normalize_body_outcome (normalize_fuel limit) e) as O.
  rewrite H in O. destruct O as [Hty Hsub].
  apply visits_dict; [exact Hty |].
  intros v Hin. destruct (Hsub v Hin) as [v' Hv']. now apply (IH v v').
Qed.

(** [X8].  Below the limit of the recursion, the normalizer returns
    exactly on the schemas in which every dict it visits has a [type] that
    can be hashed, and what it returns does not depend on the limit: with
    [limit] nested calls allowed and a schema nested less deep than that,
    its result is the result of [_normalize_schema]. *)
Theorem normalize_returns_below_limit (limit : nat) (s : value) :
  depth s < limit ->
  normalize_fuel limit s = _normalize_schema s /\
  ((exists r, normalize_fuel limit s = Ok r) <-> visits_hashable s).
Proof.
  intros Hd. split; [| split].
  - unfold _normalize_schema. apply normalize_fuel_enough; lia.
  - intros [r Hr]. now apply (normalize_fuel_visits limit s r).
  - intros Hs. now apply normalize_fuel_returns.
Qed.

Lemma normalize_returns_below_limit_witness :
  normalize_fuel 4
    (VDict [("type", VStr "string"); ("x-meta", VDict [("type", VList [])])]) =
  _normalize_schema
    (VDict [("type", VStr "string"); ("x-meta", VDict [("type", VList [])])]) /\
  ((exists r,
      normalize_fuel 4
        (VDict [("type", VStr "string"); ("x-meta", VDict [("type", VList [])])]) =
      Ok r) <->
   visits_hashable
     (VDict [("type", VStr "string"); ("x-meta", VDict [("type", VList [])])])).
Proof.
  apply (normalize_returns_below_limit 4). vm_compute. lia.
Defined.

(** A [type] that cannot be hashed is no obstacle in a dict that the
    normalizer does not visit. *)
Example normalize_unvisited_type :
  _normalize_schema
    (VDict [("type", VStr "string"); ("x-meta", VDict [("type", VList [])])]) =
  Ok (VDict [("type", VStr "string"); ("x-meta", VDict [("type", VList [])])]).
Proof. reflexivity. Qed.

(** Two nested calls are not enough for a schema that takes three. *)
Example normalize_fuel_exhausted :
  normalize_fuel 2 (VDict [("items", VDict [("items", VDict [])])]) =
  Err FuelExhausted.
Proof. reflexivity. Qed.

(** [X9].  The normalizer raises two exceptions only.  One is the
    [TypeError] of hashing a list or a dict, raised only on a schema in
    which some dict it visits has such a [type]; the other is the
    [RecursionError], raised only on a schema nested at least as deep as
    the number of nested calls allowed. *)
Theorem normalize_raises_only (limit : nat) (s : value) (e : exn) :
  normalize_fuel limit s = Err e ->
  (e = TypeError "unhashable type" /\ ~ visits_hashable s) \/
  (e = FuelExhausted /\ limit <= depth s).
Proof.
  revert s e. induction limit as [|limit IH]; intros s e H.
  - injection H as <-. right. split; [reflexivity | lia].
  - cbn [normalize_fuel] in H.
    destruct s as [| | | | | |d]; try discriminate.
    pose proof (normalize_body_outcome (normalize_fuel limit) d) as O.
    rewrite H in O. destruct O as [[-> Hn] | [Hty (v & Hin & Hr)]].
    + left. split; [reflexivity |]. intros Hs. apply Hn.
      inversion Hs; [discriminate | assumption].
    + pose proof (visited_depth d v Hin) as Hd.
      destruct (IH v e Hr) as [[-> Hn] | [-> Hl]].
      * left. split; [reflexivity |]. intros Hs. apply Hn.
        inversion Hs as [? Hno | ? _ Hsub]; [discriminate | now apply Hsub].
      * right. split; [reflexivity | lia].
Qed.

Lemma normalize_raises_only_witness :
  (FuelExhausted = TypeError "unhashable type" /\
   ~ visits_hashable (VDict [("items", VDict [("items", VDict [])])])) \/
  (FuelExhausted = FuelExhausted /\
   2 <= depth (VDict [("items", VDict [("items", VDict [])])])).
Proof.
  exact (normalize_raises_only 2 (VDict [("items", VDict [("items", VDict [])])])
           FuelExhausted eq_refl).
Defined.

(** ** The mapper *)

(** [X10].  The mapper goes over a list made of two as over the one, then
    the other: the result is the two results one after the other, and an
    exception of the first list is raised before the second is looked
    at. *)
Theorem to_openai_tools_append (ts1 ts2 : list ToolSpec.t) (f : bool) :
  to_openai_tools (ts1 ++ ts2) f =
  (o1 <- to_openai_tools ts1 f ;; o2 <- to_openai_tools ts2 f ;; Ok (o1 ++ o2)).
Proof.
  induction ts1 as [|t ts1 IH]; simpl.
  - change (to_openai_tools [] f) with (@Ok (list value) []). simpl.
    now destruct (to_openai_tools ts2 f).
  - rewrite (to_openai_tools_cons t (ts1 ++ ts2)), (to_openai_tools_cons t ts1), IH.
    destruct (to_openai_tools [t] f) as [d|]; simpl; [| reflexivity].
    destruct (to_openai_tools ts1 f) as [o1|]; simpl; [| reflexivity].
    destruct (to_openai_tools ts2 f) as [o2|]; simpl; [| reflexivity].
    now rewrite app_assoc.
Qed.

Lemma loop_body_flag (out : list value) (t : ToolSpec.t) :
  is_mcp_tool t = false -> loop_body true out t = loop_body false out t.
Proof.
  unfold is_mcp_tool, loop_body.
  destruct (ToolSpec.kind t), (ToolSpec.function t), (ToolSpec.mcp t),
    (ToolSpec.builtin t); try reflexivity; discriminate.
Qed.

(** [X11].  The flag [supports_mcp_native] matters for the tools of kind
    [mcp] only: on a list with none that has its payload, the mapper gives
    the same result with the flag and without it. *)
Theorem to_openai_tools_flag (tools : list ToolSpec.t) :
  Forall (fun t => is_mcp_tool t = false) tools ->
  to_openai_tools tools true = to_openai_tools tools false.
Proof.
  unfold to_openai_tools. generalize (@nil value) as out.
  intros out H. revert out.
  induction H as [|t tools Ht _ IH]; intros out; simpl; [reflexivity |].
  rewrite (loop_body_flag out t Ht).
  destruct (loop_body false out t); simpl; [apply IH | reflexivity].
Qed.

Lemma to_openai_tools_flag_witness :
  to_openai_tools [function_tool search_spec; builtin_tool web_search_spec;
                   mismatched_tool] true =
  to_openai_tools [function_tool search_spec; builtin_tool web_search_spec;
                   mismatched_tool] false.
Proof.
  apply to_openai_tools_flag. repeat constructor.
Defined.

Lemma to_openai_tools_one_count (t : ToolSpec.t) (f : bool) (d : list value) :
  to_openai_tools [t] f = Ok d -> length d = if has_payload t then 1 else 0.
Proof.
  rewrite to_openai_tools_one. unfold loop_body, has_payload.
  destruct (ToolSpec.kind t), (ToolSpec.function t), (ToolSpec.mcp t),
    (ToolSpec.builtin t), f; simpl;
    try (intros [= <-]; reflexivity);
    match goal with |- context [_normalize_schema ?x] =>
      destruct (_normalize_schema x); simpl;
      [intros [= <-]; reflexivity | discriminate] end.
Qed.

(** [X12].  When the mapper returns, it has emitted exactly one declaration
    for each tool that has the payload of its kind: the length of the
    output is the number of these tools. *)
Theorem to_openai_tools_length (tools : list ToolSpec.t) (f : bool)
    (out : list value) :
  to_openai_tools tools f = Ok out ->
  length out = length (List.filter has_payload tools).
Proof.
  revert out. induction tools as [|t tools IH]; intros out.
  - now intros [= <-].
  - rewrite to_openai_tools_cons.
    destruct (to_openai_tools [t] f) as [d|] eqn:Ed; simpl; [| discriminate].
    destruct (to_openai_tools tools f) as [ds|] eqn:Eds; simpl; [| discriminate].
    intros [= <-]. rewrite length_app, (IH ds eq_refl).
    rewrite (to_openai_tools_one_count t f d Ed). simpl.
    now destruct (has_payload t).
Qed.

Lemma to_openai_tools_length_witness :
  length [function_decl "search" EmptyString (VDict [("type", VStr "string")]);
          VDict [("type", VStr "other"); ("region", VStr "eu")]] =
  length (List.filter has_payload
            [function_tool search_spec; mismatched_tool;
             builtin_tool web_search_spec]).
Proof.
  exact (to_openai_tools_length
           [function_tool search_spec; mismatched_tool; builtin_tool web_search_spec]
           true _ eq_refl).
Defined.

Lemma to_openai_tools_one_params (t : ToolSpec.t) (f : bool) (ds : list value) :
  to_openai_tools [t] f = Ok ds ->
  is_builtin_kind t = false ->
  Forall (fun d => exists p, decl_parameters d = Some p /\
                             _normalize_schema p = Ok p) ds.
Proof.
  rewrite to_openai_tools_one. unfold loop_body, is_builtin_kind.
  destruct (ToolSpec.kind t), (ToolSpec.function t), (ToolSpec.mcp t),
    (ToolSpec.builtin t), f; simpl;
    try discriminate; try (intros [= <-] _; constructor);
    match goal with |- context [_normalize_schema ?x] =>
      destruct (_normalize_schema x) as [p|] eqn:Ep; simpl;
      [intros [= <-] _ | discriminate] end;
    (constructor; [| constructor]); exists p;
    (split; [reflexivity |]);
    match type of Ep with _normalize_schema ?x = _ =>
      apply (normalize_idempotent_ok (S (depth x)) x); [lia | exact Ep] end.
Qed.

(** [X13].  The schemas the mapper hands out are normalized: in the output
    for tools of kind [function] and [mcp], every declaration carries
    [parameters], and the normalizer returns them as they are. *)
Theorem to_openai_tools_parameters (tools : list ToolSpec.t) (f : bool)
    (out : list value) :
  to_openai_tools tools f = Ok out ->
  Forall (fun t => is_builtin_kind t = false) tools ->
  Forall (fun d => exists p, decl_parameters d = Some p /\
                             _normalize_schema p = Ok p) out.
Proof.
  intros H Hk. revert out H.
  induction Hk as [|t tools Ht _ IH]; intros out.
  - intros [= <-]. constructor.
  - rewrite to_openai_tools_cons.
    destruct (to_openai_tools [t] f) as [d|] eqn:Ed; simpl; [| discriminate].
    destruct (to_openai_tools tools f) as [ds|] eqn:Eds; simpl; [| discriminate].
    intros [= <-]. apply Forall_app. split.
    + now apply (to_openai_tools_one_params t f).
    + now apply IH.
Qed.

Lemma to_openai_tools_parameters_witness :
  Forall (fun d => exists p, decl_parameters d = Some p /\
                             _normalize_schema p = Ok p)
    [function_decl "search" EmptyString (VDict [("type", VStr "string")]);
     VDict [("type", VStr "mcp"); ("server", VStr "srv1"); ("name", VStr "lookup");
            ("parameters", VDict [("type", VStr "string")])]].
Proof.
  apply (to_openai_tools_parameters
           [function_tool search_spec; mcp_tool lookup_spec] true).
  - reflexivity.
  - repeat constructor.
Defined.

(** [X14].  A tool of kind [function] with its payload gives the function
    declaration with its name, its description, the empty string when it
    has none, and its normalized parameters, whatever the flag; the
    declaration stands in the output where the tool stands in the input.
    The field [strict] is not read. *)
Theorem function_as_function (pre post : list ToolSpec.t) (t : ToolSpec.t)
    (fn : FunctionToolSpec.t) (f : bool) :
  ToolSpec.kind t = ToolKind.function ->
  ToolSpec.function t = Some fn ->
  to_openai_tools (pre ++ t :: post) f =
  (o1 <- to_openai_tools pre f ;;
   parameters <- _normalize_schema (VDict (FunctionToolSpec.parameters fn)) ;;
   o2 <- to_openai_tools post f ;;
   Ok (o1 ++
       [VDict [("type", VStr "function");
               ("function",
                VDict [("name", VStr (FunctionToolSpec.name fn));
                       ("description",
                        VStr (match FunctionToolSpec.description fn with
                              | Some d => d
                              | None => ""
                              end));
                       ("parameters", parameters)])]] ++
       o2)).
Proof.
  intros Hk Hf. rewrite to_openai_tools_middle, to_openai_tools_one.
  unfold loop_body, or_empty. rewrite Hk, Hf.
  destruct (to_openai_tools pre f); simpl; [| reflexivity].
  now destruct (_normalize_schema (VDict (FunctionToolSpec.parameters fn))).
Qed.

Lemma function_as_function_witness :
  to_openai_tools [builtin_tool web_search_spec;
                   function_tool described_search_spec;
                   function_tool search_spec] true =
  Ok [VDict [("type", VStr "other"); ("region", VStr "eu")];
      VDict [("type", VStr "function");
             ("function", VDict [("name", VStr "search");
                                 ("description", VStr "Searches the web");
                                 ("parameters", VDict [("type", VStr "string")])])];
      VDict [("type", VStr "function");
             ("function", VDict [("name", VStr "search");
                                 ("description", VStr EmptyString);
                                 ("parameters", VDict [("type", VStr "string")])])]].
Proof.
  exact (function_as_function [builtin_tool web_search_spec]
           [function_tool search_spec] (function_tool described_search_spec)
           described_search_spec true eq_refl eq_refl).
Defined.

(** [X15].  With native support, a tool of kind [mcp] with its payload
    gives the declaration [{"type": "mcp", "server": server_id, "name":
    name, "parameters": ...}] with the normalized input schema: the name
    is not encoded, and the description and the result schema are not
    handed on. *)
Theorem mcp_as_native (pre post : list ToolSpec.t) (t : ToolSpec.t)
    (m : MCPToolSpec.t) :
  ToolSpec.kind t = ToolKind.mcp ->
  ToolSpec.mcp t = Some m ->
  to_openai_tools (pre ++ t :: post) true =
  (o1 <- to_openai_tools pre true ;;
   parameters <- _normalize_schema (VDict (MCPToolSpec.input_schema m)) ;;
   o2 <- to_openai_tools post true ;;
   Ok (o1 ++
       [VDict [("type", VStr "mcp");
               ("server", VStr (MCPToolSpec.server_id m));
               ("name", VStr (MCPToolSpec.name m));
               ("parameters", parameters)]] ++
       o2)).
Proof.
  intros Hk Hm. rewrite to_openai_tools_middle, to_openai_tools_one.
  unfold loop_body. rewrite Hk, Hm.
  destruct (to_openai_tools pre true); simpl; [| reflexivity].
  now destruct (_normalize_schema (VDict (MCPToolSpec.input_schema m))).
Qed.

Lemma mcp_as_native_witness :
  to_openai_tools [mcp_tool lookup_spec] true =
  Ok [VDict [("type", VStr "mcp"); ("server", VStr "srv1"); ("name", VStr "lookup");
             ("parameters", VDict [("type", VStr "string")])]].
Proof.
  exact (mcp_as_native [] [] (mcp_tool lookup_spec) lookup_spec eq_refl eq_refl).
Defined.

(** *** The exceptions of the mapper *)

(** The mapper raises on a tool what the normalizer raises on its schema,
    and nothing of its own. *)
Lemma to_openai_tools_one_raises (t : ToolSpec.t) (f : bool) (e : exn) :
  to_openai_tools [t] f = Err e <->
  exists s, tool_schema t = Some s /\ _normalize_schema (VDict s) = Err e.
Proof.
  rewrite to_openai_tools_one. unfold loop_body, tool_schema.
  destruct (ToolSpec.kind t), (ToolSpec.function t) as [fn|],
    (ToolSpec.mcp t) as [m|], (ToolSpec.builtin t), f; simpl;
    try (split; [discriminate | now intros (s & [=] & _)]);
    match goal with |- context [_normalize_schema ?x] =>
      destruct (_normalize_schema x) as [r|e'] eqn:En; simpl;
      (split; [first [discriminate | intros [= <-]; eauto]
              | intros (s & [= <-] & Hs); congruence])
    end.
Qed.

Lemma to_openai_tools_one_returns (t : ToolSpec.t) (f : bool) :
  (exists d, to_openai_tools [t] f = Ok d) <->
  (forall s, tool_schema t = Some s ->
             exists r, _normalize_schema (VDict s) = Ok r).
Proof.
  split.
  - intros [d Hd] s Hs.
    destruct (_normalize_schema (VDict s)) as [r|e] eqn:En; [eauto |].
    assert (to_openai_tools [t] f = Err e)
      by (apply to_openai_tools_one_raises; eauto).
    congruence.
  - intros H. destruct (to_openai_tools [t] f) as [d|e] eqn:Ed; [eauto |].
    apply to_openai_tools_one_raises in Ed as (s & Hs & He).
    destruct (H s Hs) as [r Hr]. congruence.
Qed.

(** When the mapper raises, it has gone through the tools before one on
    which it raises alone. *)
Lemma to_openai_tools_raises_inv (tools : list ToolSpec.t) (f : bool) (e : exn) :
  to_openai_tools tools f = Err e ->
  exists pre t post,
    tools = pre ++ t :: post /\
    (exists o, to_openai_tools pre f = Ok o) /\
    to_openai_tools [t] f = Err e.
Proof.
  induction tools as [|a tools IH]; [discriminate |].
  rewrite to_openai_tools_cons.
  destruct (to_openai_tools [a] f) as [d|e1] eqn:Ea; simpl.
  - destruct (to_openai_tools tools f) as [ds|e2]; simpl; [discriminate |].
    intros [= <-]. destruct (IH eq_refl) as (pre & t & post & -> & [o Ho] & Ht).
    exists (a :: pre), t, post. split; [reflexivity |]. split; [| exact Ht].
    exists (d ++ o). rewrite to_openai_tools_cons, Ea, Ho. reflexivity.
  - intros [= <-]. exists [], a, tools.
    split; [reflexivity |]. split; [now exists [] | exact Ea].
Qed.

(** [X16].  The mapper stops at the first tool it cannot map: it raises
    [e] on a list exactly when the list has a tool on which it raises [e]
    alone, after tools on which it returns.  So a tool on which the mapper
    raises alone makes it raise on every list the tool is in, and no part
    of the output is returned. *)
Theorem to_openai_tools_first_failure (tools : list ToolSpec.t) (f : bool) :
  (forall e,
     to_openai_tools tools f = Err e <->
     exists pre t post,
       tools = pre ++ t :: post /\
       (exists o, to_openai_tools pre f = Ok o) /\
       to_openai_tools [t] f = Err e) /\
  (forall t e, In t tools -> to_openai_tools [t] f = Err e ->
               exists e', to_openai_tools tools f = Err e').
Proof.
  split.
  - intros e. split; [apply to_openai_tools_raises_inv |].
    intros (pre & t & post & -> & [o Ho] & Ht).
    now rewrite to_openai_tools_middle, Ho, Ht.
  - intros t e Hin Ht. induction tools as [|a tools IH]; [destruct Hin |].
    rewrite to_openai_tools_cons.
    destruct (to_openai_tools [a] f) as [d|e1] eqn:Ea; simpl; [| eauto].
    destruct Hin as [-> | Hin]; [congruence |].
    destruct (IH Hin) as [e' ->]. simpl. eauto.
Qed.

Lemma to_openai_tools_first_failure_witness :
  exists e',
    to_openai_tools [function_tool search_spec; function_tool nullable_spec;
                     mcp_tool lookup_spec] true = Err e'.
Proof.
  apply (proj2 (to_openai_tools_first_failure _ true)
           (function_tool nullable_spec) (TypeError "unhashable type")).
  - right. now left.
  - reflexivity.
Defined.

(** [X17].  The mapper returns exactly when the normalizer returns on the
    schema of every tool that has the payload of its kind: the
    [parameters] of the functions and the [input_schema] of the mcp tools.
    The builtin tools and the tools without their payload are never in the
    way. *)
Theorem to_openai_tools_returns_iff (tools : list ToolSpec.t) (f : bool) :
  (exists out, to_openai_tools tools f = Ok out) <->
  Forall (fun t => forall s, tool_schema t = Some s ->
                             exists r, _normalize_schema (VDict s) = Ok r) tools.
Proof.
  induction tools as [|t tools IH].
  - split; [constructor | now exists []].
  - rewrite to_openai_tools_cons. split.
    + intros [out H].
      destruct (to_openai_tools [t] f) as [d|] eqn:Ed; simpl in H; [| discriminate].
      destruct (to_openai_tools tools f) as [ds|] eqn:Eds; simpl in H;
        [| discriminate].
      constructor; [apply (to_openai_tools_one_returns t f); eauto |].
      apply IH. eauto.
    + intros H. apply Forall_cons in H as [Ht Hts].
      apply (to_openai_tools_one_returns t f) in Ht as [d ->].
      apply IH in Hts as [ds ->]. simpl. eauto.
Qed.

Lemma to_openai_tools_returns_iff_witness :
  exists out,
    to_openai_tools [function_tool search_spec; mismatched_tool;
                     builtin_tool web_search_spec] false = Ok out.
Proof.
  apply to_openai_tools_returns_iff.
  repeat constructor; intros s [= <-]; vm_compute; eauto.
Defined.

(** [X18].  The mapper raises nothing of its own: an exception of the
    mapper is the exception that the normalizer raises on the schema of
    one of the tools. *)
Theorem to_openai_tools_raises_from_normalizer (tools : list ToolSpec.t)
    (f : bool) (e : exn) :
  to_openai_tools tools f = Err e ->
  exists t s,
    In t tools /\ tool_schema t = Some s /\ _normalize_schema (VDict s) = Err e.
Proof.
  intros H. apply to_openai_tools_raises_inv in H as (pre & t & post & -> & _ & Ht).
  apply to_openai_tools_one_raises in Ht as (s & Hs & He).
  exists t, s. split; [| now split]. apply in_or_app. right. now left.
Qed.

Lemma to_openai_tools_raises_from_normalizer_witness :
  exists t s,
    In t [function_tool search_spec; mcp_tool nullable_lookup_spec] /\
    tool_schema t = Some s /\
    _normalize_schema (VDict s) = Err (TypeError "unhashable type").
Proof.
  exact (to_openai_tools_raises_from_normalizer
           [function_tool search_spec; mcp_tool nullable_lookup_spec] false _
           eq_refl).
Defined.

Lemma to_openai_tools_skips_missing_witness :
  to_openai_tools [mismatched_tool] true = Ok [] /\
  to_openai_tools ([function_tool search_spec] ++ mismatched_tool :: []) true =
  to_openai_tools ([function_tool search_spec] ++ []) true.
Proof.
  exact (to_openai_tools_skips_missing [function_tool search_spec] []
           mismatched_tool true eq_refl).
Defined.

(** ** The call name codec *)

Section PlusLoopMore.
Context {R : Type} (k : string -> nat -> string -> option R).

(** A repetition finds a match when there is one. *)
Lemma plus_loop_some (greedy : bool) (taken : string) :
  forall (acc : string) (pos : nat) (rest : string) (r : R),
    taken <> "" ->
    has_char newline taken = false ->
    k (acc +:+ taken) (pos + String.length taken) rest = Some r ->
    exists r', Re.plus_loop greedy Re.Dot k acc pos (taken +:+ rest) = Some r'.
Proof.
  induction taken as [|c t IH]; intros acc pos rest r Hne Hnl Hk; [congruence |].
  simpl in Hnl. apply orb_false_iff in Hnl as [Hc Hnl].
  simpl. rewrite Hc. simpl.
  destruct t as [|c' t'].
  - simpl in Hk. replace (pos + 1) with (S pos) in Hk by lia.
    fold (Re.snoc acc c) in Hk. simpl.
    destruct greedy.
    + destruct (Re.plus_loop true Re.Dot k (Re.snoc acc c) (S pos) rest); eauto.
    + rewrite Hk. eauto.
  - destruct (IH (Re.snoc acc c) (S pos) rest r) as [r' Hr'];
      [congruence | exact Hnl | |].
    { rewrite snoc_app.
      replace (S pos + String.length (String c' t'))
        with (pos + String.length (String c (String c' t'))) by (simpl; lia).
      exact Hk. }
    change (String c' (t' +:+ rest)) with (String c' t' +:+ rest).
    destruct greedy.
    + rewrite Hr'. eauto.
    + destruct (k (Re.snoc acc c) (S pos) (String c' t' +:+ rest)); eauto.
Qed.

(** What a lazy repetition returns comes from the shortest text after
    which the rest of the pattern matches. *)
Lemma plus_loop_lazy_inv (s : string) :
  forall (acc : string) (pos : nat) (r : R),
    Re.plus_loop false Re.Dot k acc pos s = Some r ->
    exists taken rest,
      s = taken +:+ rest /\ taken <> "" /\ has_char newline taken = false /\
      k (acc +:+ taken) (pos + String.length taken) rest = Some r /\
      forall p q, taken = p +:+ q -> p <> "" -> q <> "" ->
                  k (acc +:+ p) (pos + String.length p) (q +:+ rest) = None.
Proof.
  induction s as [|c s IH]; intros acc pos r H; simpl in H; [discriminate |].
  destruct (Ascii.eqb c newline) eqn:Hc; simpl in H; [discriminate |].
  destruct (k (Re.snoc acc c) (S pos) s) as [r0|] eqn:E.
  - injection H as <-. exists (String c ""), s. simpl. rewrite Hc.
    replace (pos + 1) with (S pos) by lia.
    repeat split; [congruence | exact E |].
    intros [|a [|a' p]] [|b q] Hpq Hp Hq; try congruence; discriminate.
  - apply IH in H as (t & rest & -> & Ht & Hnl & Hk & Hmin).
    exists (String c t), rest. simpl. rewrite Hc, Hnl.
    rewrite snoc_app in Hk.
    replace (pos + S (String.length t)) with (S pos + String.length t) by lia.
    repeat split; [congruence | exact Hk |].
    intros [|a p] q Hpq Hp Hq; [congruence |].
    simpl in Hpq. injection Hpq as <- ->.
    destruct p as [|a' p'].
    + simpl. replace (pos + 1) with (S pos) by lia. exact E.
    + specialize (Hmin (String a' p') q eq_refl ltac:(congruence) Hq).
      rewrite snoc_app in Hmin.
      replace (pos + String.length (String c (String a' p')))
        with (S pos + String.length (String a' p')) by (simpl; lia).
      exact Hmin.
Qed.
End PlusLoopMore.

Lemma str_app_split (x' : string) :
  forall x y y' : string,
    x +:+ y = x' +:+ y' -> String.length x' < String.length x ->
    exists q, x = x' +:+ q /\ q <> "" /\ y' = q +:+ y.
Proof.
  induction x' as [|c x' IH]; intros x y y' H Hlen.
  - exists x. simpl in *. repeat split; [| now symmetry].
    destruct x; [simpl in Hlen; lia | congruence].
  - destruct x as [|d x]; [simpl in Hlen; lia |].
    simpl in H. injection H as -> H.
    destruct (IH x y y' H) as (q & -> & Hq & ->); [simpl in Hlen; lia |].
    exists q. now repeat split.
Qed.

(** After the server segment the rest of the pattern matches a delimiter, a
    tool name and the end of the string. *)
Lemma after_server_some (b eol : string) (pos : nat) (groups : list string) :
  b <> "" -> has_char newline b = false -> Re.at_eol eol = true ->
  exists gs, Re.exec after_server pos ("::" +:+ b +:+ eol) groups = Some gs.
Proof.
  intros Hb Hnl Heol.
  cbn [after_server Re.lits app String.append Re.exec].
  rewrite !Ascii.eqb_refl.
  apply (plus_loop_some _ true b "" (S (S pos)) eol (groups ++ [b])); auto.
  cbn [Re.exec String.append]. now rewrite Heol.
Qed.

(** What a match of the pattern is made of. *)
Lemma match_mcp_inv (name : string) (gs : list string) :
  Re.match_ _mcp_pat name = Some gs ->
  exists s t eol,
    gs = [s; t] /\ name = encode_mcp s t +:+ eol /\
    s <> "" /\ t <> "" /\
    has_char newline s = false /\ has_char newline t = false /\
    Re.at_eol eol = true /\
    forall p q, s = p +:+ q -> p <> "" -> q <> "" ->
                Re.exec after_server (5 + String.length p)
                  (q +:+ "::" +:+ t +:+ eol) [p] = None.
Proof.
  unfold Re.match_, _mcp_pat.
  cbn [app Re.lits Re.exec Nat.eqb].
  destruct name as [|c1 name]; [discriminate |].
  destruct (Ascii.eqb_spec "m" c1) as [<- |]; [| discriminate].
  destruct name as [|c2 name]; [discriminate |].
  destruct (Ascii.eqb_spec "c" c2) as [<- |]; [| discriminate].
  destruct name as [|c3 name]; [discriminate |].
  destruct (Ascii.eqb_spec "p" c3) as [<- |]; [| discriminate].
  destruct name as [|c4 name]; [discriminate |].
  destruct (Ascii.eqb_spec ":" c4) as [<- |]; [| discriminate].
  destruct name as [|c5 name]; [discriminate |].
  destruct (Ascii.eqb_spec ":" c5) as [<- |]; [| discriminate].
  intros E.
  apply plus_loop_lazy_inv in E as (t1 & r1 & -> & Ht1 & Hn1 & E & Hmin).
  cbn [app Re.exec] in E.
  destruct r1 as [|d1 r1]; [discriminate |].
  destruct (Ascii.eqb_spec ":" d1) as [<- |]; [| discriminate].
  destruct r1 as [|d2 r1]; [discriminate |].
  destruct (Ascii.eqb_spec ":" d2) as [<- |]; [| discriminate].
  apply plus_loop_inv in E as (t2 & r2 & -> & Ht2 & Hn2 & E).
  cbn [app Re.exec String.append] in E.
  destruct (Re.at_eol r2) eqn:Eeol; [| discriminate].
  injection E as <-. exists t1, t2, r2.
  repeat split; try assumption.
  unfold encode_mcp. cbn [String.append]. now rewrite !str_app_assoc.
Qed.

(** [X20].  What [decode_maybe_mcp] decodes is an encoding: when it
    returns a server id, the name is ["mcp::{server}::{tool}"], with at
    most a newline after it, and neither the server id nor the tool name
    is empty or has a newline; without the newline, encoding the result
    gives the name back. *)
Theorem decode_sound (name server tool : string) :
  decode_maybe_mcp name = (Some server, tool) ->
  server <> "" /\ tool <> "" /\
  has_char newline server = false /\ has_char newline tool = false /\
  (name = encode_mcp server tool \/
   name = encode_mcp server tool +:+ String newline "").
Proof.
  unfold decode_maybe_mcp.
  destruct (Re.match_ _mcp_pat name) as [gs|] eqn:E; [| discriminate].
  apply match_mcp_inv in E as (s & t & eol & -> & -> & Hs & Ht & Hns & Hnt & Heol & _).
  intros [= <- <-]. repeat split; try assumption.
  destruct eol as [|c [|c' eol]]; simpl in Heol; try discriminate.
  - left. induction (encode_mcp s t) as [|x w IH]; simpl; [reflexivity | now rewrite IH].
  - right. apply Ascii.eqb_eq in Heol as ->. reflexivity.
Qed.

Lemma decode_sound_witness :
  "srv1" <> "" /\ "lookup" <> "" /\
  has_char newline "srv1" = false /\ has_char newline "lookup" = false /\
  ("mcp::srv1::lookup" = encode_mcp "srv1" "lookup" \/
   "mcp::srv1::lookup" = encode_mcp "srv1" "lookup" +:+ String newline "").
Proof. exact (decode_sound "mcp::srv1::lookup" "srv1" "lookup" eq_refl). Defined.

(** [X21].  [decode_maybe_mcp] finds a server id in every name of the
    form ["mcp::{a}::{b}"], followed by at most a newline, in which [a]
    and [b] are not empty and have no newline. *)
Theorem decode_complete (a b eol : string) :
  a <> "" -> b <> "" ->
  has_char newline a = false -> has_char newline b = false ->
  Re.at_eol eol = true ->
  exists server tool,
    decode_maybe_mcp (encode_mcp a b +:+ eol) = (Some server, tool).
Proof.
  intros Ha Hb Hna Hnb Heol.
  assert (exists gs, Re.match_ _mcp_pat (encode_mcp a b +:+ eol) = Some gs)
    as [gs E].
  { replace (encode_mcp a b +:+ eol) with ("mcp::" +:+ a +:+ "::" +:+ b +:+ eol)
      by (unfold encode_mcp; cbn [String.append]; rewrite !str_app_assoc;
          reflexivity).
    rewrite decode_unfold.
    destruct (after_server_some b eol (5 + String.length a) ([] ++ [a]) Hb Hnb Heol)
      as [gs Hgs].
    apply (plus_loop_some _ false a "" 5 ("::" +:+ b +:+ eol) gs); auto. }
  unfold decode_maybe_mcp. rewrite E.
  apply match_mcp_inv in E as (s & t & eol' & -> & _). eauto.
Qed.

Lemma decode_complete_witness :
  exists server tool,
    decode_maybe_mcp (encode_mcp "a::b" "c" +:+ "") = (Some server, tool).
Proof.
  apply decode_complete; first [reflexivity | discriminate].
Defined.

(** [X22].  The server id [decode_maybe_mcp] returns is the shortest one:
    however else the name is read as ["mcp::{a}::{b}"], with [a] and [b]
    not empty and without a newline, [a] is not shorter. *)
Theorem decode_shortest_server (name server tool a b eol : string) :
  decode_maybe_mcp name = (Some server, tool) ->
  name = encode_mcp a b +:+ eol ->
  a <> "" -> b <> "" ->
  has_char newline b = false ->
  Re.at_eol eol = true ->
  String.length server <= String.length a.
Proof.
  unfold decode_maybe_mcp.
  destruct (Re.match_ _mcp_pat name) as [gs|] eqn:E; [| discriminate].
  apply match_mcp_inv in E as (s & t & eol' & -> & -> & Hs & Ht & Hns & Hnt & Heol' & Hmin).
  intros [= <- <-] Hname Ha Hb Hnb Heol.
  destruct (le_lt_dec (String.length s) (String.length a)) as [Hle | Hlt];
    [exact Hle | exfalso].
  unfold encode_mcp in Hname. cbn [String.append] in Hname.
  injection Hname as Hname. rewrite !str_app_assoc in Hname.
  destruct (str_app_split a s _ _ Hname Hlt) as (q & -> & Hq & Hrest).
  specialize (Hmin a q eq_refl Ha Hq).
  assert (q +:+ "::" +:+ t +:+ eol' = "::" +:+ b +:+ eol) as Hsame
    by (symmetry; exact Hrest).
  rewrite Hsame in Hmin.
  destruct (after_server_some b eol (5 + String.length a) [a] Hb Hnb Heol)
    as [gs Hgs].
  congruence.
Qed.

Lemma decode_shortest_server_witness :
  String.length "a" <= String.length "a::b".
Proof.
  apply (decode_shortest_server "mcp::a::b::c" "a" "b::c" "a::b" "c" "");
    first [reflexivity | discriminate].
Defined.

(** [X23].  A name that does not start with ["mcp::"] is not decoded: it
    comes back as it is, without a server id. *)
Theorem decode_other_prefix (name : string) :
  String.prefix "mcp::" name = false ->
  decode_maybe_mcp name = (None, name).
Proof.
  intros H. unfold decode_maybe_mcp.
  destruct (Re.match_ _mcp_pat name) as [gs|] eqn:E; [| reflexivity].
  apply match_mcp_inv in E as (s & t & eol & _ & -> & _).
  unfold encode_mcp in H. cbn [String.append] in H. simpl in H.
  now destruct (_ +:+ eol).
Qed.

Lemma decode_other_prefix_witness :
  decode_maybe_mcp "MCP::srv1::lookup" = (None, "MCP::srv1::lookup").
Proof. apply decode_other_prefix. reflexivity. Defined.

(** ** The store model: what the result shares with the argument *)

Module HeapSharing.
Import Heap.
Local Open Scope heap_scope.

Lemma bind_ok_inv {A B : Type} (m : M A) (f : A -> M B) (h h' : heap) (b : B) :
  bind m f h = (Ok b, h') ->
  exists a h1, m h = (Ok a, h1) /\ f a h1 = (Ok b, h').
Proof.
  unfold bind. destruct (m h) as [[a|e] h1]; [eauto | discriminate].
Qed.

Section Keeps.
Context (entries : list (string * hval)) (l : nat).

Lemma keeps_frame {A : Type} (m : M A) :
  frame m -> keeps (shares_entries entries l) m.
Proof.
  intros Hm h (e' & Hl & He). exists e'. split; [now apply Hm | exact He].
Qed.

Lemma keeps_bind {A B : Type} (I : heap -> Prop) (m : M A) (f : A -> M B) :
  keeps I m -> (forall a, keeps I (f a)) -> keeps I (bind m f).
Proof.
  intros Hm Hf h Hh. unfold bind. specialize (Hm h Hh).
  destruct (m h) as [[a|e] h1]; simpl in *; [now apply Hf | exact Hm].
Qed.

Lemma keeps_set_item (k : string) (v : hval) :
  In k normalizer_keys ->
  keeps (shares_entries entries l) (set_item l k v).
Proof.
  intros Hk h (e' & Hl & He). unfold set_item, load_dict, load, bind, store.
  rewrite Hl. simpl. exists (dict_set k v e'). split.
  - apply list_lookup_insert_eq. now apply lookup_lt_Some in Hl.
  - intros k' Hk'. rewrite dict_get_set_ne; [now apply He | congruence].
Qed.
End Keeps.

#[local] Hint Resolve HeapFacts.frame_ret HeapFacts.frame_raise
  HeapFacts.frame_alloc HeapFacts.frame_load HeapFacts.frame_load_dict
  HeapFacts.frame_is_dict HeapFacts.frame_get HeapFacts.frame_contains
  HeapFacts.frame_item HeapFacts.frame_get_is HeapFacts.frame_in_valid_types
  HeapFacts.frame_comp : frames.

(** Goes through a computation on the dict at [l]: the reads, the
    allocations and the recursive calls leave it as it is, the assignments
    are under the normalizer's keys. *)
Ltac keeps_step :=
  repeat first
    [ apply keeps_frame; solve [auto with frames]
    | apply keeps_set_item; simpl; tauto
    | apply keeps_bind; [| intros ?]
    | match goal with
      | |- keeps _ (if ?b then _ else _) => destruct b
      | |- keeps _ (match ?x with _ => _ end) => destruct x
      end ].

Section Steps.
Context (entries : list (string * hval)) (result : nat) (rec : hval -> M hval).
Hypothesis Hrec : forall v, frame (rec v).

Lemma keeps_ensure_type :
  keeps (shares_entries entries result) (ensure_type result).
Proof. unfold ensure_type. keeps_step. Qed.

Lemma keeps_set_default (k : string) (o : obj) :
  In k normalizer_keys ->
  keeps (shares_entries entries result) (set_default result k o).
Proof. intros Hk. unfold set_default. keeps_step. Qed.

Lemma keeps_complete_object :
  keeps (shares_entries entries result) (complete_object rec result).
Proof.
  unfold complete_object.
  apply keeps_bind; [keeps_step |]. intros [|]; [| keeps_step].
  apply keeps_bind; [apply keeps_set_default; simpl; tauto |]. intros _.
  apply keeps_bind; [apply keeps_set_default; simpl; tauto |]. intros _.
  keeps_step.
Qed.

Lemma keeps_normalize_items :
  keeps (shares_entries entries result) (normalize_items rec result).
Proof. unfold normalize_items. keeps_step. Qed.

Lemma keeps_normalize_additional :
  keeps (shares_entries entries result) (normalize_additional rec result).
Proof. unfold normalize_additional. keeps_step. Qed.
End Steps.

End HeapSharing.

(** [X25].  On the store, the result of the normalizer for a dict is a new
    object, never the argument, and it is a shallow copy: under every key
    other than [type], [properties], [required], [items] and
    [additionalProperties] it holds the heap value of the argument, so a
    list or a dict found there is one object, shared by the argument and
    the result.  The argument is the object it was. *)
Theorem normalize_shares (fuel src : nat) (h h' : Heap.heap)
    (entries : list (string * Heap.hval)) (hv' : Heap.hval) :
  h !! src = Some (Heap.ODict entries) ->
  Heap.normalize_fuel fuel (Heap.HRef src) h = (Ok hv', h') ->
  hv' = Heap.HRef (length h) /\
  h' !! src = Some (Heap.ODict entries) /\
  shares_entries entries (length h) h'.
Proof.
  intros Hsrc H.
  assert (Hkeep : h' !! src = Some (Heap.ODict entries)).
  { pose proof (HeapFacts.frame_normalize_fuel fuel (Heap.HRef src) h) as Hp.
    rewrite H in Hp. now apply Hp. }
  destruct fuel as [|fuel]; [discriminate |].
  pose proof (HeapFacts.frame_normalize_fuel fuel) as Hrec.
  cbn [Heap.normalize_fuel] in H. unfold Heap.normalize_body in H.
  unfold Heap.bind at 1 in H. unfold Heap.is_dict, Heap.bind, Heap.load in H.
  rewrite Hsrc in H. cbn [Heap.ret negb] in H.
  fold (Heap.load src) in H.
  change (Heap.bind (Heap.copy_dict src)
            (fun result =>
               Heap.bind (Heap.ensure_type result) (fun _ =>
               Heap.bind (Heap.complete_object (Heap.normalize_fuel fuel) result) (fun _ =>
               Heap.bind (Heap.normalize_items (Heap.normalize_fuel fuel) result) (fun _ =>
               Heap.bind (Heap.normalize_additional (Heap.normalize_fuel fuel) result) (fun _ =>
               Heap.ret (Heap.HRef result)))))) h = (Ok hv', h')) in H.
  apply HeapSharing.bind_ok_inv in H as (result & h0 & Hcopy & H).
  unfold Heap.copy_dict, Heap.load_dict, Heap.load, Heap.bind, Heap.alloc in Hcopy.
  rewrite Hsrc in Hcopy. cbn [Heap.ret] in Hcopy. injection Hcopy as <- <-.
  assert (I0 : shares_entries entries (length h) (h ++ [Heap.ODict entries])).
  { exists entries. split; [| reflexivity].
    rewrite lookup_app_r by lia. now rewrite Nat.sub_diag. }
  apply HeapSharing.bind_ok_inv in H as ([] & h1 & E1 & H).
  pose proof (HeapSharing.keeps_ensure_type entries (length h) _ I0) as I1.
  rewrite E1 in I1. simpl in I1.
  apply HeapSharing.bind_ok_inv in H as ([] & h2 & E2 & H).
  pose proof (HeapSharing.keeps_complete_object entries (length h) _ Hrec _ I1) as I2.
  rewrite E2 in I2. simpl in I2.
  apply HeapSharing.bind_ok_inv in H as ([] & h3 & E3 & H).
  pose proof (HeapSharing.keeps_normalize_items entries (length h) _ Hrec _ I2) as I3.
  rewrite E3 in I3. simpl in I3.
  apply HeapSharing.bind_ok_inv in H as ([] & h4 & E4 & H).
  pose proof (HeapSharing.keeps_normalize_additional entries (length h) _ Hrec _ I3) as I4.
  rewrite E4 in I4. simpl in I4.
  injection H as <- <-. now repeat split.
Qed.

Lemma normalize_shares_witness :
  Heap.HRef 2 = Heap.HRef (length enum_store) /\
  (Heap.normalize_fuel 1 (Heap.HRef 0) enum_store).2 !! 0 =
    Some (Heap.ODict [("enum", Heap.HRef 1)]) /\
  shares_entries [("enum", Heap.HRef 1)] (length enum_store)
    (Heap.normalize_fuel 1 (Heap.HRef 0) enum_store).2.
Proof.
  apply (normalize_shares 1 0 enum_store); reflexivity.
Defined.

(** ** Inbound tool calls *)

Lemma at_eol_inv (eol : string) :
  Re.at_eol eol = true -> eol = "" \/ eol = String newline "".
Proof.
  destruct eol as [|c [|c' eol]]; simpl; intros H; try discriminate.
  - now left.
  - right. now apply Ascii.eqb_eq in H as ->.
Qed.

Lemma str_app_nil_r (a : string) : a +:+ "" = a.
Proof. induction a as [|x a IH]; simpl; [reflexivity | now rewrite IH]. Qed.

(** [X26].  The name the mapper gives to an mcp tool, without native
    support, comes back as the tool: when the server id and the tool name
    are not empty and have no newline, and the server id has no ["::"] and
    no colon at its end, the output has a function declaration for the
    tool, and from every call record with the name of that declaration
    [normalize_tool_call] builds the call of the tool's name on the tool's
    server. *)
Theorem mcp_call_roundtrip (tools : list ToolSpec.t) (t : ToolSpec.t)
    (m : MCPToolSpec.t) (out : list value) :
  In t tools ->
  ToolSpec.kind t = ToolKind.mcp ->
  ToolSpec.mcp t = Some m ->
  MCPToolSpec.server_id m <> "" -> MCPToolSpec.name m <> "" ->
  has_char newline (MCPToolSpec.server_id m) = false ->
  has_char newline (MCPToolSpec.name m) = false ->
  str_contains "::" (MCPToolSpec.server_id m) = false ->
  ends_with_char colon (MCPToolSpec.server_id m) = false ->
  to_openai_tools tools false = Ok out ->
  exists d n,
    In d out /\ decl_function_name d = Some (VStr n) /\
    forall raw, dict_get "name" raw = Some (VStr n) ->
      exists tc,
        normalize_tool_call raw = Ok tc /\
        ToolCall.name tc = VStr (MCPToolSpec.name m) /\
        ToolCall.mcp_server_id tc = Some (MCPToolSpec.server_id m).
Proof.
  intros Hin Hk Hm Hs Hn Hnls Hnln Hcs Hes Hout.
  apply in_split in Hin as (pre & post & ->).
  rewrite to_openai_tools_middle, to_openai_tools_one in Hout.
  unfold loop_body in Hout. rewrite Hk, Hm in Hout.
  destruct (to_openai_tools pre false) as [o1|]; simpl in Hout; [| discriminate].
  destruct (_normalize_schema (VDict (MCPToolSpec.input_schema m))) as [ps|];
    simpl in Hout; [| discriminate].
  destruct (to_openai_tools post false) as [o2|]; simpl in Hout; [| discriminate].
  injection Hout as <-.
  eexists. exists (encode_mcp (MCPToolSpec.server_id m) (MCPToolSpec.name m)).
  split; [| split].
  - apply in_or_app. right. left. reflexivity.
  - reflexivity.
  - intros raw Hraw. eexists. split.
    + apply normalize_tool_call_ok. unfold get_default. now rewrite Hraw.
    + unfold decode_maybe_mcp.
      rewrite (match_encoded _ _ Hs Hn Hnls Hnln Hcs Hes). now split.
Qed.

Lemma mcp_call_roundtrip_witness :
  exists d n,
    In d [VDict [("type", VStr "function");
                 ("function",
                  VDict [("name", VStr "mcp::srv1::lookup");
                         ("description", VStr " [MCP server=srv1]");
                         ("parameters", VDict [("type", VStr "string")])])]] /\
    decl_function_name d = Some (VStr n) /\
    forall raw, dict_get "name" raw = Some (VStr n) ->
      exists tc,
        normalize_tool_call raw = Ok tc /\
        ToolCall.name tc = VStr "lookup" /\
        ToolCall.mcp_server_id tc = Some "srv1".
Proof.
  apply (mcp_call_roundtrip [mcp_tool lookup_spec] (mcp_tool lookup_spec)
           lookup_spec);
    first [reflexivity | discriminate | now left].
Defined.

(** [X27].  The call [normalize_tool_call] builds keeps the name of the
    record: with a server id, which is never empty, the name of the record
    is ["mcp::{server}::{name}"] for the server id and the name of the
    call, with at most a newline after it; without one, the name of the
    call is the name of the record. *)
Theorem normalize_tool_call_keeps_name (raw : list (string * value))
    (tc : ToolCall.t) :
  normalize_tool_call raw = Ok tc ->
  match ToolCall.mcp_server_id tc with
  | Some server =>
      exists tool,
        ToolCall.name tc = VStr tool /\ server <> "" /\ tool <> "" /\
        (get_default "name" (VStr "") raw = VStr (encode_mcp server tool) \/
         get_default "name" (VStr "") raw =
           VStr (encode_mcp server tool +:+ String newline ""))
  | None => ToolCall.name tc = get_default "name" (VStr "") raw
  end.
Proof.
  intros H.
  destruct (get_default "name" (VStr "") raw) as [| | | |n| |] eqn:E;
    try (unfold normalize_tool_call in H; rewrite E in H; discriminate).
  rewrite (normalize_tool_call_ok raw n E) in H. injection H as <-. simpl.
  destruct (decode_maybe_mcp n) as [[server|] tool] eqn:D; simpl.
  - apply decode_some_inv in D as (Hs & Ht & _ & _ & eol & Heol & ->).
    exists tool. repeat split; try assumption.
    destruct (at_eol_inv eol Heol) as [-> | ->];
      [left; now rewrite str_app_nil_r | now right].
  - now rewrite (decode_no_match n tool D).
Qed.

Lemma normalize_tool_call_keeps_name_witness :
  exists tool,
    VStr "lookup" = VStr tool /\ "srv1" <> "" /\ tool <> "" /\
    (get_default "name" (VStr "") call_c = VStr (encode_mcp "srv1" tool) \/
     get_default "name" (VStr "") call_c =
       VStr (encode_mcp "srv1" tool +:+ String newline "")).
Proof.
  exact (normalize_tool_call_keeps_name call_c _ eq_refl).
Defined.

(** [X28].  [normalize_tool_call] returns a call exactly for the records
    whose [name] is a string, or missing, whose [id] is a string, or
    false, or missing, and whose [arguments] are a string, or missing.  On
    a record with another [name] it raises the [TypeError] of the regular
    expression, whatever [id] and [arguments] are; on the others the
    [ValidationError] of the class. *)
Theorem normalize_tool_call_returns_iff (raw : list (string * value)) :
  ((exists tc, normalize_tool_call_validated raw = Ok tc) <->
   name_is_str raw /\ id_accepted raw /\ arguments_accepted raw) /\
  (forall e, normalize_tool_call_validated raw = Err e ->
             (~ name_is_str raw /\ exists msg, e = TypeError msg) \/
             (name_is_str raw /\ e = ValidationError)).
Proof.
  destruct (get_default "name" (VStr "") raw) as [| | | |n| |] eqn:En;
    try (assert (Hno : ~ name_is_str raw)
           by (intros [n' Hn']; unfold name_is_str in *; congruence);
         unfold normalize_tool_call_validated, normalize_tool_call;
         rewrite En; cbn [rbind];
         split; [split; [intros [tc H]; discriminate | now intros [H _]]
                | intros e [= <-]; left; split; [exact Hno | eauto]]).
  assert (Hname : name_is_str raw) by now exists n.
  destruct (normalize_tool_call_validated_cases raw Hname)
    as [(Hid & Harg & tc & _ & Hv) | [Hno Hv]]; rewrite Hv.
  - split; [split; eauto | discriminate].
  - split; [split; [intros [tc H]; discriminate | intros (_ & H1 & H2); tauto] |].
    intros e [= <-]. right. now split.
Qed.

(** [X29].  [normalize_tool_call] reads the keys [id], [name] and
    [arguments] of the record and nothing else: two records with the same
    values under these keys give the same result. *)
Theorem normalize_tool_call_reads_three_keys (raw raw' : list (string * value)) :
  dict_get "id" raw = dict_get "id" raw' ->
  dict_get "name" raw = dict_get "name" raw' ->
  dict_get "arguments" raw = dict_get "arguments" raw' ->
  normalize_tool_call raw = normalize_tool_call raw'.
Proof.
  intros Hid Hname Hargs. unfold normalize_tool_call, get_default.
  now rewrite Hid, Hname, Hargs.
Qed.

Lemma normalize_tool_call_reads_three_keys_witness :
  normalize_tool_call call_c =
  normalize_tool_call (("index", VInt 0%Z) :: ("type", VStr "function") :: call_c).
Proof.
  apply normalize_tool_call_reads_three_keys; reflexivity.
Defined.
